(** * OTLP logs exporter: configuration resolution and shutdown contract

    A shallow embedding of the configuration builders of
    [exporters/otlp/otlplogs/internal/otlpconfig] (options.go, envconfig.go)
    together with the Go standard-library string and path primitives they
    call, followed by the properties the specification states about them.

    Go strings are byte sequences: they are modelled as [string] (a sequence
    of [ascii], i.e. of bytes), and the byte-level algorithms work on
    [list ascii]. *)

From Stdlib Require Import List Bool Arith ZArith Lia Ascii String DecimalString.
From stdpp Require Import gmap strings.
Import ListNotations.

Open Scope string_scope.
Open Scope nat_scope.
Open Scope list_scope.

(* ================================================================== *)
(** * Part I. Definitions *)
(* ================================================================== *)

(** ** Go's [strings] package: the two functions the code calls *)

Module gostrings.

(** [asciiSpace] of strings.go: the six ASCII white-space bytes
    ['\t', '\n', '\v', '\f', '\r', ' ']. *)
Definition asciiSpace (c : ascii) : bool :=
  let n := nat_of_ascii c in
  ((9 <=? n) && (n <=? 13)) || (n =? 32).

(** The white-space runes of [unicode.IsSpace] that are not ASCII, by their
    UTF-8 encodings: U+0085 and U+00A0 take two bytes; U+1680,
    U+2000..U+200A, U+2028, U+2029, U+202F, U+205F and U+3000 take three. *)
Definition space2 (b1 b2 : ascii) : bool :=
  (nat_of_ascii b1 =? 194) &&
  ((nat_of_ascii b2 =? 133) || (nat_of_ascii b2 =? 160)).

Definition space3 (b1 b2 b3 : ascii) : bool :=
  let n1 := nat_of_ascii b1 in
  let n2 := nat_of_ascii b2 in
  let n3 := nat_of_ascii b3 in
  ((n1 =? 225) && (n2 =? 154) && (n3 =? 128))
  || ((n1 =? 226) && (n2 =? 128) &&
      (((128 <=? n3) && (n3 <=? 138)) || (n3 =? 168) || (n3 =? 169)
       || (n3 =? 175)))
  || ((n1 =? 226) && (n2 =? 129) && (n3 =? 159))
  || ((n1 =? 227) && (n2 =? 128) && (n3 =? 128)).

(** [TrimLeftFunc(s, unicode.IsSpace)]: drop white-space runes from the
    front.  A rune is recognised by the bytes that encode it. *)
Fixpoint trimLeft (s : list ascii) : list ascii :=
  match s with
  | [] => []
  | b1 :: s1 =>
    if asciiSpace b1 then trimLeft s1
    else
      match s1 with
      | [] => s
      | b2 :: s2 =>
        if space2 b1 b2 then trimLeft s2
        else
          match s2 with
          | [] => s
          | b3 :: s3 => if space3 b1 b2 b3 then trimLeft s3 else s
          end
      end
  end.

(** [TrimRightFunc(s, unicode.IsSpace)], on the reversed byte sequence:
    the last rune is read backwards, so the encodings appear mirrored. *)
Fixpoint trimRightRev (s : list ascii) : list ascii :=
  match s with
  | [] => []
  | b1 :: s1 =>
    if asciiSpace b1 then trimRightRev s1
    else
      match s1 with
      | [] => s
      | b2 :: s2 =>
        if space2 b2 b1 then trimRightRev s2
        else
          match s2 with
          | [] => s
          | b3 :: s3 => if space3 b3 b2 b1 then trimRightRev s3 else s
          end
      end
  end.

Definition trimSpaceBytes (s : list ascii) : list ascii :=
  rev (trimRightRev (rev (trimLeft s))).

(** [strings.TrimSpace]: the string without leading and trailing Unicode
    white space.  (Go's ASCII fast path and its fall-back to
    [TrimFunc(s, unicode.IsSpace)] compute the same string.) *)
Definition TrimSpace (s : string) : string :=
  string_of_list_ascii (trimSpaceBytes (list_ascii_of_string s)).

Definition lowerByte (c : ascii) : ascii :=
  let n := nat_of_ascii c in
  if (65 <=? n) && (n <=? 90) then ascii_of_nat (n + 32) else c.

(** [strings.ToLower], as it acts on ASCII letters: ['A'..'Z'] become
    ['a'..'z'] and every other byte is kept.  Go also lower-cases the
    letters beyond ASCII through the Unicode tables.  The code lower-cases
    two kinds of strings: URL schemes, which [url.Parse] only accepts when
    they are ASCII, and protocol names, which are compared with ASCII
    constants that a string with a letter beyond ASCII cannot become (the
    only ASCII letters such a letter is mapped to are [i] and [k], and the
    protocol names have neither). *)
Fixpoint ToLower (s : string) : string :=
  match s with
  | EmptyString => EmptyString
  | String c s' => String (lowerByte c) (ToLower s')
  end.

End gostrings.

(** ** Go's [path] package *)

Module path.

Definition slash : ascii := "/"%char.
Definition dot : ascii := "."%char.

(** The test [r+k == n || path[r+k] == '/'] on the rest of the input. *)
Definition elemEnds (l : list ascii) : bool :=
  match l with
  | [] => true
  | c :: _ => Ascii.eqb c slash
  end.

(** The inner loop of the [..] case,
    [for out.w > dotdot && out.index(out.w) != '/' { out.w-- }].
    The buffer is kept with its last byte first; [last] is the byte at
    index [out.w], the one dropped most recently. *)
Fixpoint backtrack (dotdot : nat) (last : ascii) (out : list ascii)
  : list ascii :=
  match out with
  | [] => []
  | c :: out' =>
    if (dotdot <? List.length out) && negb (Ascii.eqb last slash)
    then backtrack dotdot c out'
    else out
  end.

(** The main loop of [path.Clean], [for r < n { switch ... }].  [l] is
    [path[r:]]; [out] is the lazybuf content, last byte first, so that
    [out.w] is its length; [inElem] says that the copying loop of the
    default case, [for ; r < n && path[r] != '/'; r++], is running. *)
Fixpoint cleanLoop (rooted inElem : bool) (l out : list ascii)
  (dotdot : nat) : list ascii :=
  match l with
  | [] => out
  | c :: l1 =>
    let start (_ : unit) :=
      let w := List.length out in
      let out1 :=
        if (rooted && negb (w =? 1)) || (negb rooted && negb (w =? 0))
        then slash :: out else out in
      cleanLoop rooted true l1 (c :: out1) dotdot in
    if inElem then
      if Ascii.eqb c slash then cleanLoop rooted false l1 out dotdot
      else cleanLoop rooted true l1 (c :: out) dotdot
    else if Ascii.eqb c slash then cleanLoop rooted false l1 out dotdot
    else if Ascii.eqb c dot && elemEnds l1
    then cleanLoop rooted false l1 out dotdot
    else
      match l1 with
      | c1 :: l2 =>
        if Ascii.eqb c dot && Ascii.eqb c1 dot && elemEnds l2 then
          if dotdot <? List.length out then
            match out with
            | last :: out' =>
              cleanLoop rooted false l2 (backtrack dotdot last out') dotdot
            | [] => cleanLoop rooted false l2 out dotdot
            end
          else if negb rooted then
            let out1 :=
              if 0 <? List.length out then slash :: out else out in
            let out2 := dot :: dot :: out1 in
            cleanLoop rooted false l2 out2 (List.length out2)
          else cleanLoop rooted false l2 out dotdot
        else start tt
      | [] => start tt
      end
  end.

Definition cleanBytes (p : list ascii) : list ascii :=
  match p with
  | [] => [dot]
  | c0 :: rest =>
    let rooted := Ascii.eqb c0 slash in
    let out :=
      if rooted then cleanLoop true false rest [slash] 1
      else cleanLoop false false p [] 0 in
    match out with
    | [] => [dot]
    | _ => rev out
    end
  end.

(** [path.Clean]: the shortest path name equivalent to [p] by purely
    lexical processing. *)
Definition Clean (p : string) : string :=
  string_of_list_ascii (cleanBytes (list_ascii_of_string p)).

(** [path.IsAbs]: [len(path) > 0 && path[0] == '/']. *)
Definition IsAbs (p : string) : bool :=
  match p with
  | EmptyString => false
  | String c _ => Ascii.eqb c slash
  end.

(** The loop of [path.Join] that builds [buf]: empty elements before the
    first non-empty one are skipped, later ones still add a separator. *)
Fixpoint joinBuf (buf : string) (elem : list string) : string :=
  match elem with
  | [] => buf
  | e :: rest =>
    if (0 <? String.length buf) || negb (String.eqb e "")
    then joinBuf ((if 0 <? String.length buf then buf +:+ "/" else buf) +:+ e)
           rest
    else joinBuf buf rest
  end.

(** [path.Join]: the empty string when every element is empty, else the
    cleaned concatenation. *)
Definition Join (elem : list string) : string :=
  if fold_left (fun n e => n + String.length e) elem 0 =? 0
  then ""
  else Clean (joinBuf "" elem).

End path.

(** ** Types of the libraries the configuration refers to *)

(** [time.Duration]: a signed count of nanoseconds. *)
Definition Duration := Z.
Definition Millisecond : Duration := 1000000%Z.
Definition Second : Duration := 1000000000%Z.

(** [*url.URL], reduced to the three fields the code reads. *)
Record URL := mkURL { Scheme : string; Host : string; Path : string }.

(** [x509.CertPool] and [tls.Certificate] are opaque to this code: a pool is
    identified by the PEM text it was parsed from, a client certificate by
    its certificate and key texts. *)
Definition CertPool := string.
Definition Certificate := (string * string)%type.

(** [tls.Config], reduced to the two fields the code reads or writes. *)
Record tls_Config := mkTLS {
  RootCAs : option CertPool;
  Certificates : list Certificate
}.

(** [credentials.TransportCredentials]: the two ways the code builds one,
    [credentials.NewTLS(c)] ([c] may be nil) and
    [insecure.NewCredentials()]. *)
Inductive TransportCredentials :=
| credentials_NewTLS (c : option tls_Config)
| insecure_NewCredentials.

Inductive backoff_Config := backoff_DefaultConfig.

Record ConnectParams := mkConnectParams {
  Backoff : backoff_Config;
  MinConnectTimeout : Duration
}.

Inductive CallOption := UseCompressor (name : string).

Definition gzip_Name : string := "gzip".

(** [grpc.DialOption]: the options the builder creates, and [DialOptionOf]
    for any other one a caller put in the list. *)
Inductive DialOption :=
| WithUserAgent (s : string)
| WithDefaultServiceConfig (s : string)
| WithTransportCredentials (c : TransportCredentials)
| WithDefaultCallOptions (o : CallOption)
| WithConnectParams (p : ConnectParams)
| DialOptionOf (id : nat).

(** [*http.Client] and [*grpc.ClientConn] are handles the code only stores. *)
Definition http_Client := nat.
Definition grpc_ClientConn := nat.

(** ** Package [retry]: only the configuration value is used *)

Module retry.

(** Modelled from the spec: the package is not among the sources; the
    retry policy is "an opaque struct: initial interval, max interval, max
    elapsed time" that the configuration carries through untouched. *)
Record Config := mkConfig {
  Enabled : bool;
  InitialInterval : Duration;
  MaxInterval : Duration;
  MaxElapsedTime : Duration
}.

End retry.

(** ** Package [envconfig]: reading typed values from the environment *)

Module envconfig.

(** Modelled from the spec: package [envconfig] is not among the sources.
    The spec (section 4.2) makes the reader turn each variable
    [<NAMESPACE>_<KEY>] into a typed value: a variable that is absent is
    skipped, and one that is present but malformed (bad URL, unparsable
    duration, unreadable certificate file) is abandoned, so that in both
    cases nothing is emitted for it.  The reader is therefore a family of
    typed look-ups, each [None] for "absent or malformed"; the parsers
    themselves ([url.Parse], [strconv], PEM decoding) are not modelled.
    A variable that is empty counts as absent: the tests' [getEnv] returns
    the empty string for a variable that is not set, so [GetEnvValue]
    never yields the empty string.
    Keys are written without the namespace prefix, as in the source. *)
Record EnvOptionsReader := mkReader {
  GetEnvValue : string -> option string;
  GetURL : string -> option URL;
  GetBool : string -> option bool;
  GetHeaders : string -> option (gmap string string);
  GetDuration : string -> option Duration;
  GetCertPool : string -> option CertPool;
  GetClientCert : string -> string -> option Certificate
}.

Section Readers.
(** The callbacks of the source close over local variables and assign
    to them; here they are state transformers on those variables. *)
Context {St : Type}.

Definition ReaderOption := EnvOptionsReader -> St -> St.

(** Modelled from the spec: [e.Apply(opts...)] runs the given readers in
    order. *)
Definition Apply (e : EnvOptionsReader) (opts : list ReaderOption)
  (st : St) : St :=
  fold_left (fun st o => o e st) opts st.

Definition withValue {A : Type} (get : EnvOptionsReader -> option A)
  (fn : A -> St -> St) : ReaderOption :=
  fun e st => match get e with Some v => fn v st | None => st end.

(** Modelled from the spec: [WithString], [WithURL], [WithBool],
    [WithHeaders], [WithDuration], [WithCertPool] and [WithClientCert]
    call [fn] with the value of variable [n] when it is present and well
    formed, and do nothing otherwise. *)
Definition WithString (n : string) (fn : string -> St -> St) :=
  withValue (fun e => GetEnvValue e n) fn.
Definition WithURL (n : string) (fn : URL -> St -> St) :=
  withValue (fun e => GetURL e n) fn.
Definition WithBool (n : string) (fn : bool -> St -> St) :=
  withValue (fun e => GetBool e n) fn.
Definition WithHeaders (n : string)
  (fn : gmap string string -> St -> St) :=
  withValue (fun e => GetHeaders e n) fn.
Definition WithDuration (n : string) (fn : Duration -> St -> St) :=
  withValue (fun e => GetDuration e n) fn.
Definition WithCertPool (n : string) (fn : CertPool -> St -> St) :=
  withValue (fun e => GetCertPool e n) fn.
Definition WithClientCert (nc nk : string)
  (fn : Certificate -> St -> St) :=
  withValue (fun e => GetClientCert e nc nk) fn.
End Readers.

Arguments ReaderOption : clear implicits.

End envconfig.

(** ** Package [otlpconfig] (options.go, envconfig.go) *)

Module otlpconfig.

(** Modelled from the spec: the declaration of [Compression] is not among
    the sources; the spec gives "compression mode (none | gzip)". *)
Inductive Compression_t := NoCompression | GzipCompression.

(** Modelled from the spec: [Protocol] is a string type (the source
    converts its constants with [string(...)]) whose constants are not
    among the sources; the spec gives the values [grpc], [http/protobuf]
    and [http/json]. *)
Definition Protocol_t := string.
Definition ExporterProtocolGrpc : Protocol_t := "grpc".
Definition ExporterProtocolHttpProtobuf : Protocol_t := "http/protobuf".
Definition ExporterProtocolHttpJson : Protocol_t := "http/json".

(** Modelled from the spec: the default collector address is declared
    outside the sources; the spec gives "HTTP default target
    localhost:4318" and "gRPC default target localhost:4317". *)
Definition DefaultCollectorHost : string := "localhost".
Definition DefaultCollectorHTTPPort : N := 4318.
Definition DefaultCollectorGRPCPort : N := 4317.

Definition DefaultLogsPath : string := "/v1/logs".
Definition DefaultTimeout : Duration := (10 * Second)%Z.

Record SignalConfig := mkSignalConfig {
  Endpoint : string;
  Protocol : Protocol_t;
  Insecure : bool;
  TLSCfg : option tls_Config;
  Headers : option (gmap string string);
  Compression : Compression_t;
  Timeout : Duration;
  URLPath : string;
  GRPCCredentials : option TransportCredentials;
  HTTPClient : option http_Client
}.

Record Config := mkConfig {
  Logs : SignalConfig;
  RetryConfig : retry.Config;
  ReconnectionPeriod : Duration;
  ServiceConfig : string;
  DialOptions : list DialOption;
  GRPCConn : option grpc_ClientConn
}.

(** Field assignments [cfg.F = v] and [cfg.Logs.F = v] on a [Config] held
    by value. *)
Definition setLogs (f : SignalConfig -> SignalConfig) (cfg : Config) :=
  mkConfig (f (Logs cfg)) (RetryConfig cfg) (ReconnectionPeriod cfg)
    (ServiceConfig cfg) (DialOptions cfg) (GRPCConn cfg).
Definition setRetryConfig (v : retry.Config) (cfg : Config) :=
  mkConfig (Logs cfg) v (ReconnectionPeriod cfg) (ServiceConfig cfg)
    (DialOptions cfg) (GRPCConn cfg).
Definition setDialOptions (v : list DialOption) (cfg : Config) :=
  mkConfig (Logs cfg) (RetryConfig cfg) (ReconnectionPeriod cfg)
    (ServiceConfig cfg) v (GRPCConn cfg).

Definition setEndpoint (v : string) (s : SignalConfig) :=
  mkSignalConfig v (Protocol s) (Insecure s) (TLSCfg s) (Headers s)
    (Compression s) (Timeout s) (URLPath s) (GRPCCredentials s)
    (HTTPClient s).
Definition setProtocol (v : Protocol_t) (s : SignalConfig) :=
  mkSignalConfig (Endpoint s) v (Insecure s) (TLSCfg s) (Headers s)
    (Compression s) (Timeout s) (URLPath s) (GRPCCredentials s)
    (HTTPClient s).
Definition setInsecure (v : bool) (s : SignalConfig) :=
  mkSignalConfig (Endpoint s) (Protocol s) v (TLSCfg s) (Headers s)
    (Compression s) (Timeout s) (URLPath s) (GRPCCredentials s)
    (HTTPClient s).
Definition setTLSCfg (v : option tls_Config) (s : SignalConfig) :=
  mkSignalConfig (Endpoint s) (Protocol s) (Insecure s) v (Headers s)
    (Compression s) (Timeout s) (URLPath s) (GRPCCredentials s)
    (HTTPClient s).
Definition setHeaders (v : option (gmap string string))
  (s : SignalConfig) :=
  mkSignalConfig (Endpoint s) (Protocol s) (Insecure s) (TLSCfg s) v
    (Compression s) (Timeout s) (URLPath s) (GRPCCredentials s)
    (HTTPClient s).
Definition setCompression (v : Compression_t) (s : SignalConfig) :=
  mkSignalConfig (Endpoint s) (Protocol s) (Insecure s) (TLSCfg s)
    (Headers s) v (Timeout s) (URLPath s) (GRPCCredentials s)
    (HTTPClient s).
Definition setTimeout (v : Duration) (s : SignalConfig) :=
  mkSignalConfig (Endpoint s) (Protocol s) (Insecure s) (TLSCfg s)
    (Headers s) (Compression s) v (URLPath s) (GRPCCredentials s)
    (HTTPClient s).
Definition setURLPath (v : string) (s : SignalConfig) :=
  mkSignalConfig (Endpoint s) (Protocol s) (Insecure s) (TLSCfg s)
    (Headers s) (Compression s) (Timeout s) v (GRPCCredentials s)
    (HTTPClient s).
Definition setGRPCCredentials (v : option TransportCredentials)
  (s : SignalConfig) :=
  mkSignalConfig (Endpoint s) (Protocol s) (Insecure s) (TLSCfg s)
    (Headers s) (Compression s) (Timeout s) (URLPath s) v (HTTPClient s).
Definition setHTTPClient (v : option http_Client) (s : SignalConfig) :=
  mkSignalConfig (Endpoint s) (Protocol s) (Insecure s) (TLSCfg s)
    (Headers s) (Compression s) (Timeout s) (URLPath s)
    (GRPCCredentials s) v.

(** *** The option kinds *)

(** The interfaces [HTTPOption] and [GRPCOption] as classes of the types
    that have the method. *)
Class HasHTTPOption (A : Type) := ApplyHTTPOption : A -> Config -> Config.
Class HasGRPCOption (A : Type) := ApplyGRPCOption : A -> Config -> Config.

(** [GenericOption] is implemented by [genericOption] (one function for
    both drivers) and [splitOption] (one function per driver). *)
Inductive GenericOption :=
| genericOption (fn : Config -> Config)
| splitOption (httpFn grpcFn : Config -> Config).

(** [HTTPOption] is implemented by [httpOption] and by every
    [GenericOption]; likewise [GRPCOption]. *)
Inductive HTTPOption :=
| httpOption (fn : Config -> Config)
| HTTPOptionOf (g : GenericOption).

Inductive GRPCOption :=
| grpcOption (fn : Config -> Config)
| GRPCOptionOf (g : GenericOption).

Coercion HTTPOptionOf : GenericOption >-> HTTPOption.
Coercion GRPCOptionOf : GenericOption >-> GRPCOption.

#[export] Instance GenericOption_HTTP : HasHTTPOption GenericOption :=
  fun g cfg =>
    match g with
    | genericOption fn => fn cfg
    | splitOption httpFn _ => httpFn cfg
    end.

#[export] Instance GenericOption_GRPC : HasGRPCOption GenericOption :=
  fun g cfg =>
    match g with
    | genericOption fn => fn cfg
    | splitOption _ grpcFn => grpcFn cfg
    end.

#[export] Instance HTTPOption_HTTP : HasHTTPOption HTTPOption :=
  fun h cfg =>
    match h with
    | httpOption fn => fn cfg
    | HTTPOptionOf g => ApplyHTTPOption g cfg
    end.

#[export] Instance GRPCOption_GRPC : HasGRPCOption GRPCOption :=
  fun h cfg =>
    match h with
    | grpcOption fn => fn cfg
    | GRPCOptionOf g => ApplyGRPCOption g cfg
    end.

Definition newGenericOption (fn : Config -> Config) : GenericOption :=
  genericOption fn.
Definition newSplitOption (httpFn grpcFn : Config -> Config)
  : GenericOption := splitOption httpFn grpcFn.
Definition NewHTTPOption (fn : Config -> Config) : HTTPOption :=
  httpOption fn.
Definition NewGRPCOption (fn : Config -> Config) : GRPCOption :=
  grpcOption fn.

(** *** Generic options *)

Definition WithEndpoint (endpoint : string) : GenericOption :=
  newGenericOption (setLogs (setEndpoint endpoint)).

Definition WithCompression (compression : Compression_t) : GenericOption :=
  newGenericOption (setLogs (setCompression compression)).

Definition WithURLPath (urlPath : string) : GenericOption :=
  newGenericOption (setLogs (setURLPath urlPath)).

Definition WithRetry (rc : retry.Config) : GenericOption :=
  newGenericOption (setRetryConfig rc).

(** [tlsCfg.Clone()] of a nil pointer is nil; of a configuration, an equal
    configuration. *)
Definition tls_Clone (c : option tls_Config) : option tls_Config := c.

Definition WithTLSClientConfig (tlsCfg : option tls_Config)
  : GenericOption :=
  newSplitOption
    (setLogs (setTLSCfg (tls_Clone tlsCfg)))
    (setLogs (setGRPCCredentials (Some (credentials_NewTLS tlsCfg)))).

Definition WithInsecure : GenericOption :=
  newGenericOption (setLogs (setInsecure true)).

Definition WithSecure : GenericOption :=
  newGenericOption (setLogs (setInsecure false)).

Definition WithHeaders (headers : option (gmap string string))
  : GenericOption :=
  newGenericOption (setLogs (setHeaders headers)).

Definition WithTimeout (duration : Duration) : GenericOption :=
  newGenericOption (setLogs (setTimeout duration)).

Definition WithProtocol (protocol : Protocol_t) : GenericOption :=
  newGenericOption (setLogs (setProtocol protocol)).

Definition WithHTTPClient (c : option http_Client) : GenericOption :=
  newGenericOption (setLogs (setHTTPClient c)).

(** *** Path normalisation *)

(** [fmt.Sprintf("/%s", tmp)]. *)
Definition CleanPath (urlPath defaultPath : string) : string :=
  let tmp := path.Clean (gostrings.TrimSpace urlPath) in
  if String.eqb tmp "." then defaultPath
  else if negb (path.IsAbs tmp) then "/" +:+ tmp
  else tmp.

Definition cleanPath (urlPath defaultPath : string) : string :=
  let tmp := path.Clean (gostrings.TrimSpace urlPath) in
  if String.eqb tmp "." then defaultPath
  else if negb (path.IsAbs tmp) then "/" +:+ tmp
  else tmp.

(** *** Options from the environment (envconfig.go) *)

(** What the builders read beside their arguments:
    [DefaultEnvOptionsReader], a variable of this package (the tests
    replace it), and two values declared outside the sources,
    [retry.DefaultConfig] and the result of [otel.Version()]. *)
Record Globals := mkGlobals {
  DefaultEnvOptionsReader : envconfig.EnvOptionsReader;
  retry_DefaultConfig : retry.Config;
  otel_Version : string
}.

Definition stringToProtocol (u : string) : Protocol_t :=
  let l := gostrings.ToLower u in
  if String.eqb l ExporterProtocolGrpc then ExporterProtocolGrpc
  else if String.eqb l ExporterProtocolHttpProtobuf
  then ExporterProtocolHttpProtobuf
  else if String.eqb l ExporterProtocolHttpJson
  then ExporterProtocolHttpJson
  else ExporterProtocolHttpProtobuf.

(** The callbacks assign to the local variable [protocol]. *)
Definition ApplyEnvProtocol (g : Globals) (protocol : Protocol_t)
  : Protocol_t :=
  envconfig.Apply (DefaultEnvOptionsReader g)
    [ envconfig.WithString "PROTOCOL"
        (fun s (_ : Protocol_t) => stringToProtocol s);
      envconfig.WithString "LOGS_PROTOCOL"
        (fun s (_ : Protocol_t) => stringToProtocol s) ]
    protocol.

Definition withEndpointScheme (u : URL) : GenericOption :=
  let s := gostrings.ToLower (Scheme u) in
  if String.eqb s "http" || String.eqb s "unix"
  then WithInsecure
  else WithSecure.

Definition withEndpointForGRPC (u : URL) : Config -> Config :=
  fun cfg => setLogs (setEndpoint (path.Join [Host u; Path u])) cfg.

Definition withInsecure (b : bool) : GenericOption :=
  if b then WithInsecure else WithSecure.

Definition withProtocol (b : string) : GenericOption :=
  newGenericOption (setLogs (setProtocol (stringToProtocol b))).

(** The two local variables of [getOptionsFromEnv] that its callbacks
    assign to: the slice [opts] and the configuration [tlsConf] points
    to. *)
Record envVars := mkEnvVars {
  opts : list GenericOption;
  tlsConf : tls_Config
}.

(** [opts = append(opts, o)]. *)
Definition appendOpt (o : GenericOption) (st : envVars) : envVars :=
  mkEnvVars (opts st ++ [o]) (tlsConf st).

(** [tlsConf.RootCAs = p] and [tlsConf.Certificates = []tls.Certificate{c}]. *)
Definition setRootCAs (p : CertPool) (st : envVars) : envVars :=
  mkEnvVars (opts st) (mkTLS (Some p) (Certificates (tlsConf st))).
Definition setCertificates (c : Certificate) (st : envVars) : envVars :=
  mkEnvVars (opts st) (mkTLS (RootCAs (tlsConf st)) [c]).

Definition WithEnvCompression (n : string)
  (fn : Compression_t -> envVars -> envVars)
  : envconfig.ReaderOption envVars :=
  fun e st =>
    match envconfig.GetEnvValue e n with
    | Some v =>
      let cp := if String.eqb v "gzip" then GzipCompression
                else NoCompression in
      fn cp st
    | None => st
    end.

(** [c] is a pointer: the configuration is read when the reader runs. *)
Definition withTLSConfig (c : envVars -> tls_Config)
  (fn : tls_Config -> envVars -> envVars)
  : envconfig.ReaderOption envVars :=
  fun e st =>
    let c := c st in
    if (match RootCAs c with Some _ => true | None => false end)
       || (0 <? List.length (Certificates c))
    then fn c st
    else st.

Definition getOptionsFromEnv (g : Globals) : list GenericOption :=
  let st0 := mkEnvVars [] (mkTLS None []) in
  opts (envconfig.Apply (DefaultEnvOptionsReader g)
    [ envconfig.WithURL "ENDPOINT" (fun u st =>
        let st := appendOpt (withEndpointScheme u) st in
        appendOpt
          (newSplitOption
             (fun cfg =>
                let cfg := setLogs (setEndpoint (Host u)) cfg in
                setLogs
                  (setURLPath (path.Join [Path u; DefaultLogsPath])) cfg)
             (withEndpointForGRPC u))
          st);
      envconfig.WithURL "LOGS_ENDPOINT" (fun u st =>
        let st := appendOpt (withEndpointScheme u) st in
        appendOpt
          (newSplitOption
             (fun cfg =>
                let cfg := setLogs (setEndpoint (Host u)) cfg in
                let path := Path u in
                let path := if String.eqb path "" then "/" else path in
                setLogs (setURLPath path) cfg)
             (withEndpointForGRPC u))
          st);
      envconfig.WithString "PROTOCOL"
        (fun s st => appendOpt (withProtocol s) st);
      envconfig.WithString "LOGS_PROTOCOL"
        (fun s st => appendOpt (withProtocol s) st);
      envconfig.WithCertPool "CERTIFICATE" setRootCAs;
      envconfig.WithCertPool "LOGS_CERTIFICATE" setRootCAs;
      envconfig.WithClientCert "CLIENT_CERTIFICATE" "CLIENT_KEY"
        setCertificates;
      envconfig.WithClientCert "LOGS_CLIENT_CERTIFICATE" "LOGS_CLIENT_KEY"
        setCertificates;
      withTLSConfig tlsConf
        (fun c st => appendOpt (WithTLSClientConfig (Some c)) st);
      envconfig.WithBool "INSECURE"
        (fun b st => appendOpt (withInsecure b) st);
      envconfig.WithBool "LOGS_INSECURE"
        (fun b st => appendOpt (withInsecure b) st);
      envconfig.WithHeaders "HEADERS"
        (fun h st => appendOpt (WithHeaders (Some h)) st);
      envconfig.WithHeaders "LOGS_HEADERS"
        (fun h st => appendOpt (WithHeaders (Some h)) st);
      WithEnvCompression "COMPRESSION"
        (fun c st => appendOpt (WithCompression c) st);
      WithEnvCompression "LOGS_COMPRESSION"
        (fun c st => appendOpt (WithCompression c) st);
      envconfig.WithDuration "TIMEOUT"
        (fun d st => appendOpt (WithTimeout d) st);
      envconfig.WithDuration "LOGS_TIMEOUT"
        (fun d st => appendOpt (WithTimeout d) st) ]
    st0).

(** [for _, opt := range opts { cfg = opt.ApplyHTTPOption(cfg) }]. *)
Definition ApplyHTTPEnvConfigs (g : Globals) (cfg : Config) : Config :=
  fold_left (fun cfg opt => ApplyHTTPOption opt cfg)
    (getOptionsFromEnv g) cfg.

Definition ApplyGRPCEnvConfigs (g : Globals) (cfg : Config) : Config :=
  fold_left (fun cfg opt => ApplyGRPCOption opt cfg)
    (getOptionsFromEnv g) cfg.

(** *** The builders (options.go) *)

(** [fmt.Sprintf("%s:%d", host, port)]. *)
Definition hostPort (host : string) (port : N) : string :=
  host +:+ ":" +:+ NilZero.string_of_uint (N.to_uint port).

Definition GetUserAgentHeader (g : Globals) : string :=
  "OTel OTLP Exporter Go/" +:+ otel_Version g.

(** The composite literal the builders start from; fields it leaves out
    have their zero value. *)
Definition defaultSignalConfig (port : N) : SignalConfig :=
  {| Endpoint := hostPort DefaultCollectorHost port;
     Protocol := "";
     Insecure := false;
     TLSCfg := None;
     Headers := None;
     Compression := NoCompression;
     Timeout := DefaultTimeout;
     URLPath := DefaultLogsPath;
     GRPCCredentials := None;
     HTTPClient := None |}.

Definition NewHTTPConfig (g : Globals) (opts : list HTTPOption) : Config :=
  let cfg :=
    {| Logs := defaultSignalConfig DefaultCollectorHTTPPort;
       RetryConfig := retry_DefaultConfig g;
       ReconnectionPeriod := 0%Z;
       ServiceConfig := "";
       DialOptions := [];
       GRPCConn := None |} in
  let cfg := ApplyHTTPEnvConfigs g cfg in
  let cfg := fold_left (fun cfg opt => ApplyHTTPOption opt cfg) opts cfg in
  setLogs (setURLPath (CleanPath (URLPath (Logs cfg)) DefaultLogsPath)) cfg.

(** [cfg.DialOptions = append(cfg.DialOptions, d...)]. *)
Definition appendDialOptions (d : list DialOption) (cfg : Config) :=
  setDialOptions (DialOptions cfg ++ d) cfg.

Definition NewGRPCConfig (g : Globals) (opts : list GRPCOption) : Config :=
  let cfg :=
    {| Logs := defaultSignalConfig DefaultCollectorGRPCPort;
       RetryConfig := retry_DefaultConfig g;
       ReconnectionPeriod := 0%Z;
       ServiceConfig := "";
       DialOptions := [WithUserAgent (GetUserAgentHeader g)];
       GRPCConn := None |} in
  let cfg := ApplyGRPCEnvConfigs g cfg in
  let cfg := fold_left (fun cfg opt => ApplyGRPCOption opt cfg) opts cfg in
  let cfg :=
    if negb (String.eqb (ServiceConfig cfg) "")
    then appendDialOptions
           [WithDefaultServiceConfig (ServiceConfig cfg)] cfg
    else cfg in
  let cfg :=
    match GRPCCredentials (Logs cfg) with
    | Some creds =>
      appendDialOptions [WithTransportCredentials creds] cfg
    | None =>
      if Insecure (Logs cfg)
      then appendDialOptions
             [WithTransportCredentials insecure_NewCredentials] cfg
      else
        let creds := credentials_NewTLS None in
        let cfg := setLogs (setGRPCCredentials (Some creds)) cfg in
        appendDialOptions [WithTransportCredentials creds] cfg
    end in
  let cfg :=
    match Compression (Logs cfg) with
    | GzipCompression =>
      appendDialOptions
        [WithDefaultCallOptions (UseCompressor gzip_Name)] cfg
    | NoCompression => cfg
    end in
  let cfg :=
    if negb (List.length (DialOptions cfg) =? 0)
    then appendDialOptions (DialOptions cfg) cfg
    else cfg in
  let cfg :=
    if negb (ReconnectionPeriod cfg =? 0)%Z
    then
      let p := mkConnectParams backoff_DefaultConfig
                 (ReconnectionPeriod cfg) in
      appendDialOptions [WithConnectParams p] cfg
    else cfg in
  cfg.

(** *** Helpers of options_test.go *)

Definition asHTTPOptions (opts : list GenericOption) : list HTTPOption :=
  map (fun o => NewHTTPOption (ApplyHTTPOption o)) opts.

Definition asGRPCOptions (opts : list GenericOption) : list GRPCOption :=
  map (fun o => NewGRPCOption (ApplyGRPCOption o)) opts.

End otlpconfig.

(** ** Package [otlplogshttp] (options.go): the options of the HTTP driver *)

Module otlplogshttp.
Import otlpconfig.

(** The interface [Option], implemented by [wrappedOption], which embeds an
    [otlpconfig.HTTPOption]. *)
Inductive Option := wrappedOption (o : HTTPOption).

Definition applyHTTPOption (w : Option) (cfg : Config) : Config :=
  match w with
  | wrappedOption o => ApplyHTTPOption o cfg
  end.

Definition asHTTPOptions (opts : list Option) : list HTTPOption :=
  map (fun o => NewHTTPOption (applyHTTPOption o)) opts.

Definition WithEndpoint (endpoint : string) : Option :=
  wrappedOption (otlpconfig.WithEndpoint endpoint).

Definition WithJsonProtocol : Option :=
  wrappedOption (otlpconfig.WithProtocol ExporterProtocolHttpJson).

Definition WithProtobufProtocol : Option :=
  wrappedOption (otlpconfig.WithProtocol ExporterProtocolHttpProtobuf).

Definition WithCompression (compression : Compression_t) : Option :=
  wrappedOption (otlpconfig.WithCompression compression).

Definition WithHTTPClient (c : option http_Client) : Option :=
  wrappedOption (otlpconfig.WithHTTPClient c).

Definition WithURLPath (urlPath : string) : Option :=
  wrappedOption (otlpconfig.WithURLPath urlPath).

Definition WithTLSClientConfig (tlsCfg : option tls_Config) : Option :=
  wrappedOption (otlpconfig.WithTLSClientConfig tlsCfg).

Definition WithInsecure : Option :=
  wrappedOption otlpconfig.WithInsecure.

Definition WithHeaders (headers : option (gmap string string)) : Option :=
  wrappedOption (otlpconfig.WithHeaders headers).

Definition WithTimeout (duration : Duration) : Option :=
  wrappedOption (otlpconfig.WithTimeout duration).

Definition WithRetry (rc : retry.Config) : Option :=
  wrappedOption (otlpconfig.WithRetry rc).

End otlplogshttp.

(** ** Package [otlplogs]: the exporter life cycle *)

Module otlplogs.

(** The errors of package [context], and errors that wrap another one
    ([fmt.Errorf("...: %w", err)]). *)
Inductive error :=
| context_Canceled
| context_DeadlineExceeded
| errors_New (msg : string)
| wrapError (msg : string) (err : error).

Definition error_eqb_head (a b : error) : bool :=
  match a, b with
  | context_Canceled, context_Canceled => true
  | context_DeadlineExceeded, context_DeadlineExceeded => true
  | errors_New m, errors_New n => String.eqb m n
  | _, _ => false
  end.

(** [errors.Is(err, target)] for the targets above: [err] or an error it
    wraps is the target; a nil error is none. *)
Fixpoint unwrapIs (e target : error) : bool :=
  error_eqb_head e target
  || match e with
     | wrapError _ e' => unwrapIs e' target
     | _ => false
     end.

Definition errors_Is (err : option error) (target : error) : bool :=
  match err with
  | None => false
  | Some e => unwrapIs e target
  end.

(** A [context.Context] as far as a stop operation can observe it when it
    is called: still live, already canceled, or already past its
    deadline. *)
Inductive Context := ctxLive | ctxCanceled | ctxExpired.

(** [ctx.Err()]. *)
Definition ctx_Err (ctx : Context) : option error :=
  match ctx with
  | ctxLive => None
  | ctxCanceled => Some context_Canceled
  | ctxExpired => Some context_DeadlineExceeded
  end.

(** The interface [Client], of which the sources use the method
    [Stop(ctx) error]; the client is a value of a type [C] and [Stop]
    returns the error together with the client's next state. *)
Class Client (C : Type) := Stop : Context -> C -> option error * C.

(** Modelled from the spec: the exporter is not among the sources.
    Section 4.5 gives its states, "Constructed (client attached, not yet
    stopped), Stopping (a shutdown is in flight), Stopped (terminal;
    further shutdowns are no-ops returning the original outcome or
    nil)". *)
Inductive State := Constructed | Stopping | Stopped.

Record Exporter (C : Type) := mkExporter {
  client : C;
  state : State
}.
Arguments mkExporter {C}.
Arguments client {C}.
Arguments state {C}.

(** Modelled from the spec: [NewExporter(ctx, WithClient(client))] yields
    an exporter in state Constructed with the client attached. *)
Definition NewExporter {C : Type} (ctx : Context) (c : C)
  : Exporter C * option error :=
  (mkExporter c Constructed, None).

(** Modelled from the spec: the exporter's [Shutdown] is not among the
    sources.  Section 4.5: "Shutdown(context) delegates to the underlying
    client's stop operation, passing the same cancellable/deadline-bearing
    context through unmodified.  Must return the context's error
    (deadline-exceeded or canceled) if the underlying stop did not complete
    before cancellation, and must return nil on clean completion", and
    "if the supplied context is already expired, the call returns
    immediately with a deadline/cancellation error".  Section 7: the
    cancellation is "surfaced verbatim as the context's own error, not
    wrapped or swallowed", a transport failure "as whatever the underlying
    transport client reports".  Section 6 lets the client's stop return
    "nil or an error that may wrap the context's cancellation/deadline
    error".  A stop called with a context that is already done cannot
    complete before the cancellation, so [Shutdown] then returns the
    context's error, whatever the client reports; with a live context it
    returns what the client reports.  Once stopped, "further shutdowns are
    no-ops": a call made in state Stopping or Stopped returns nil. *)
Definition Shutdown {C : Type} `{Client C} (ctx : Context) (e : Exporter C)
  : option error * Exporter C :=
  match state e with
  | Constructed =>
    let '(err, c) := Stop ctx (client e) in
    (match ctx_Err ctx with
     | Some cerr => Some cerr
     | None => err
     end,
     mkExporter c Stopped)
  | Stopping | Stopped => (None, e)
  end.

End otlplogs.

(** ** Package [otlplogstest] (client.go): the shutdown test suite *)

Module otlplogstest.
Import otlplogs.

Section Suite.
Context {C : Type} `{Client C}.

(** [t.Fatalf] when the exporter cannot be created: [None]. *)
Definition initializeExporter (c : C) : option (Exporter C) :=
  match NewExporter ctxLive c with
  | (e, None) => Some e
  | (_, Some _) => None
  end.

(** The context is [WithTimeout(Background(), time.Nanosecond)] after
    [<-ctx.Done()]: past its deadline.  The test passes ([true]) when
    [errors.Is(err, context.DeadlineExceeded)]. *)
Definition testClientStopHonorsTimeout (c : C) : bool :=
  match initializeExporter c with
  | Some e => errors_Is (fst (Shutdown ctxExpired e))
                context_DeadlineExceeded
  | None => false
  end.

(** The context is [WithCancel(Background())] after [cancel()]. *)
Definition testClientStopHonorsCancel (c : C) : bool :=
  match initializeExporter c with
  | Some e => errors_Is (fst (Shutdown ctxCanceled e)) context_Canceled
  | None => false
  end.

(** The context has a deadline one minute away: live. *)
Definition testClientStopNoError (c : C) : bool :=
  match initializeExporter c with
  | Some e =>
    match fst (Shutdown ctxLive e) with
    | None => true
    | Some _ => false
    end
  | None => false
  end.
End Suite.

End otlplogstest.

(** ** Vocabulary of the statements *)

Import otlpconfig.

(** Two strings that differ only in the case of ASCII letters. *)
Definition sameFold (s t : string) : Prop :=
  gostrings.ToLower s = gostrings.ToLower t.

(** What a variable contributes: the list [f v] when it has the value [v],
    nothing when it is not set. *)
Definition optList {A B : Type} (o : option A) (f : A -> list B) : list B :=
  match o with
  | Some v => f v
  | None => []
  end.

(** The TLS configuration the certificate variables build up: for the root
    CAs and for the client certificate, the per-signal variable if it is
    there, else the generic one. *)
Definition envTLS (e : envconfig.EnvOptionsReader) : tls_Config :=
  mkTLS
    match envconfig.GetCertPool e "LOGS_CERTIFICATE" with
    | Some p => Some p
    | None => envconfig.GetCertPool e "CERTIFICATE"
    end
    match
      envconfig.GetClientCert e "LOGS_CLIENT_CERTIFICATE" "LOGS_CLIENT_KEY"
    with
    | Some c => [c]
    | None =>
      optList (envconfig.GetClientCert e "CLIENT_CERTIFICATE" "CLIENT_KEY")
        (fun c => [c])
    end.

(** The test of [withTLSConfig]:
    [c.RootCAs != nil || len(c.Certificates) > 0]. *)
Definition hasTLS (c : tls_Config) : bool :=
  (match RootCAs c with Some _ => true | None => false end)
  || (0 <? List.length (Certificates c)).

(** The split options the two endpoint variables contribute after the
    option for the URL scheme. *)
Definition endpointOption (u : URL) : GenericOption :=
  newSplitOption
    (fun cfg =>
       setLogs (setURLPath (path.Join [Path u; DefaultLogsPath]))
         (setLogs (setEndpoint (Host u)) cfg))
    (withEndpointForGRPC u).

Definition logsEndpointOption (u : URL) : GenericOption :=
  newSplitOption
    (fun cfg =>
       setLogs (setURLPath (if String.eqb (Path u) "" then "/" else Path u))
         (setLogs (setEndpoint (Host u)) cfg))
    (withEndpointForGRPC u).

(** The compression a COMPRESSION value stands for. *)
Definition compressionOf (v : string) : Compression_t :=
  if String.eqb v "gzip" then GzipCompression else NoCompression.

(** The precedence law as a function: the explicit option, else the
    per-signal variable, else the generic variable, else a fallback. *)
Definition precedence {A : Type} (O E' E : option A) (fallback : A) : A :=
  match O with
  | Some v => v
  | None =>
    match E' with
    | Some v => v
    | None => match E with Some v => v | None => fallback end
    end
  end.

(** Whether an endpoint URL's scheme asks for an insecure connection. *)
Definition insecureScheme (u : URL) : bool :=
  let s := gostrings.ToLower (Scheme u) in
  String.eqb s "http" || String.eqb s "unix".

(** For gRPC the endpoint is the dial target [path.Join(u.Host, u.Path)]. *)
Definition grpcTarget (u : URL) : string := path.Join [Host u; Path u].

(** The HTTP path derived from the generic endpoint (the URL is a base
    URL) and from the per-signal endpoint (the URL is used as it is). *)
Definition genericURLPath (u : URL) : string :=
  path.Join [Path u; DefaultLogsPath].

Definition signalURLPath (u : URL) : string :=
  if String.eqb (Path u) "" then "/" else Path u.

(** An option that leaves the setting [P] of the logs signal alone, [ap]
    being the way options of type [O] are applied. *)
Definition keeps {O A : Type} (ap : O -> Config -> Config)
  (P : SignalConfig -> A) (o : O) : Prop :=
  forall cfg, P (Logs (ap o cfg)) = P (Logs cfg).

(** The composite literals the builders start from. *)
Definition httpDefaults (g : Globals) : Config :=
  {| Logs := defaultSignalConfig DefaultCollectorHTTPPort;
     RetryConfig := retry_DefaultConfig g;
     ReconnectionPeriod := 0%Z;
     ServiceConfig := "";
     DialOptions := [];
     GRPCConn := None |}.

Definition grpcDefaults (g : Globals) : Config :=
  {| Logs := defaultSignalConfig DefaultCollectorGRPCPort;
     RetryConfig := retry_DefaultConfig g;
     ReconnectionPeriod := 0%Z;
     ServiceConfig := "";
     DialOptions := [WithUserAgent (GetUserAgentHeader g)];
     GRPCConn := None |}.

(** The configuration a builder has reached when the defaults, the
    environment and the caller's options have been folded in, before the
    final normalisation. *)
Definition preHTTP (g : Globals) (opts : list HTTPOption) : Config :=
  fold_left (fun cfg opt => ApplyHTTPOption opt cfg) opts
    (ApplyHTTPEnvConfigs g (httpDefaults g)).

Definition preGRPC (g : Globals) (opts : list GRPCOption) : Config :=
  fold_left (fun cfg opt => ApplyGRPCOption opt cfg) opts
    (ApplyGRPCEnvConfigs g (grpcDefaults g)).

(** The dial options [NewGRPCConfig] has accumulated, starting its final
    steps from [pre] and selecting the transport credentials [creds], when
    it reaches the test [len(cfg.DialOptions) != 0]. *)
Definition dialBase (pre : Config) (creds : TransportCredentials)
  : list DialOption :=
  DialOptions pre
  ++ (if String.eqb (ServiceConfig pre) "" then []
      else [WithDefaultServiceConfig (ServiceConfig pre)])
  ++ [WithTransportCredentials creds]
  ++ match Compression (Logs pre) with
     | GzipCompression => [WithDefaultCallOptions (UseCompressor gzip_Name)]
     | NoCompression => []
     end.

(** The connection parameters appended last, for a reconnection period
    that is not zero. *)
Definition dialTail (pre : Config) : list DialOption :=
  if (ReconnectionPeriod pre =? 0)%Z then []
  else [WithConnectParams
          (mkConnectParams backoff_DefaultConfig (ReconnectionPeriod pre))].

(** The credentials the final steps select. *)
Definition selectedCredentials (pre : Config) : TransportCredentials :=
  match GRPCCredentials (Logs pre) with
  | Some c => c
  | None =>
    if Insecure (Logs pre) then insecure_NewCredentials
    else credentials_NewTLS None
  end.

(** The caller's explicit option for a setting, present or absent. *)
Definition explicit {B : Type} (W : B -> GenericOption) (O : option B)
  : list GenericOption :=
  optList O (fun v => [W v]).

(** Readers for the concrete cases: [noEnv] finds no variable; [readerOf]
    finds the URL, boolean and duration variables listed. *)
Definition noEnv : envconfig.EnvOptionsReader :=
  envconfig.mkReader (fun _ => None) (fun _ => None) (fun _ => None)
    (fun _ => None) (fun _ => None) (fun _ => None) (fun _ _ => None).

Fixpoint lookupVar {A : Type} (l : list (string * A)) (k : string)
  : option A :=
  match l with
  | [] => None
  | (n, v) :: l' => if String.eqb k n then Some v else lookupVar l' k
  end.

Definition readerOf (urls : list (string * URL))
  (bools : list (string * bool)) (durations : list (string * Duration))
  : envconfig.EnvOptionsReader :=
  envconfig.mkReader (fun _ => None) (lookupVar urls) (lookupVar bools)
    (fun _ => None) (lookupVar durations) (fun _ => None) (fun _ _ => None).

(** Process state for the concrete cases: the reader [e], a retry policy
    and a library version. *)
Definition globalsOf (e : envconfig.EnvOptionsReader) : Globals :=
  mkGlobals e
    (retry.mkConfig true (5 * Second)%Z (30 * Second)%Z (60 * Second)%Z)
    "1.0.0".

(** The precedence law for one setting [P] of the logs signal, for the HTTP
    and for the gRPC builder.  [W] builds the caller's option from a value
    of type [B], of which [val] is the value stored; [E'] and [E] read the
    per-signal and the generic variable; [l1] and [l2] are the caller's
    other options, which leave the setting alone. *)
Definition lawHTTP {A B : Type} (P : SignalConfig -> A)
  (W : B -> GenericOption) (val : B -> A)
  (E' E : envconfig.EnvOptionsReader -> option A)
  (fallback : envconfig.EnvOptionsReader -> A) : Prop :=
  forall g (l1 l2 : list HTTPOption) (O : option B),
    Forall (keeps ApplyHTTPOption P) (l1 ++ l2) ->
    P (Logs (NewHTTPConfig g (l1 ++ map HTTPOptionOf (explicit W O) ++ l2)))
    = precedence (val <$> O) (E' (DefaultEnvOptionsReader g))
        (E (DefaultEnvOptionsReader g))
        (fallback (DefaultEnvOptionsReader g)).

Definition lawGRPC {A B : Type} (P : SignalConfig -> A)
  (W : B -> GenericOption) (val : B -> A)
  (E' E : envconfig.EnvOptionsReader -> option A)
  (fallback : envconfig.EnvOptionsReader -> A) : Prop :=
  forall g (l1 l2 : list GRPCOption) (O : option B),
    Forall (keeps ApplyGRPCOption P) (l1 ++ l2) ->
    P (Logs (NewGRPCConfig g (l1 ++ map GRPCOptionOf (explicit W O) ++ l2)))
    = precedence (val <$> O) (E' (DefaultEnvOptionsReader g))
        (E (DefaultEnvOptionsReader g))
        (fallback (DefaultEnvOptionsReader g)).

(** What the endpoint variables say about security, for lack of an INSECURE
    variable: the scheme of the per-signal endpoint, else the scheme of
    the generic endpoint, else secure. *)
Definition schemeInsecure (e : envconfig.EnvOptionsReader) : bool :=
  precedence None (insecureScheme <$> envconfig.GetURL e "LOGS_ENDPOINT")
    (insecureScheme <$> envconfig.GetURL e "ENDPOINT") false.

(** The TLS configuration the environment asks for, if any. *)
Definition envTLSConfig (e : envconfig.EnvOptionsReader)
  : option tls_Config :=
  if hasTLS (envTLS e) then Some (envTLS e) else None.

(** *** The element-wise reading of [path.Clean] *)

Import path.

(** The elements of a path: the byte sequences between its slashes. *)
Fixpoint elems (l : list ascii) : list (list ascii) :=
  match l with
  | [] => [[]]
  | c :: l' =>
    if Ascii.eqb c slash then [] :: elems l'
    else
      match elems l' with
      | x :: xs => (c :: x) :: xs
      | [] => [[c]]
      end
  end.

(** The elements [.], [..] and the empty one. *)
Definition isDot (x : list ascii) : bool :=
  match x with [c] => Ascii.eqb c dot | _ => false end.
Definition isDotDot (x : list ascii) : bool :=
  match x with [c; d] => Ascii.eqb c dot && Ascii.eqb d dot | _ => false end.
Definition isEmpty (x : list ascii) : bool :=
  match x with [] => true | _ => false end.

(** One element against the stack of elements kept so far, last first. *)
Definition stepElem (rooted : bool) (st : list (list ascii))
  (x : list ascii) : list (list ascii) :=
  if isEmpty x || isDot x then st
  else if isDotDot x then
    match st with
    | y :: st' => if isDotDot y then (if rooted then st else x :: st) else st'
    | [] => if rooted then st else [x]
    end
  else x :: st.

(** The buffer for a stack, last byte first. *)
Fixpoint outOf (rooted : bool) (st : list (list ascii)) : list ascii :=
  match st with
  | [] => if rooted then [slash] else []
  | x :: st' =>
    rev x ++ (match st' with [] => [] | _ => [slash] end) ++ outOf rooted st'
  end.

(** A byte sequence without slash. *)
Definition noSlash (x : list ascii) : bool :=
  forallb (fun c => negb (Ascii.eqb c slash)) x.

(** A proper element: not empty, without slash, neither [.] nor [..]. *)
Definition normalElem (x : list ascii) : bool :=
  negb (isEmpty x) && noSlash x && negb (isDot x) && negb (isDotDot x).

(** A well-formed stack: proper elements on top of [..] elements, and no
    [..] element at all under a root. *)
Fixpoint wfStack (rooted : bool) (st : list (list ascii)) : bool :=
  match st with
  | [] => true
  | x :: st' =>
    if isDotDot x then negb rooted && forallb isDotDot st'
    else normalElem x && wfStack rooted st'
  end.

(** The value of [dotdot] for a stack: the length of the buffer up to and
    including its last [..] element. *)
Fixpoint ddMark (rooted : bool) (st : list (list ascii)) : nat :=
  match st with
  | [] => if rooted then 1 else 0
  | x :: st' =>
    if isDotDot x then List.length (outOf rooted st) else ddMark rooted st'
  end.

(** The separator the default case writes before an element. *)
Definition needSep (rooted : bool) (out : list ascii) : bool :=
  (rooted && negb (List.length out =? 1))
  || (negb rooted && negb (List.length out =? 0)).

(** The elements [Clean] keeps for a path, last first. *)
Definition cleanStack (p : list ascii) : list (list ascii) :=
  match p with
  | [] => []
  | c :: rest =>
    if Ascii.eqb c slash then fold_left (stepElem true) (elems rest) []
    else fold_left (stepElem false) (elems p) []
  end.

(** [path[0] == '/']. *)
Definition isRooted (p : list ascii) : bool :=
  match p with c :: _ => Ascii.eqb c slash | [] => false end.

(** The elements written out with slashes in between. *)
Fixpoint joinElems (es : list (list ascii)) : list ascii :=
  match es with
  | [] => []
  | x :: es' =>
    match es' with
    | [] => x
    | _ => x ++ slash :: joinElems es'
    end
  end.

(** Whether some element of a path is [..]. *)
Definition hasDotDotBytes (p : list ascii) : bool :=
  existsb isDotDot (elems p).

(** Whether a path string has a [..] element. *)
Definition hasDotDot (s : string) : bool :=
  hasDotDotBytes (list_ascii_of_string s).

(** ** Vocabulary of the further properties *)

(** The generic options that assign one setting, by the setting and the
    value assigned. *)
Inductive Setter :=
| SetEndpoint (endpoint : string)
| SetCompression (compression : Compression_t)
| SetURLPath (urlPath : string)
| SetRetry (rc : retry.Config)
| SetTLS (tlsCfg : option tls_Config)
| SetInsecure (insecure : bool)
| SetHeaders (headers : option (gmap string string))
| SetTimeout (duration : Duration)
| SetProtocol (protocol : Protocol_t)
| SetHTTPClient (c : option http_Client).

Definition optionOf (s : Setter) : GenericOption :=
  match s with
  | SetEndpoint v => WithEndpoint v
  | SetCompression v => WithCompression v
  | SetURLPath v => WithURLPath v
  | SetRetry v => WithRetry v
  | SetTLS v => WithTLSClientConfig v
  | SetInsecure v => if v then WithInsecure else WithSecure
  | SetHeaders v => WithHeaders v
  | SetTimeout v => WithTimeout v
  | SetProtocol v => WithProtocol v
  | SetHTTPClient v => WithHTTPClient v
  end.

(** The setting an option assigns, as a number. *)
Definition settingOf (s : Setter) : nat :=
  match s with
  | SetEndpoint _ => 0
  | SetCompression _ => 1
  | SetURLPath _ => 2
  | SetRetry _ => 3
  | SetTLS _ => 4
  | SetInsecure _ => 5
  | SetHeaders _ => 6
  | SetTimeout _ => 7
  | SetProtocol _ => 8
  | SetHTTPClient _ => 9
  end.

(** A reader that finds none of its variables. *)
Definition silent (e : envconfig.EnvOptionsReader) : Prop :=
  (forall n, envconfig.GetEnvValue e n = None)
  /\ (forall n, envconfig.GetURL e n = None)
  /\ (forall n, envconfig.GetBool e n = None)
  /\ (forall n, envconfig.GetHeaders e n = None)
  /\ (forall n, envconfig.GetDuration e n = None)
  /\ (forall n, envconfig.GetCertPool e n = None)
  /\ (forall n k, envconfig.GetClientCert e n k = None).

(** An option that leaves the part [Q] of the configuration alone. *)
Definition keepsCfg {O A : Type} (ap : O -> Config -> Config)
  (Q : Config -> A) (o : O) : Prop :=
  forall cfg, Q (ap o cfg) = Q cfg.

(** The parts of a configuration that no environment variable assigns. *)
Definition beyondEnv (cfg : Config)
  : retry.Config * Duration * string * list DialOption
    * option grpc_ClientConn * option http_Client :=
  (RetryConfig cfg, ReconnectionPeriod cfg, ServiceConfig cfg,
   DialOptions cfg, GRPCConn cfg, HTTPClient (Logs cfg)).

(** Whether a byte sequence starts with a white-space rune, and whether
    its mirror image does. *)
Definition startsSpace (s : list ascii) : bool :=
  match s with
  | [] => false
  | b1 :: s1 =>
    gostrings.asciiSpace b1
    || match s1 with
       | [] => false
       | b2 :: s2 =>
         gostrings.space2 b1 b2
         || match s2 with
            | [] => false
            | b3 :: _ => gostrings.space3 b1 b2 b3
            end
       end
  end.

Definition startsSpaceRev (s : list ascii) : bool :=
  match s with
  | [] => false
  | b1 :: s1 =>
    gostrings.asciiSpace b1
    || match s1 with
       | [] => false
       | b2 :: s2 =>
         gostrings.space2 b2 b1
         || match s2 with
            | [] => false
            | b3 :: _ => gostrings.space3 b3 b2 b1
            end
       end
  end.

(** A string of ASCII white space only. *)
Definition allSpace (s : string) : bool :=
  forallb gostrings.asciiSpace (list_ascii_of_string s).

(** The option a public option of the HTTP driver wraps. *)
Definition wrapped (w : otlplogshttp.Option) : HTTPOption :=
  match w with otlplogshttp.wrappedOption o => o end.

(* ================================================================== *)
(** * Part II. Properties *)
(* ================================================================== *)

(** ** Protocol names and endpoint schemes *)

Lemma lowerByte_idem (c : ascii) :
  gostrings.lowerByte (gostrings.lowerByte c) = gostrings.lowerByte c.
Proof.
  destruct c as [[] [] [] [] [] [] [] []]; vm_compute; reflexivity.
Qed.

Lemma ToLower_idem (s : string) :
  gostrings.ToLower (gostrings.ToLower s) = gostrings.ToLower s.
Proof.
  induction s as [|c s IH]; simpl; [reflexivity|].
  rewrite lowerByte_idem, IH. reflexivity.
Qed.

(** C8. Parsing of the PROTOCOL / LOGS_PROTOCOL value: it is insensitive to
    letter case; the lower-cased value [grpc], [http/protobuf] or [http/json]
    gives that protocol; every other value gives [http/protobuf]; and the
    environment option built from the value stores exactly this protocol in
    the configuration, for either driver. *)
Theorem stringToProtocol_spec :
  (forall s t, sameFold s t -> stringToProtocol s = stringToProtocol t)
  /\ (forall s, sameFold s "grpc" ->
        stringToProtocol s = ExporterProtocolGrpc)
  /\ (forall s, sameFold s "http/protobuf" ->
        stringToProtocol s = ExporterProtocolHttpProtobuf)
  /\ (forall s, sameFold s "http/json" ->
        stringToProtocol s = ExporterProtocolHttpJson)
  /\ (forall s, ~ sameFold s "grpc" -> ~ sameFold s "http/protobuf" ->
        ~ sameFold s "http/json" ->
        stringToProtocol s = ExporterProtocolHttpProtobuf)
  /\ (forall s cfg,
        Protocol (Logs (ApplyHTTPOption (withProtocol s) cfg))
        = stringToProtocol s
        /\ Protocol (Logs (ApplyGRPCOption (withProtocol s) cfg))
           = stringToProtocol s)
  /\ (forall g p,
        let e := DefaultEnvOptionsReader g in
        ApplyEnvProtocol g p
        = precedence None
            (stringToProtocol <$> envconfig.GetEnvValue e "LOGS_PROTOCOL")
            (stringToProtocol <$> envconfig.GetEnvValue e "PROTOCOL") p).
Proof.
  assert (Henv : forall g p,
             let e := DefaultEnvOptionsReader g in
             ApplyEnvProtocol g p
             = precedence None
                 (stringToProtocol
                  <$> envconfig.GetEnvValue e "LOGS_PROTOCOL")
                 (stringToProtocol <$> envconfig.GetEnvValue e "PROTOCOL")
                 p).
  { intros g p e. unfold ApplyEnvProtocol, envconfig.Apply,
      envconfig.WithString, envconfig.withValue. fold e. simpl.
    destruct (envconfig.GetEnvValue e "PROTOCOL"),
      (envconfig.GetEnvValue e "LOGS_PROTOCOL"); reflexivity. }
  split; [|split; [|split; [|split; [|split; [|split]]]]];
    [| | | | | |exact Henv]; clear Henv;
    unfold sameFold, stringToProtocol.
  - intros s t E. rewrite E. reflexivity.
  - intros s E. rewrite E. reflexivity.
  - intros s E. rewrite E. reflexivity.
  - intros s E. rewrite E. reflexivity.
  - intros s H1 H2 H3.
    change (gostrings.ToLower "grpc") with ExporterProtocolGrpc in H1.
    change (gostrings.ToLower "http/protobuf")
      with ExporterProtocolHttpProtobuf in H2.
    change (gostrings.ToLower "http/json") with ExporterProtocolHttpJson in H3.
    apply String.eqb_neq in H1, H2, H3.
    rewrite H1, H2, H3. reflexivity.
  - intros s cfg. split; reflexivity.
Qed.

(** At mixed-case spellings and at an unknown name. *)
Lemma stringToProtocol_spec_witness :
  stringToProtocol "GrPc" = ExporterProtocolGrpc
  /\ stringToProtocol "HTTP/Json" = ExporterProtocolHttpJson
  /\ stringToProtocol "thrift" = ExporterProtocolHttpProtobuf.
Proof.
  destruct stringToProtocol_spec as (_ & Hg & _ & Hj & Hd & _).
  split; [|split].
  - apply Hg. reflexivity.
  - apply Hj. reflexivity.
  - apply Hd; unfold sameFold; vm_compute; discriminate.
Defined.

(** ** The options read from the environment, variable by variable *)

Section EnvChunks.
Import envconfig.

Lemma step_emit1 {A : Type} (get : EnvOptionsReader -> option A)
    (h : A -> GenericOption) e os tc :
  withValue get (fun v st => appendOpt (h v) st) e (mkEnvVars os tc)
  = mkEnvVars (os ++ optList (get e) (fun v => [h v])) tc.
Proof.
  unfold withValue, optList. destruct (get e); simpl.
  - reflexivity.
  - rewrite app_nil_r. reflexivity.
Qed.

Lemma step_emit2 {A : Type} (get : EnvOptionsReader -> option A)
    (h1 h2 : A -> GenericOption) e os tc :
  withValue get (fun v st => appendOpt (h2 v) (appendOpt (h1 v) st)) e
    (mkEnvVars os tc)
  = mkEnvVars (os ++ optList (get e) (fun v => [h1 v; h2 v])) tc.
Proof.
  unfold withValue, optList. destruct (get e); simpl.
  - unfold appendOpt; simpl. rewrite <- app_assoc. reflexivity.
  - rewrite app_nil_r. reflexivity.
Qed.

Lemma step_compression n (h : Compression_t -> GenericOption) e os tc :
  WithEnvCompression n (fun c st => appendOpt (h c) st) e (mkEnvVars os tc)
  = mkEnvVars
      (os ++ optList (GetEnvValue e n) (fun v => [h (compressionOf v)])) tc.
Proof.
  unfold WithEnvCompression, optList, compressionOf.
  destruct (GetEnvValue e n); simpl.
  - reflexivity.
  - rewrite app_nil_r. reflexivity.
Qed.

Lemma step_root (get : EnvOptionsReader -> option CertPool) e os r cs :
  withValue get setRootCAs e (mkEnvVars os (mkTLS r cs))
  = mkEnvVars os
      (mkTLS match get e with Some p => Some p | None => r end cs).
Proof. unfold withValue. destruct (get e); reflexivity. Qed.

Lemma step_cert (get : EnvOptionsReader -> option Certificate) e os r cs :
  withValue get setCertificates e (mkEnvVars os (mkTLS r cs))
  = mkEnvVars os
      (mkTLS r match get e with Some c => [c] | None => cs end).
Proof. unfold withValue. destruct (get e); reflexivity. Qed.

Lemma step_tls (h : tls_Config -> GenericOption) e os tc :
  withTLSConfig tlsConf (fun c st => appendOpt (h c) st) e
    (mkEnvVars os tc)
  = mkEnvVars (os ++ if hasTLS tc then [h tc] else []) tc.
Proof.
  unfold withTLSConfig, hasTLS. simpl.
  destruct (_ || _); simpl.
  - reflexivity.
  - rewrite app_nil_r. reflexivity.
Qed.

(** [getOptionsFromEnv] as the concatenation of what each variable
    contributes, in the order of the source. *)
Lemma getOptionsFromEnv_chunks (g : Globals) :
  let e := DefaultEnvOptionsReader g in
  getOptionsFromEnv g =
    optList (GetURL e "ENDPOINT")
      (fun u => [withEndpointScheme u; endpointOption u])
    ++ optList (GetURL e "LOGS_ENDPOINT")
         (fun u => [withEndpointScheme u; logsEndpointOption u])
    ++ optList (GetEnvValue e "PROTOCOL") (fun s => [withProtocol s])
    ++ optList (GetEnvValue e "LOGS_PROTOCOL") (fun s => [withProtocol s])
    ++ (if hasTLS (envTLS e)
        then [WithTLSClientConfig (Some (envTLS e))] else [])
    ++ optList (GetBool e "INSECURE") (fun b => [withInsecure b])
    ++ optList (GetBool e "LOGS_INSECURE") (fun b => [withInsecure b])
    ++ optList (GetHeaders e "HEADERS")
         (fun h => [otlpconfig.WithHeaders (Some h)])
    ++ optList (GetHeaders e "LOGS_HEADERS")
         (fun h => [otlpconfig.WithHeaders (Some h)])
    ++ optList (GetEnvValue e "COMPRESSION")
         (fun v => [WithCompression (compressionOf v)])
    ++ optList (GetEnvValue e "LOGS_COMPRESSION")
         (fun v => [WithCompression (compressionOf v)])
    ++ optList (GetDuration e "TIMEOUT") (fun d => [WithTimeout d])
    ++ optList (GetDuration e "LOGS_TIMEOUT") (fun d => [WithTimeout d]).
Proof.
  intros e. unfold getOptionsFromEnv, Apply. fold e.
  cbn [fold_left].
  unfold WithURL, WithString, WithBool, WithHeaders, WithDuration,
    WithCertPool, WithClientCert.
  cbv zeta.
  rewrite (step_emit2 (fun e => GetURL e "ENDPOINT")).
  rewrite (step_emit2 (fun e => GetURL e "LOGS_ENDPOINT")).
  rewrite (step_emit1 (fun e => GetEnvValue e "PROTOCOL")).
  rewrite (step_emit1 (fun e => GetEnvValue e "LOGS_PROTOCOL")).
  rewrite !step_root, !step_cert.
  rewrite step_tls.
  rewrite (step_emit1 (fun e => GetBool e "INSECURE")).
  rewrite (step_emit1 (fun e => GetBool e "LOGS_INSECURE")).
  rewrite (step_emit1 (fun e => GetHeaders e "HEADERS")).
  rewrite (step_emit1 (fun e => GetHeaders e "LOGS_HEADERS")).
  rewrite !step_compression.
  rewrite (step_emit1 (fun e => GetDuration e "TIMEOUT")).
  rewrite (step_emit1 (fun e => GetDuration e "LOGS_TIMEOUT")).
  cbn [opts app].
  repeat rewrite <- app_assoc.
  replace (mkTLS _ _) with (envTLS e).
  - reflexivity.
  - unfold envTLS, optList.
    destruct (GetCertPool e "LOGS_CERTIFICATE"),
      (GetCertPool e "CERTIFICATE"),
      (GetClientCert e "LOGS_CLIENT_CERTIFICATE" "LOGS_CLIENT_KEY"),
      (GetClientCert e "CLIENT_CERTIFICATE" "CLIENT_KEY"); reflexivity.
Qed.
End EnvChunks.

(** ** Folding options over a configuration *)

Section FoldFacts.
Context {O : Type} (ap : O -> Config -> Config).
Context {A : Type} (P : SignalConfig -> A).

Lemma fold_keeps (l : list O) (cfg : Config) :
  Forall (keeps ap P) l ->
  P (Logs (fold_left (fun c o => ap o c) l cfg)) = P (Logs cfg).
Proof.
  intros H. revert cfg.
  induction H as [|o l Ho _ IH]; intros cfg; simpl.
  - reflexivity.
  - rewrite IH. apply Ho.
Qed.

Lemma fold_optList_keeps {B : Type} (o : option B) (f : B -> list O) cfg :
  (forall v, Forall (keeps ap P) (f v)) ->
  P (Logs (fold_left (fun c o => ap o c) (optList o f) cfg)) = P (Logs cfg).
Proof.
  intros H. apply fold_keeps. destruct o; simpl; [apply H | constructor].
Qed.

Lemma fold_if_keeps (b : bool) (l : list O) cfg :
  Forall (keeps ap P) l ->
  P (Logs (fold_left (fun c o => ap o c) (if b then l else []) cfg))
  = P (Logs cfg).
Proof.
  intros H. apply fold_keeps. destruct b; [apply H | constructor].
Qed.

Lemma fold_optList_sets {B : Type} (h : B -> A) (o : option B)
    (f : B -> list O) cfg :
  (forall v cfg, P (Logs (fold_left (fun c o => ap o c) (f v) cfg)) = h v) ->
  P (Logs (fold_left (fun c o => ap o c) (optList o f) cfg))
  = match o with Some v => h v | None => P (Logs cfg) end.
Proof.
  intros H. destruct o; simpl; [apply H | reflexivity].
Qed.

Lemma fold_if_sets (v : A) (b : bool) (l : list O) cfg :
  (forall cfg, P (Logs (fold_left (fun c o => ap o c) l cfg)) = v) ->
  P (Logs (fold_left (fun c o => ap o c) (if b then l else []) cfg))
  = if b then v else P (Logs cfg).
Proof.
  intros H. destruct b; simpl; [apply H | reflexivity].
Qed.

Lemma fold_set_then_keep (v : A) (o : O) (l1 l2 : list O) cfg :
  (forall cfg, P (Logs (ap o cfg)) = v) ->
  Forall (keeps ap P) l2 ->
  P (Logs (fold_left (fun c o => ap o c) (l1 ++ o :: l2) cfg)) = v.
Proof.
  intros Ho H2. rewrite fold_left_app. simpl.
  rewrite fold_keeps by assumption. apply Ho.
Qed.
End FoldFacts.

Lemma withEndpointScheme_HTTP u cfg :
  ApplyHTTPOption (withEndpointScheme u) cfg
  = setLogs (setInsecure (insecureScheme u)) cfg.
Proof.
  unfold withEndpointScheme, insecureScheme.
  destruct (_ || _); reflexivity.
Qed.

Lemma withEndpointScheme_GRPC u cfg :
  ApplyGRPCOption (withEndpointScheme u) cfg
  = setLogs (setInsecure (insecureScheme u)) cfg.
Proof.
  unfold withEndpointScheme, insecureScheme.
  destruct (_ || _); reflexivity.
Qed.

Lemma withInsecure_HTTP b cfg :
  ApplyHTTPOption (withInsecure b) cfg = setLogs (setInsecure b) cfg.
Proof. destruct b; reflexivity. Qed.

Lemma withInsecure_GRPC b cfg :
  ApplyGRPCOption (withInsecure b) cfg = setLogs (setInsecure b) cfg.
Proof. destruct b; reflexivity. Qed.

(** Side conditions of the form "these environment options keep [P]". *)
Ltac keeps_tac :=
  intros; repeat constructor; unfold keeps; intros;
  rewrite ?withEndpointScheme_HTTP, ?withEndpointScheme_GRPC,
    ?withInsecure_HTTP, ?withInsecure_GRPC;
  reflexivity.

Ltac sets_tac :=
  intros; cbn [fold_left];
  rewrite ?withEndpointScheme_HTTP, ?withEndpointScheme_GRPC,
    ?withInsecure_HTTP, ?withInsecure_GRPC;
  reflexivity.

Ltac env_start :=
  intros;
  unfold ApplyHTTPEnvConfigs, ApplyGRPCEnvConfigs;
  rewrite getOptionsFromEnv_chunks; cbv zeta;
  rewrite !fold_left_app.

Ltac env_skip :=
  repeat first
    [ rewrite fold_optList_keeps by keeps_tac
    | rewrite fold_if_keeps by keeps_tac ].

Ltac env_set h := rewrite (fold_optList_sets _ _ h) by sets_tac.

(** What the environment layer does to each setting of the logs signal. *)
Section EnvSettings.
Import envconfig.
Variable g : Globals.
Let e := DefaultEnvOptionsReader g.

Lemma env_Timeout_HTTP cfg :
  Timeout (Logs (ApplyHTTPEnvConfigs g cfg))
  = precedence None (GetDuration e "LOGS_TIMEOUT")
      (GetDuration e "TIMEOUT") (Timeout (Logs cfg)).
Proof.
  env_start. env_skip.
  env_set (fun d : Duration => d).
  destruct (GetDuration _ "LOGS_TIMEOUT"); [reflexivity|].
  env_set (fun d : Duration => d).
  destruct (GetDuration _ "TIMEOUT"); [reflexivity|].
  env_skip. reflexivity.
Qed.

Lemma env_Timeout_GRPC cfg :
  Timeout (Logs (ApplyGRPCEnvConfigs g cfg))
  = precedence None (GetDuration e "LOGS_TIMEOUT")
      (GetDuration e "TIMEOUT") (Timeout (Logs cfg)).
Proof.
  env_start. env_skip.
  env_set (fun d : Duration => d).
  destruct (GetDuration _ "LOGS_TIMEOUT"); [reflexivity|].
  env_set (fun d : Duration => d).
  destruct (GetDuration _ "TIMEOUT"); [reflexivity|].
  env_skip. reflexivity.
Qed.

Lemma env_Compression_HTTP cfg :
  Compression (Logs (ApplyHTTPEnvConfigs g cfg))
  = precedence None (compressionOf <$> GetEnvValue e "LOGS_COMPRESSION")
      (compressionOf <$> GetEnvValue e "COMPRESSION")
      (Compression (Logs cfg)).
Proof.
  env_start. env_skip.
  env_set compressionOf.
  destruct (GetEnvValue _ "LOGS_COMPRESSION"); [reflexivity|].
  env_set compressionOf.
  destruct (GetEnvValue _ "COMPRESSION"); [reflexivity|].
  env_skip. reflexivity.
Qed.

Lemma env_Compression_GRPC cfg :
  Compression (Logs (ApplyGRPCEnvConfigs g cfg))
  = precedence None (compressionOf <$> GetEnvValue e "LOGS_COMPRESSION")
      (compressionOf <$> GetEnvValue e "COMPRESSION")
      (Compression (Logs cfg)).
Proof.
  env_start. env_skip.
  env_set compressionOf.
  destruct (GetEnvValue _ "LOGS_COMPRESSION"); [reflexivity|].
  env_set compressionOf.
  destruct (GetEnvValue _ "COMPRESSION"); [reflexivity|].
  env_skip. reflexivity.
Qed.

Lemma env_Headers_HTTP cfg :
  Headers (Logs (ApplyHTTPEnvConfigs g cfg))
  = precedence None (Some <$> GetHeaders e "LOGS_HEADERS")
      (Some <$> GetHeaders e "HEADERS") (Headers (Logs cfg)).
Proof.
  env_start. env_skip.
  env_set (@Some (gmap string string)).
  destruct (GetHeaders _ "LOGS_HEADERS"); [reflexivity|].
  env_set (@Some (gmap string string)).
  destruct (GetHeaders _ "HEADERS"); [reflexivity|].
  env_skip. reflexivity.
Qed.

Lemma env_Headers_GRPC cfg :
  Headers (Logs (ApplyGRPCEnvConfigs g cfg))
  = precedence None (Some <$> GetHeaders e "LOGS_HEADERS")
      (Some <$> GetHeaders e "HEADERS") (Headers (Logs cfg)).
Proof.
  env_start. env_skip.
  env_set (@Some (gmap string string)).
  destruct (GetHeaders _ "LOGS_HEADERS"); [reflexivity|].
  env_set (@Some (gmap string string)).
  destruct (GetHeaders _ "HEADERS"); [reflexivity|].
  env_skip. reflexivity.
Qed.

Lemma env_Endpoint_HTTP cfg :
  Endpoint (Logs (ApplyHTTPEnvConfigs g cfg))
  = precedence None (Host <$> GetURL e "LOGS_ENDPOINT")
      (Host <$> GetURL e "ENDPOINT") (Endpoint (Logs cfg)).
Proof.
  env_start. env_skip.
  env_set Host.
  destruct (GetURL _ "LOGS_ENDPOINT"); [reflexivity|].
  env_set Host.
  destruct (GetURL _ "ENDPOINT"); reflexivity.
Qed.

Lemma env_Endpoint_GRPC cfg :
  Endpoint (Logs (ApplyGRPCEnvConfigs g cfg))
  = precedence None (grpcTarget <$> GetURL e "LOGS_ENDPOINT")
      (grpcTarget <$> GetURL e "ENDPOINT") (Endpoint (Logs cfg)).
Proof.
  env_start. env_skip.
  env_set grpcTarget.
  destruct (GetURL _ "LOGS_ENDPOINT"); [reflexivity|].
  env_set grpcTarget.
  destruct (GetURL _ "ENDPOINT"); reflexivity.
Qed.

(** The insecure flag is written by four variables: the two endpoint
    variables (through the URL scheme) and, after them, the two INSECURE
    variables. *)
Lemma env_Insecure_HTTP cfg :
  Insecure (Logs (ApplyHTTPEnvConfigs g cfg))
  = precedence None (GetBool e "LOGS_INSECURE") (GetBool e "INSECURE")
      (precedence None (insecureScheme <$> GetURL e "LOGS_ENDPOINT")
         (insecureScheme <$> GetURL e "ENDPOINT") (Insecure (Logs cfg))).
Proof.
  env_start. env_skip.
  env_set (fun b : bool => b).
  destruct (GetBool _ "LOGS_INSECURE"); [reflexivity|].
  env_set (fun b : bool => b).
  destruct (GetBool _ "INSECURE"); [reflexivity|].
  env_skip.
  env_set insecureScheme.
  destruct (GetURL _ "LOGS_ENDPOINT"); [reflexivity|].
  env_set insecureScheme.
  destruct (GetURL _ "ENDPOINT"); reflexivity.
Qed.

Lemma env_Insecure_GRPC cfg :
  Insecure (Logs (ApplyGRPCEnvConfigs g cfg))
  = precedence None (GetBool e "LOGS_INSECURE") (GetBool e "INSECURE")
      (precedence None (insecureScheme <$> GetURL e "LOGS_ENDPOINT")
         (insecureScheme <$> GetURL e "ENDPOINT") (Insecure (Logs cfg))).
Proof.
  env_start. env_skip.
  env_set (fun b : bool => b).
  destruct (GetBool _ "LOGS_INSECURE"); [reflexivity|].
  env_set (fun b : bool => b).
  destruct (GetBool _ "INSECURE"); [reflexivity|].
  env_skip.
  env_set insecureScheme.
  destruct (GetURL _ "LOGS_ENDPOINT"); [reflexivity|].
  env_set insecureScheme.
  destruct (GetURL _ "ENDPOINT"); reflexivity.
Qed.

Lemma env_TLSCfg_HTTP cfg :
  TLSCfg (Logs (ApplyHTTPEnvConfigs g cfg))
  = if hasTLS (envTLS e) then Some (envTLS e) else TLSCfg (Logs cfg).
Proof.
  env_start. env_skip.
  rewrite (fold_if_sets _ _ (Some (envTLS e))) by sets_tac.
  destruct (hasTLS _); [reflexivity|].
  env_skip. reflexivity.
Qed.

Lemma env_GRPCCredentials_GRPC cfg :
  GRPCCredentials (Logs (ApplyGRPCEnvConfigs g cfg))
  = if hasTLS (envTLS e)
    then Some (credentials_NewTLS (Some (envTLS e)))
    else GRPCCredentials (Logs cfg).
Proof.
  env_start. env_skip.
  rewrite (fold_if_sets _ _ (Some (credentials_NewTLS (Some (envTLS e)))))
    by sets_tac.
  destruct (hasTLS _); [reflexivity|].
  env_skip. reflexivity.
Qed.

Lemma env_URLPath_HTTP cfg :
  URLPath (Logs (ApplyHTTPEnvConfigs g cfg))
  = precedence None (signalURLPath <$> GetURL e "LOGS_ENDPOINT")
      (genericURLPath <$> GetURL e "ENDPOINT") (URLPath (Logs cfg)).
Proof.
  env_start. env_skip.
  env_set signalURLPath.
  destruct (GetURL _ "LOGS_ENDPOINT"); [reflexivity|].
  env_set genericURLPath.
  destruct (GetURL _ "ENDPOINT"); reflexivity.
Qed.

Lemma env_URLPath_GRPC cfg :
  URLPath (Logs (ApplyGRPCEnvConfigs g cfg)) = URLPath (Logs cfg).
Proof. env_start. env_skip. reflexivity. Qed.

Lemma env_Protocol_HTTP cfg :
  Protocol (Logs (ApplyHTTPEnvConfigs g cfg))
  = precedence None (stringToProtocol <$> GetEnvValue e "LOGS_PROTOCOL")
      (stringToProtocol <$> GetEnvValue e "PROTOCOL") (Protocol (Logs cfg)).
Proof.
  env_start. env_skip.
  env_set stringToProtocol.
  destruct (GetEnvValue _ "LOGS_PROTOCOL"); [reflexivity|].
  env_set stringToProtocol.
  destruct (GetEnvValue _ "PROTOCOL"); [reflexivity|].
  env_skip. reflexivity.
Qed.
End EnvSettings.

(** ** The final steps of the builders *)

Lemma NewHTTPConfig_pre g opts :
  NewHTTPConfig g opts
  = setLogs (setURLPath (CleanPath (URLPath (Logs (preHTTP g opts)))
                           DefaultLogsPath))
      (preHTTP g opts).
Proof. reflexivity. Qed.

Lemma NewGRPCConfig_Logs g opts :
  Logs (NewGRPCConfig g opts)
  = setGRPCCredentials
      match GRPCCredentials (Logs (preGRPC g opts)) with
      | Some c => Some c
      | None =>
        if Insecure (Logs (preGRPC g opts)) then None
        else Some (credentials_NewTLS None)
      end
      (Logs (preGRPC g opts)).
Proof.
  unfold NewGRPCConfig.
  change (fold_left (fun cfg opt => ApplyGRPCOption opt cfg) opts _)
    with (preGRPC g opts).
  generalize (preGRPC g opts) as pre. intros pre. cbv zeta.
  destruct pre as [[ep pr ins tl hd cp tm up gc hc] rc rp sc dl cn]; simpl.
  destruct (String.eqb sc ""), gc as [c|], ins, cp; simpl;
    repeat match goal with
           | |- context [negb (?n =? 0)] => destruct (n =? 0); simpl
           | |- context [negb (?n =? 0)%Z] => destruct (n =? 0)%Z; simpl
           end; reflexivity.
Qed.

Lemma length_dialBase_pos pre c : (List.length (dialBase pre c) =? 0) = false.
Proof.
  unfold dialBase. rewrite !length_app. simpl.
  apply Nat.eqb_neq. lia.
Qed.

Lemma NewGRPCConfig_DialOptions g opts :
  let pre := preGRPC g opts in
  let base := dialBase pre (selectedCredentials pre) in
  DialOptions (NewGRPCConfig g opts) = base ++ base ++ dialTail pre.
Proof.
  unfold NewGRPCConfig.
  change (fold_left (fun cfg opt => ApplyGRPCOption opt cfg) opts _)
    with (preGRPC g opts).
  generalize (preGRPC g opts) as pre. intros pre. cbv zeta.
  pose proof (length_dialBase_pos pre (selectedCredentials pre)) as Hlen.
  revert Hlen. unfold dialBase, dialTail, selectedCredentials.
  destruct pre as [[ep pr ins tl hd cp tm up gc hc] rc rp sc dl cn]; simpl.
  destruct (String.eqb sc ""), gc as [c|], ins, cp; simpl; intros Hlen;
    unfold appendDialOptions; simpl;
    repeat (progress (rewrite <- ?app_assoc; simpl));
    rewrite ?Hlen; simpl;
    destruct (rp =? 0)%Z; simpl;
    repeat (progress (rewrite <- ?app_assoc, ?app_nil_r; simpl));
    reflexivity.
Qed.

(** C2 (the code departs from it). Whatever the environment and the option
    list, the dial options of the configuration [NewGRPCConfig] returns are
    a non-empty list [base] followed by the same list again (and then by the
    connection parameters, if any): every dial option accumulated so far is
    in the result twice, not once. *)
Theorem NewGRPCConfig_doubles_dial_options :
  forall g opts,
    exists base,
      base <> []
      /\ incl (DialOptions (preGRPC g opts)) base
      /\ DialOptions (NewGRPCConfig g opts)
         = base ++ base ++ dialTail (preGRPC g opts).
Proof.
  intros g opts.
  exists (dialBase (preGRPC g opts) (selectedCredentials (preGRPC g opts))).
  split; [|split].
  - intros E. pose proof (length_dialBase_pos (preGRPC g opts)
                            (selectedCredentials (preGRPC g opts))) as H.
    rewrite E in H. discriminate.
  - unfold dialBase. apply incl_appl, incl_refl.
  - apply NewGRPCConfig_DialOptions.
Qed.

(** C2 at the smallest input, no variable set and no option given: the
    user-agent option and the credentials option both appear twice. *)
Example NewGRPCConfig_default_dial_options :
  DialOptions (NewGRPCConfig (globalsOf noEnv) [])
  = [ WithUserAgent "OTel OTLP Exporter Go/1.0.0";
      WithTransportCredentials (credentials_NewTLS None);
      WithUserAgent "OTel OTLP Exporter Go/1.0.0";
      WithTransportCredentials (credentials_NewTLS None) ].
Proof. vm_compute. reflexivity. Qed.

(** C6. Credentials of the gRPC configuration.  With [pre] the
    configuration reached before the final steps: if [pre] carries explicit
    transport credentials [c] they are kept and the credentials dial option
    appended is the one for [c], whether or not the insecure flag is set;
    if it carries none and the insecure flag is set, the dial option is the
    one for the insecure credentials; if neither is set, the credentials are
    TLS with a nil configuration (the host's root CAs), stored in the result
    and used for the dial option.  In each case the dial options are exactly
    those of [dialBase] for the selected credentials, twice, so no other
    credentials option is added. *)
Theorem NewGRPCConfig_credentials :
  forall g opts,
    let pre := preGRPC g opts in
    let cfg := NewGRPCConfig g opts in
    (forall c, GRPCCredentials (Logs pre) = Some c ->
       GRPCCredentials (Logs cfg) = Some c
       /\ DialOptions cfg = dialBase pre c ++ dialBase pre c ++ dialTail pre)
    /\ (GRPCCredentials (Logs pre) = None -> Insecure (Logs pre) = true ->
        GRPCCredentials (Logs cfg) = None
        /\ DialOptions cfg
           = dialBase pre insecure_NewCredentials
             ++ dialBase pre insecure_NewCredentials ++ dialTail pre)
    /\ (GRPCCredentials (Logs pre) = None -> Insecure (Logs pre) = false ->
        GRPCCredentials (Logs cfg) = Some (credentials_NewTLS None)
        /\ DialOptions cfg
           = dialBase pre (credentials_NewTLS None)
             ++ dialBase pre (credentials_NewTLS None) ++ dialTail pre).
Proof.
  intros g opts pre cfg. subst pre cfg.
  rewrite NewGRPCConfig_Logs, NewGRPCConfig_DialOptions.
  unfold selectedCredentials.
  split; [|split].
  - intros c ->. split; reflexivity.
  - intros -> ->. split; reflexivity.
  - intros -> ->. split; reflexivity.
Qed.

Lemma NewGRPCConfig_credentials_witness :
  let t := mkTLS (Some "root-ca.pem") [] in
  let g := globalsOf noEnv in
  let opts := [GRPCOptionOf (WithTLSClientConfig (Some t));
               GRPCOptionOf WithInsecure] in
  Insecure (Logs (preGRPC g opts)) = true
  /\ GRPCCredentials (Logs (NewGRPCConfig g opts))
     = Some (credentials_NewTLS (Some t))
  /\ In (WithTransportCredentials (credentials_NewTLS (Some t)))
       (DialOptions (NewGRPCConfig g opts))
  /\ ~ In (WithTransportCredentials insecure_NewCredentials)
         (DialOptions (NewGRPCConfig g opts)).
Proof.
  intros t g opts.
  destruct (NewGRPCConfig_credentials g opts) as (H & _ & _).
  destruct (H (credentials_NewTLS (Some t)) eq_refl) as (Hc & Hd).
  split; [reflexivity|]. split; [exact Hc|].
  rewrite Hd. split.
  - vm_compute. tauto.
  - vm_compute. intros [E|[E|[E|[E|[]]]]]; discriminate E.
Defined.

(** ** Settings before and after the final steps *)

Section PreSettings.
Context {A : Type} (P : SignalConfig -> A).

Lemma preHTTP_keeps g (opts : list HTTPOption) :
  Forall (keeps ApplyHTTPOption P) opts ->
  P (Logs (preHTTP g opts))
  = P (Logs (ApplyHTTPEnvConfigs g (httpDefaults g))).
Proof. intros H. unfold preHTTP. apply (fold_keeps ApplyHTTPOption P), H. Qed.

Lemma preGRPC_keeps g (opts : list GRPCOption) :
  Forall (keeps ApplyGRPCOption P) opts ->
  P (Logs (preGRPC g opts))
  = P (Logs (ApplyGRPCEnvConfigs g (grpcDefaults g))).
Proof. intros H. unfold preGRPC. apply (fold_keeps ApplyGRPCOption P), H. Qed.

Lemma preHTTP_explicit {B : Type} (W : B -> GenericOption) (val : B -> A)
    g (l1 l2 : list HTTPOption) (O : option B) :
  (forall v cfg, P (Logs (ApplyHTTPOption (W v) cfg)) = val v) ->
  Forall (keeps ApplyHTTPOption P) (l1 ++ l2) ->
  P (Logs (preHTTP g (l1 ++ map HTTPOptionOf (explicit W O) ++ l2)))
  = match O with
    | Some v => val v
    | None => P (Logs (ApplyHTTPEnvConfigs g (httpDefaults g)))
    end.
Proof.
  intros HW Hk. apply Forall_app in Hk as [H1 H2].
  destruct O as [v|]; simpl.
  - unfold preHTTP.
    apply (fold_set_then_keep ApplyHTTPOption P); [|exact H2].
    intros cfg. apply HW.
  - apply preHTTP_keeps, Forall_app. split; assumption.
Qed.

Lemma preGRPC_explicit {B : Type} (W : B -> GenericOption) (val : B -> A)
    g (l1 l2 : list GRPCOption) (O : option B) :
  (forall v cfg, P (Logs (ApplyGRPCOption (W v) cfg)) = val v) ->
  Forall (keeps ApplyGRPCOption P) (l1 ++ l2) ->
  P (Logs (preGRPC g (l1 ++ map GRPCOptionOf (explicit W O) ++ l2)))
  = match O with
    | Some v => val v
    | None => P (Logs (ApplyGRPCEnvConfigs g (grpcDefaults g)))
    end.
Proof.
  intros HW Hk. apply Forall_app in Hk as [H1 H2].
  destruct O as [v|]; simpl.
  - unfold preGRPC.
    apply (fold_set_then_keep ApplyGRPCOption P); [|exact H2].
    intros cfg. apply HW.
  - apply preGRPC_keeps, Forall_app. split; assumption.
Qed.
End PreSettings.

(** Proving a law: go back to the configuration before the final steps,
    split on the explicit option, and read the environment layer. *)
Ltac law_http env_lemma :=
  intros g l1 l2 O Hk; rewrite NewHTTPConfig_pre;
  cbn [Logs setLogs setURLPath Endpoint Protocol Insecure TLSCfg Headers
       Compression Timeout URLPath GRPCCredentials HTTPClient];
  rewrite (preHTTP_explicit _ _ (fun v => v))
    by (assumption || (intros; rewrite ?withInsecure_HTTP; reflexivity));
  destruct O; [reflexivity|]; rewrite env_lemma; reflexivity.

Ltac law_grpc env_lemma :=
  intros g l1 l2 O Hk; rewrite NewGRPCConfig_Logs;
  cbn [Logs setLogs setGRPCCredentials Endpoint Protocol Insecure TLSCfg
       Headers Compression Timeout URLPath GRPCCredentials HTTPClient];
  rewrite (preGRPC_explicit _ _ (fun v => v))
    by (assumption || (intros; rewrite ?withInsecure_GRPC; reflexivity));
  destruct O; [reflexivity|]; rewrite env_lemma; reflexivity.

Lemma law_Endpoint_HTTP :
  lawHTTP Endpoint WithEndpoint (fun v => v)
    (fun e => Host <$> envconfig.GetURL e "LOGS_ENDPOINT")
    (fun e => Host <$> envconfig.GetURL e "ENDPOINT")
    (fun _ => "localhost:4318").
Proof. law_http env_Endpoint_HTTP. Qed.

Lemma law_Endpoint_GRPC :
  lawGRPC Endpoint WithEndpoint (fun v => v)
    (fun e => grpcTarget <$> envconfig.GetURL e "LOGS_ENDPOINT")
    (fun e => grpcTarget <$> envconfig.GetURL e "ENDPOINT")
    (fun _ => "localhost:4317").
Proof. law_grpc env_Endpoint_GRPC. Qed.

Lemma law_Compression_HTTP :
  lawHTTP Compression WithCompression (fun v => v)
    (fun e => compressionOf <$> envconfig.GetEnvValue e "LOGS_COMPRESSION")
    (fun e => compressionOf <$> envconfig.GetEnvValue e "COMPRESSION")
    (fun _ => NoCompression).
Proof. law_http env_Compression_HTTP. Qed.

Lemma law_Compression_GRPC :
  lawGRPC Compression WithCompression (fun v => v)
    (fun e => compressionOf <$> envconfig.GetEnvValue e "LOGS_COMPRESSION")
    (fun e => compressionOf <$> envconfig.GetEnvValue e "COMPRESSION")
    (fun _ => NoCompression).
Proof. law_grpc env_Compression_GRPC. Qed.

Lemma law_Headers_HTTP :
  lawHTTP Headers WithHeaders (fun v => v)
    (fun e => Some <$> envconfig.GetHeaders e "LOGS_HEADERS")
    (fun e => Some <$> envconfig.GetHeaders e "HEADERS")
    (fun _ => None).
Proof. law_http env_Headers_HTTP. Qed.

Lemma law_Headers_GRPC :
  lawGRPC Headers WithHeaders (fun v => v)
    (fun e => Some <$> envconfig.GetHeaders e "LOGS_HEADERS")
    (fun e => Some <$> envconfig.GetHeaders e "HEADERS")
    (fun _ => None).
Proof. law_grpc env_Headers_GRPC. Qed.

Lemma law_Timeout_HTTP :
  lawHTTP Timeout WithTimeout (fun v => v)
    (fun e => envconfig.GetDuration e "LOGS_TIMEOUT")
    (fun e => envconfig.GetDuration e "TIMEOUT")
    (fun _ => (10 * Second)%Z).
Proof. law_http env_Timeout_HTTP. Qed.

Lemma law_Timeout_GRPC :
  lawGRPC Timeout WithTimeout (fun v => v)
    (fun e => envconfig.GetDuration e "LOGS_TIMEOUT")
    (fun e => envconfig.GetDuration e "TIMEOUT")
    (fun _ => (10 * Second)%Z).
Proof. law_grpc env_Timeout_GRPC. Qed.

Lemma law_Insecure_HTTP :
  lawHTTP Insecure withInsecure (fun b => b)
    (fun e => envconfig.GetBool e "LOGS_INSECURE")
    (fun e => envconfig.GetBool e "INSECURE")
    schemeInsecure.
Proof. law_http env_Insecure_HTTP. Qed.

Lemma law_Insecure_GRPC :
  lawGRPC Insecure withInsecure (fun b => b)
    (fun e => envconfig.GetBool e "LOGS_INSECURE")
    (fun e => envconfig.GetBool e "INSECURE")
    schemeInsecure.
Proof. law_grpc env_Insecure_GRPC. Qed.

(** For TLS the environment contributes one configuration, [envTLSConfig],
    assembled from the certificate variables. *)
Lemma law_TLSCfg_HTTP :
  lawHTTP TLSCfg WithTLSClientConfig (fun c => c)
    (fun e => Some <$> envTLSConfig e) (fun _ => None) (fun _ => None).
Proof.
  intros g l1 l2 O Hk. rewrite NewHTTPConfig_pre.
  cbn [Logs setLogs setURLPath TLSCfg].
  rewrite (preHTTP_explicit _ _ (fun v => v))
    by (assumption || (intros; reflexivity)).
  destruct O; [reflexivity|]. rewrite env_TLSCfg_HTTP.
  unfold envTLSConfig. destruct (hasTLS _); reflexivity.
Qed.

Lemma envTLS_components (e : envconfig.EnvOptionsReader) :
  RootCAs (envTLS e)
  = precedence None (Some <$> envconfig.GetCertPool e "LOGS_CERTIFICATE")
      (Some <$> envconfig.GetCertPool e "CERTIFICATE") None
  /\ Certificates (envTLS e)
     = precedence None
         ((fun c => [c]) <$>
          envconfig.GetClientCert e "LOGS_CLIENT_CERTIFICATE"
            "LOGS_CLIENT_KEY")
         ((fun c => [c]) <$>
          envconfig.GetClientCert e "CLIENT_CERTIFICATE" "CLIENT_KEY") [].
Proof.
  unfold envTLS, optList. simpl.
  destruct (envconfig.GetCertPool e "LOGS_CERTIFICATE"),
    (envconfig.GetCertPool e "CERTIFICATE"),
    (envconfig.GetClientCert e "LOGS_CLIENT_CERTIFICATE" "LOGS_CLIENT_KEY"),
    (envconfig.GetClientCert e "CLIENT_CERTIFICATE" "CLIENT_KEY");
    split; reflexivity.
Qed.

(** For gRPC the TLS setting is the transport credentials, and their
    default depends on the insecure flag of the same configuration. *)
Lemma law_GRPCCredentials_GRPC :
  forall g (l1 l2 : list GRPCOption) (O : option (option tls_Config)),
    Forall (keeps ApplyGRPCOption GRPCCredentials) (l1 ++ l2) ->
    let cfg :=
      NewGRPCConfig g
        (l1 ++ map GRPCOptionOf (explicit WithTLSClientConfig O) ++ l2) in
    GRPCCredentials (Logs cfg)
    = precedence ((fun c => Some (credentials_NewTLS c)) <$> O)
        ((fun c => Some (credentials_NewTLS (Some c)))
         <$> envTLSConfig (DefaultEnvOptionsReader g))
        None
        (if Insecure (Logs cfg) then None
         else Some (credentials_NewTLS None)).
Proof.
  intros g l1 l2 O Hk cfg. subst cfg. rewrite NewGRPCConfig_Logs.
  cbn [Logs setLogs setGRPCCredentials GRPCCredentials Insecure].
  rewrite (preGRPC_explicit _ _ (fun c => Some (credentials_NewTLS c)))
    by (assumption || (intros; reflexivity)).
  destruct O; [reflexivity|]. rewrite env_GRPCCredentials_GRPC.
  unfold envTLSConfig. destruct (hasTLS _); reflexivity.
Qed.

(** ** The precedence law *)

(** C1 (amended). For each setting the effective value is that of the
    caller's option if there is one, else that of the per-signal variable,
    else that of the generic variable, else a fallback, for the HTTP and for
    the gRPC builder alike.  For endpoint, compression, headers and timeout
    the fallback is the hard-coded default.  For the insecure flag the
    fallback is what the endpoint variables say through their URL scheme
    ([schemeInsecure]), and only without them the default [false].  For TLS
    the environment gives one configuration whose root CAs and client
    certificate each follow per-signal over generic; the default is no TLS
    configuration for HTTP and, for gRPC, TLS with the host's root CAs
    unless the insecure flag is set. *)
Theorem precedence_law :
  (lawHTTP Endpoint WithEndpoint (fun v => v)
     (fun e => Host <$> envconfig.GetURL e "LOGS_ENDPOINT")
     (fun e => Host <$> envconfig.GetURL e "ENDPOINT")
     (fun _ => "localhost:4318")
   /\ lawGRPC Endpoint WithEndpoint (fun v => v)
        (fun e => grpcTarget <$> envconfig.GetURL e "LOGS_ENDPOINT")
        (fun e => grpcTarget <$> envconfig.GetURL e "ENDPOINT")
        (fun _ => "localhost:4317"))
  /\ (lawHTTP Compression WithCompression (fun v => v)
        (fun e =>
           compressionOf <$> envconfig.GetEnvValue e "LOGS_COMPRESSION")
        (fun e => compressionOf <$> envconfig.GetEnvValue e "COMPRESSION")
        (fun _ => NoCompression)
      /\ lawGRPC Compression WithCompression (fun v => v)
           (fun e =>
              compressionOf <$> envconfig.GetEnvValue e "LOGS_COMPRESSION")
           (fun e => compressionOf <$> envconfig.GetEnvValue e "COMPRESSION")
           (fun _ => NoCompression))
  /\ (lawHTTP Headers WithHeaders (fun v => v)
        (fun e => Some <$> envconfig.GetHeaders e "LOGS_HEADERS")
        (fun e => Some <$> envconfig.GetHeaders e "HEADERS")
        (fun _ => None)
      /\ lawGRPC Headers WithHeaders (fun v => v)
           (fun e => Some <$> envconfig.GetHeaders e "LOGS_HEADERS")
           (fun e => Some <$> envconfig.GetHeaders e "HEADERS")
           (fun _ => None))
  /\ (lawHTTP Timeout WithTimeout (fun v => v)
        (fun e => envconfig.GetDuration e "LOGS_TIMEOUT")
        (fun e => envconfig.GetDuration e "TIMEOUT")
        (fun _ => (10 * Second)%Z)
      /\ lawGRPC Timeout WithTimeout (fun v => v)
           (fun e => envconfig.GetDuration e "LOGS_TIMEOUT")
           (fun e => envconfig.GetDuration e "TIMEOUT")
           (fun _ => (10 * Second)%Z))
  /\ (lawHTTP Insecure withInsecure (fun b => b)
        (fun e => envconfig.GetBool e "LOGS_INSECURE")
        (fun e => envconfig.GetBool e "INSECURE")
        schemeInsecure
      /\ lawGRPC Insecure withInsecure (fun b => b)
           (fun e => envconfig.GetBool e "LOGS_INSECURE")
           (fun e => envconfig.GetBool e "INSECURE")
           schemeInsecure)
  /\ (lawHTTP TLSCfg WithTLSClientConfig (fun c => c)
        (fun e => Some <$> envTLSConfig e) (fun _ => None) (fun _ => None)
      /\ (forall g (l1 l2 : list GRPCOption) (O : option (option tls_Config)),
            Forall (keeps ApplyGRPCOption GRPCCredentials) (l1 ++ l2) ->
            let cfg :=
              NewGRPCConfig g
                (l1 ++ map GRPCOptionOf (explicit WithTLSClientConfig O)
                 ++ l2) in
            GRPCCredentials (Logs cfg)
            = precedence ((fun c => Some (credentials_NewTLS c)) <$> O)
                ((fun c => Some (credentials_NewTLS (Some c)))
                 <$> envTLSConfig (DefaultEnvOptionsReader g))
                None
                (if Insecure (Logs cfg) then None
                 else Some (credentials_NewTLS None)))
      /\ (forall e,
            RootCAs (envTLS e)
            = precedence None
                (Some <$> envconfig.GetCertPool e "LOGS_CERTIFICATE")
                (Some <$> envconfig.GetCertPool e "CERTIFICATE") None
            /\ Certificates (envTLS e)
               = precedence None
                   ((fun c => [c]) <$>
                    envconfig.GetClientCert e "LOGS_CLIENT_CERTIFICATE"
                      "LOGS_CLIENT_KEY")
                   ((fun c => [c]) <$>
                    envconfig.GetClientCert e "CLIENT_CERTIFICATE"
                      "CLIENT_KEY") [])).
Proof.
  repeat apply conj.
  - exact law_Endpoint_HTTP.
  - exact law_Endpoint_GRPC.
  - exact law_Compression_HTTP.
  - exact law_Compression_GRPC.
  - exact law_Headers_HTTP.
  - exact law_Headers_GRPC.
  - exact law_Timeout_HTTP.
  - exact law_Timeout_GRPC.
  - exact law_Insecure_HTTP.
  - exact law_Insecure_GRPC.
  - exact law_TLSCfg_HTTP.
  - exact law_GRPCCredentials_GRPC.
  - exact envTLS_components.
Qed.

(** The case of the test "Mixed Environment and With Timeout": both
    variables are set and the caller's five seconds win, here next to an
    unrelated option. *)
Lemma precedence_law_witness :
  let g := globalsOf
             (readerOf [] []
                [("TIMEOUT", (15000 * Millisecond)%Z);
                 ("LOGS_TIMEOUT", (27000 * Millisecond)%Z)]) in
  Forall (keeps ApplyHTTPOption Timeout)
    ([HTTPOptionOf (WithEndpoint "collector:4318")] ++ [])
  /\ Timeout
       (Logs (NewHTTPConfig g
                [HTTPOptionOf (WithEndpoint "collector:4318");
                 HTTPOptionOf (WithTimeout (5 * Second)%Z)]))
     = (5 * Second)%Z.
Proof.
  intros g.
  assert (Hk : Forall (keeps ApplyHTTPOption Timeout)
                 ([HTTPOptionOf (WithEndpoint "collector:4318")] ++ [])).
  { repeat constructor. }
  split; [exact Hk|].
  destruct precedence_law as (_ & _ & _ & (H & _) & _).
  exact (H g [HTTPOptionOf (WithEndpoint "collector:4318")] []
           (Some (5 * Second)%Z) Hk).
Defined.

(** C1 as stated fails for the insecure flag.  With only
    OTEL_EXPORTER_OTLP_ENDPOINT=http://collector:4318 set, no INSECURE
    variable and no option, the flag is [true], not the default [false]. *)
Lemma precedence_law_insecure_counterexample :
  ~ lawHTTP Insecure withInsecure (fun b => b)
      (fun e => envconfig.GetBool e "LOGS_INSECURE")
      (fun e => envconfig.GetBool e "INSECURE")
      (fun _ => false).
Proof.
  intros H.
  specialize
    (H (globalsOf
          (readerOf [("ENDPOINT", mkURL "http" "collector:4318" "")] [] []))
       [] [] None ltac:(constructor)).
  vm_compute in H. discriminate H.
Qed.

(** The same input, evaluated. *)
Example insecure_from_endpoint_scheme :
  let g := globalsOf
             (readerOf [("ENDPOINT", mkURL "http" "collector:4318" "")]
                [] []) in
  envconfig.GetBool (DefaultEnvOptionsReader g) "INSECURE" = None
  /\ envconfig.GetBool (DefaultEnvOptionsReader g) "LOGS_INSECURE" = None
  /\ Insecure (Logs (NewHTTPConfig g [])) = true
  /\ Insecure (Logs (NewGRPCConfig g [])) = true.
Proof. vm_compute. repeat split. Qed.

(** ** Endpoint variables: security and URL path *)

(** C7. The option an endpoint URL contributes sets the insecure flag from
    the URL's scheme, in the same way for both drivers: to [true] when the
    scheme is [http] or [unix] up to letter case, to [false] for every other
    scheme, [https] among them.  When no INSECURE variable is set this is
    the flag the environment layer leaves behind, the per-signal endpoint
    taking precedence over the generic one. *)
Theorem endpoint_scheme_security :
  (forall u cfg,
     sameFold (Scheme u) "http" \/ sameFold (Scheme u) "unix" ->
     Insecure (Logs (ApplyHTTPOption (withEndpointScheme u) cfg)) = true
     /\ Insecure (Logs (ApplyGRPCOption (withEndpointScheme u) cfg)) = true)
  /\ (forall u cfg,
        ~ sameFold (Scheme u) "http" -> ~ sameFold (Scheme u) "unix" ->
        Insecure (Logs (ApplyHTTPOption (withEndpointScheme u) cfg)) = false
        /\ Insecure (Logs (ApplyGRPCOption (withEndpointScheme u) cfg))
           = false)
  /\ (forall u cfg, sameFold (Scheme u) "https" ->
        Insecure (Logs (ApplyHTTPOption (withEndpointScheme u) cfg)) = false)
  /\ (forall u u' cfg, sameFold (Scheme u) (Scheme u') ->
        ApplyHTTPOption (withEndpointScheme u) cfg
        = ApplyHTTPOption (withEndpointScheme u') cfg)
  /\ (forall g cfg,
        let e := DefaultEnvOptionsReader g in
        envconfig.GetBool e "INSECURE" = None ->
        envconfig.GetBool e "LOGS_INSECURE" = None ->
        Insecure (Logs (ApplyHTTPEnvConfigs g cfg))
        = precedence None
            (insecureScheme <$> envconfig.GetURL e "LOGS_ENDPOINT")
            (insecureScheme <$> envconfig.GetURL e "ENDPOINT")
            (Insecure (Logs cfg))).
Proof.
  assert (Hex : forall u,
             insecureScheme u = true
             <-> (sameFold (Scheme u) "http" \/ sameFold (Scheme u) "unix")).
  { intros u. unfold insecureScheme, sameFold. cbv zeta.
    rewrite orb_true_iff, !String.eqb_eq. reflexivity. }
  split; [|split; [|split; [|split]]].
  - intros u cfg H. apply Hex in H.
    rewrite withEndpointScheme_HTTP, withEndpointScheme_GRPC. simpl.
    split; exact H.
  - intros u cfg H1 H2.
    rewrite withEndpointScheme_HTTP, withEndpointScheme_GRPC. simpl.
    destruct (insecureScheme u) eqn:E; [|split; reflexivity].
    apply Hex in E. tauto.
  - intros u cfg H. rewrite withEndpointScheme_HTTP. simpl.
    unfold insecureScheme. cbv zeta. unfold sameFold in H. rewrite H.
    reflexivity.
  - intros u u' cfg H. rewrite !withEndpointScheme_HTTP.
    unfold insecureScheme. cbv zeta. unfold sameFold in H. rewrite H.
    reflexivity.
  - intros g cfg e H1 H2. rewrite env_Insecure_HTTP. fold e.
    rewrite H1, H2. reflexivity.
Qed.

(** The upper-case scheme of the test "Signal Specific Endpoint with
    uppercase scheme". *)
Lemma endpoint_scheme_security_witness :
  let u := mkURL "HtTp" "env_logs_endpoint" "" in
  sameFold (Scheme u) "http"
  /\ Insecure (Logs (ApplyHTTPOption (withEndpointScheme u)
                       (httpDefaults (globalsOf noEnv)))) = true.
Proof.
  intros u.
  assert (H : sameFold (Scheme u) "http") by reflexivity.
  split; [exact H|].
  destruct endpoint_scheme_security as (Hs & _).
  exact (proj1 (Hs u (httpDefaults (globalsOf noEnv)) (or_introl H))).
Defined.

(** C5. Path of the HTTP configuration derived from the endpoint variables.
    With the generic variable holding https://host/prefix (and no per-signal
    endpoint) the path is [/prefix/v1/logs]; with the per-signal variable
    holding http://host, whose path is empty, it is [/] and not the default
    path, whatever the generic variable holds.  The caller's options are any
    that leave the path alone. *)
Theorem endpoint_path_derivation :
  forall g (opts : list HTTPOption),
    let e := DefaultEnvOptionsReader g in
    Forall (keeps ApplyHTTPOption URLPath) opts ->
    (envconfig.GetURL e "ENDPOINT" = Some (mkURL "https" "host" "/prefix") ->
     envconfig.GetURL e "LOGS_ENDPOINT" = None ->
     URLPath (Logs (NewHTTPConfig g opts)) = "/prefix/v1/logs")
    /\ (envconfig.GetURL e "LOGS_ENDPOINT" = Some (mkURL "http" "host" "") ->
        URLPath (Logs (NewHTTPConfig g opts)) = "/").
Proof.
  intros g opts e Hk.
  rewrite NewHTTPConfig_pre. cbn [Logs setLogs setURLPath URLPath].
  rewrite (preHTTP_keeps URLPath) by exact Hk.
  rewrite env_URLPath_HTTP. fold e.
  split.
  - intros -> ->. vm_compute. reflexivity.
  - intros ->. vm_compute. reflexivity.
Qed.

Lemma endpoint_path_derivation_witness :
  URLPath
    (Logs (NewHTTPConfig
             (globalsOf
                (readerOf [("ENDPOINT", mkURL "https" "host" "/prefix")]
                   [] []))
             [HTTPOptionOf (WithTimeout (5 * Second)%Z)]))
  = "/prefix/v1/logs"
  /\ URLPath
       (Logs (NewHTTPConfig
                (globalsOf
                   (readerOf
                      [("ENDPOINT", mkURL "https" "other" "/env/var");
                       ("LOGS_ENDPOINT", mkURL "http" "host" "")] [] []))
                [HTTPOptionOf (WithTimeout (5 * Second)%Z)]))
     = "/".
Proof.
  assert (Hk : Forall (keeps ApplyHTTPOption URLPath)
                 [HTTPOptionOf (WithTimeout (5 * Second)%Z)]).
  { repeat constructor. }
  split.
  - exact (proj1
             (endpoint_path_derivation
                (globalsOf
                   (readerOf [("ENDPOINT", mkURL "https" "host" "/prefix")]
                      [] [])) _ Hk) eq_refl eq_refl).
  - exact (proj2
             (endpoint_path_derivation
                (globalsOf
                   (readerOf
                      [("ENDPOINT", mkURL "https" "other" "/env/var");
                       ("LOGS_ENDPOINT", mkURL "http" "host" "")] [] []))
                _ Hk) eq_refl).
Defined.

(** ** Default credentials of the gRPC configuration *)

(** C10. When the configuration reached before the final steps has neither
    transport credentials nor the insecure flag, [NewGRPCConfig] stores TLS
    credentials with a nil configuration in the configuration it returns.
    This is the case in particular when the environment has no certificate,
    no INSECURE variable and no endpoint with an insecure scheme, and the
    caller's options touch neither setting: the credentials of the result
    are then not nil although nothing set them. *)
Theorem NewGRPCConfig_stores_default_credentials :
  (forall g opts,
     GRPCCredentials (Logs (preGRPC g opts)) = None ->
     Insecure (Logs (preGRPC g opts)) = false ->
     GRPCCredentials (Logs (NewGRPCConfig g opts))
     = Some (credentials_NewTLS None))
  /\ (forall g opts,
        let e := DefaultEnvOptionsReader g in
        hasTLS (envTLS e) = false ->
        precedence None (envconfig.GetBool e "LOGS_INSECURE")
          (envconfig.GetBool e "INSECURE") (schemeInsecure e) = false ->
        Forall (keeps ApplyGRPCOption GRPCCredentials) opts ->
        Forall (keeps ApplyGRPCOption Insecure) opts ->
        GRPCCredentials (Logs (NewGRPCConfig g opts))
        = Some (credentials_NewTLS None)).
Proof.
  assert (H0 : forall g opts,
             GRPCCredentials (Logs (preGRPC g opts)) = None ->
             Insecure (Logs (preGRPC g opts)) = false ->
             GRPCCredentials (Logs (NewGRPCConfig g opts))
             = Some (credentials_NewTLS None)).
  { intros g opts Hc Hi. rewrite NewGRPCConfig_Logs, Hc, Hi. reflexivity. }
  split; [exact H0|].
  intros g opts e Ht Hi Hkc Hki. apply H0.
  - rewrite (preGRPC_keeps GRPCCredentials) by exact Hkc.
    rewrite env_GRPCCredentials_GRPC. fold e. rewrite Ht. reflexivity.
  - rewrite (preGRPC_keeps Insecure) by exact Hki.
    rewrite env_Insecure_GRPC. fold e. exact Hi.
Qed.

(** The test "Default Certificate": no variable, no option. *)
Lemma NewGRPCConfig_stores_default_credentials_witness :
  GRPCCredentials (Logs (preGRPC (globalsOf noEnv) [])) = None
  /\ Insecure (Logs (preGRPC (globalsOf noEnv) [])) = false
  /\ GRPCCredentials (Logs (NewGRPCConfig (globalsOf noEnv) []))
     = Some (credentials_NewTLS None).
Proof.
  split; [reflexivity|]. split; [reflexivity|].
  exact (proj1 NewGRPCConfig_stores_default_credentials
           (globalsOf noEnv) [] eq_refl eq_refl).
Defined.

(** ** The cases of TestConfigs *)

(** Options given as in the test, through [asHTTPOptions] and
    [asGRPCOptions], act as the options themselves. *)
Lemma asHTTPOptions_fold (l : list GenericOption) cfg :
  fold_left (fun cfg opt => ApplyHTTPOption opt cfg) (asHTTPOptions l) cfg
  = fold_left (fun cfg opt => ApplyHTTPOption opt cfg)
      (map HTTPOptionOf l) cfg.
Proof.
  revert cfg. induction l as [|o l IH]; intros cfg; [reflexivity|].
  simpl. apply IH.
Qed.

Lemma asGRPCOptions_fold (l : list GenericOption) cfg :
  fold_left (fun cfg opt => ApplyGRPCOption opt cfg) (asGRPCOptions l) cfg
  = fold_left (fun cfg opt => ApplyGRPCOption opt cfg)
      (map GRPCOptionOf l) cfg.
Proof.
  revert cfg. induction l as [|o l IH]; intros cfg; [reflexivity|].
  simpl. apply IH.
Qed.

Example TestConfigs_default :
  let g := globalsOf noEnv in
  let h := Logs (NewHTTPConfig g (asHTTPOptions [])) in
  let c := Logs (NewGRPCConfig g (asGRPCOptions [])) in
  Endpoint h = "localhost:4318" /\ Endpoint c = "localhost:4317"
  /\ Compression h = NoCompression /\ Headers h = None
  /\ Timeout h = (10 * Second)%Z
  /\ TLSCfg h = None /\ GRPCCredentials c <> None.
Proof. repeat split. discriminate. Qed.

Example TestConfigs_endpoint :
  let g1 := globalsOf
              (readerOf [("ENDPOINT", mkURL "https" "env.endpoint" "/prefix")]
                 [] []) in
  let g2 := globalsOf
              (readerOf
                 [("ENDPOINT",
                   mkURL "https" "override.by.signal.specific" "/env/var");
                  ("LOGS_ENDPOINT", mkURL "http" "env.logs.endpoint" "")]
                 [] []) in
  let g3 := globalsOf
              (readerOf
                 [("ENDPOINT", mkURL "HTTPS" "overrode_by_signal_specific" "");
                  ("LOGS_ENDPOINT", mkURL "HtTp" "env_logs_endpoint" "")]
                 [] []) in
  (Insecure (Logs (NewHTTPConfig g1 [])) = false
   /\ Endpoint (Logs (NewGRPCConfig g1 [])) = "env.endpoint/prefix"
   /\ Endpoint (Logs (NewHTTPConfig g1 [])) = "env.endpoint"
   /\ URLPath (Logs (NewHTTPConfig g1 [])) = "/prefix/v1/logs")
  /\ (Insecure (Logs (NewHTTPConfig g2 [])) = true
      /\ Endpoint (Logs (NewHTTPConfig g2 [])) = "env.logs.endpoint"
      /\ Endpoint (Logs (NewGRPCConfig g2 [])) = "env.logs.endpoint"
      /\ URLPath (Logs (NewHTTPConfig g2 [])) = "/")
  /\ (Endpoint (Logs (NewHTTPConfig g3 [])) = "env_logs_endpoint"
      /\ Insecure (Logs (NewHTTPConfig g3 [])) = true
      /\ Insecure (Logs (NewGRPCConfig g3 [])) = true)
  /\ Endpoint
       (Logs (NewHTTPConfig g1 (asHTTPOptions [WithEndpoint "logs_endpoint"])))
     = "logs_endpoint".
Proof. vm_compute. repeat split. Qed.

Example TestConfigs_timeout :
  let g := globalsOf
             (readerOf [] []
                [("TIMEOUT", (15000 * Millisecond)%Z);
                 ("LOGS_TIMEOUT", (27000 * Millisecond)%Z)]) in
  Timeout (Logs (NewHTTPConfig g [])) = (27 * Second)%Z
  /\ Timeout (Logs (NewGRPCConfig g [])) = (27 * Second)%Z
  /\ Timeout
       (Logs (NewHTTPConfig g (asHTTPOptions [WithTimeout (5 * Second)%Z])))
     = (5 * Second)%Z
  /\ Timeout
       (Logs (NewGRPCConfig g (asGRPCOptions [WithTimeout (5 * Second)%Z])))
     = (5 * Second)%Z.
Proof. vm_compute. repeat split. Qed.

(** The options of the HTTP driver act as the options they wrap. *)
Lemma otlplogshttp_asHTTPOptions (l : list otlplogshttp.Option) cfg :
  fold_left (fun cfg opt => ApplyHTTPOption opt cfg)
    (otlplogshttp.asHTTPOptions l) cfg
  = fold_left (fun cfg o => otlplogshttp.applyHTTPOption o cfg) l cfg.
Proof.
  revert cfg. induction l as [|o l IH]; intros cfg; [reflexivity|].
  simpl. apply IH.
Qed.

Example otlplogshttp_options :
  let cfg :=
    NewHTTPConfig (globalsOf noEnv)
      (otlplogshttp.asHTTPOptions
         [otlplogshttp.WithEndpoint "collector:4318";
          otlplogshttp.WithURLPath "logs/ingest/";
          otlplogshttp.WithInsecure;
          otlplogshttp.WithJsonProtocol]) in
  Endpoint (Logs cfg) = "collector:4318"
  /\ URLPath (Logs cfg) = "/logs/ingest"
  /\ Insecure (Logs cfg) = true
  /\ Protocol (Logs cfg) = "http/json".
Proof. vm_compute. repeat split. Qed.

(** ** [path.Clean], element by element *)

Example clean_table :
  map path.Clean
    [""; "abc"; "abc/def"; "a/b/c"; "."; ".."; "../.."; "../../abc"; "/abc";
     "/"; "abc/"; "abc/def/"; "a/b/c/"; "./"; "../"; "../../"; "/abc/";
     "abc//def//ghi"; "//abc"; "///abc"; "//abc//"; "abc//"; "abc/./def";
     "/./abc/def"; "abc/."; "abc/def/ghi/../jkl"; "abc/def/../ghi/../jkl";
     "abc/def/.."; "abc/def/../.."; "/abc/def/../.."; "abc/def/../../..";
     "/abc/def/../../.."; "abc/def/../../../ghi/jkl/../../../mno";
     "abc/./../def"; "abc//./../def"; "abc/../../././../def"]
  = ["."; "abc"; "abc/def"; "a/b/c"; "."; ".."; "../.."; "../../abc"; "/abc";
     "/"; "abc"; "abc/def"; "a/b/c"; "."; ".."; "../.."; "/abc";
     "abc/def/ghi"; "/abc"; "/abc"; "/abc"; "abc"; "abc/def";
     "/abc/def"; "abc"; "abc/def/jkl"; "abc/jkl";
     "abc"; "."; "/"; "..";
     "/"; "../../mno";
     "def"; "def"; "../../def"].
Proof. vm_compute. reflexivity. Qed.

Lemma ddMark_le rooted st : ddMark rooted st <= List.length (outOf rooted st).
Proof.
  induction st as [|x st IH]; simpl.
  - destruct rooted; simpl; lia.
  - destruct (isDotDot x); [lia|].
    rewrite !length_app. lia.
Qed.

Lemma isDotDot_eq x : isDotDot x = true -> x = [dot; dot].
Proof.
  destruct x as [|c [|d [|? ?]]]; simpl; try discriminate.
  intros H. apply andb_true_iff in H as [H1 H2].
  apply Ascii.eqb_eq in H1, H2. subst. reflexivity.
Qed.

Lemma isDot_eq x : isDot x = true -> x = [dot].
Proof.
  destruct x as [|c [|? ?]]; simpl; try discriminate.
  intros H. apply Ascii.eqb_eq in H. subst. reflexivity.
Qed.

Lemma normalElem_inv x :
  normalElem x = true ->
  x <> [] /\ noSlash x = true /\ isDot x = false /\ isDotDot x = false.
Proof.
  unfold normalElem. intros H.
  repeat (apply andb_true_iff in H as [H ?]).
  apply negb_true_iff in H. repeat split; try assumption.
  - intros ->. discriminate.
  - now apply negb_true_iff.
  - now apply negb_true_iff.
Qed.

Lemma ddMark_top_normal rooted x st :
  normalElem x = true ->
  (ddMark rooted (x :: st) <? List.length (outOf rooted (x :: st))) = true.
Proof.
  intros H. apply normalElem_inv in H as (Hne & _ & _ & Hdd).
  simpl. rewrite Hdd. apply Nat.ltb_lt.
  pose proof (ddMark_le rooted st).
  rewrite !length_app, length_rev.
  destruct x; [congruence|]. simpl. lia.
Qed.

Lemma ddMark_top_dotdot rooted x st :
  isDotDot x = true ->
  (ddMark rooted (x :: st) <? List.length (outOf rooted (x :: st))) = false.
Proof.
  intros H. simpl ddMark. rewrite H. apply Nat.ltb_irrefl.
Qed.

Lemma ddMark_nil rooted :
  (ddMark rooted [] <? List.length (outOf rooted [])) = false.
Proof. destruct rooted; reflexivity. Qed.

Lemma noSlash_app x y : noSlash (x ++ y) = noSlash x && noSlash y.
Proof. apply forallb_app. Qed.

Lemma noSlash_rev x : noSlash (rev x) = noSlash x.
Proof.
  induction x as [|c x IH]; simpl; [reflexivity|].
  rewrite noSlash_app, IH. simpl. rewrite andb_true_r. apply andb_comm.
Qed.

(** Dropping the last element from the buffer. *)
Lemma backtrack_run dd (r : list ascii) (last : ascii) (sep o : list ascii) :
  noSlash (last :: r) = true ->
  dd <= List.length o ->
  sep = [slash] \/ (sep = [] /\ List.length o <= dd) ->
  backtrack dd last (r ++ sep ++ o) = o.
Proof.
  intros Hns Hdd Hsep. revert last Hns.
  induction r as [|c r IH]; intros last Hns.
  - simpl in Hns. rewrite andb_true_r in Hns. simpl app at 1.
    destruct Hsep as [->|[-> Hle]]; simpl app.
    + simpl backtrack.
      destruct (dd <? _) eqn:E;
        [|apply Nat.ltb_ge in E; simpl in E; lia].
      rewrite Hns. simpl.
      destruct o as [|d o]; [reflexivity|].
      simpl. rewrite andb_false_r. reflexivity.
    + destruct o as [|d o]; [reflexivity|].
      simpl backtrack.
      destruct (dd <? _) eqn:E; [|reflexivity].
      apply Nat.ltb_lt in E. simpl in *. lia.
  - simpl in Hns. apply andb_true_iff in Hns as [H1 H2].
    simpl app. simpl backtrack.
    destruct (dd <? _) eqn:E.
    + rewrite H1. simpl. apply IH. simpl. rewrite H2. reflexivity.
    + apply Nat.ltb_ge in E. simpl in E. rewrite !length_app in E. lia.
Qed.

Lemma backtrack_elem rooted (x : list ascii) st :
  x <> [] -> noSlash x = true ->
  match outOf rooted (x :: st) with
  | last :: out' => backtrack (ddMark rooted st) last out'
  | [] => outOf rooted (x :: st)
  end = outOf rooted st.
Proof.
  intros Hne Hns. simpl outOf.
  assert (Hr : rev x <> []).
  { intros E. apply Hne. rewrite <- (rev_involutive x), E. reflexivity. }
  rewrite <- noSlash_rev in Hns.
  destruct (rev x) as [|last r]; [congruence|].
  simpl app. apply backtrack_run.
  - exact Hns.
  - apply ddMark_le.
  - destruct st; [right|left; reflexivity].
    split; [reflexivity|]. destruct rooted; simpl; lia.
Qed.

(** *** The equations of the loop *)

Lemma cleanLoop_in_slash r l out dd :
  cleanLoop r true (slash :: l) out dd = cleanLoop r false l out dd.
Proof. reflexivity. Qed.

Lemma cleanLoop_in_char r c l out dd :
  Ascii.eqb c slash = false ->
  cleanLoop r true (c :: l) out dd = cleanLoop r true l (c :: out) dd.
Proof. intros H. simpl. rewrite H. reflexivity. Qed.

Lemma cleanLoop_slash r l out dd :
  cleanLoop r false (slash :: l) out dd = cleanLoop r false l out dd.
Proof. reflexivity. Qed.

Lemma cleanLoop_dot r l out dd :
  elemEnds l = true ->
  cleanLoop r false (dot :: l) out dd = cleanLoop r false l out dd.
Proof. intros H. simpl. rewrite H. reflexivity. Qed.

Lemma cleanLoop_dotdot r l out dd :
  elemEnds l = true ->
  cleanLoop r false (dot :: dot :: l) out dd
  = if dd <? List.length out then
      match out with
      | last :: out' => cleanLoop r false l (backtrack dd last out') dd
      | [] => cleanLoop r false l out dd
      end
    else if negb r then
      cleanLoop r false l
        (dot :: dot :: (if 0 <? List.length out then slash :: out else out))
        (S (S (List.length
                 (if 0 <? List.length out then slash :: out else out))))
    else cleanLoop r false l out dd.
Proof. intros H. simpl. rewrite H. reflexivity. Qed.

Lemma cleanLoop_start r c l out dd :
  Ascii.eqb c slash = false ->
  Ascii.eqb c dot && elemEnds l = false ->
  (forall d l2, l = d :: l2 ->
     Ascii.eqb c dot && Ascii.eqb d dot && elemEnds l2 = false) ->
  cleanLoop r false (c :: l) out dd
  = cleanLoop r true l
      (c :: (if needSep r out then slash :: out else out)) dd.
Proof.
  intros H1 H2 H3. simpl. rewrite H1, H2.
  destruct l as [|d l2]; [reflexivity|].
  rewrite (H3 d l2 eq_refl). reflexivity.
Qed.

Lemma cleanLoop_copy r y rest out dd :
  noSlash y = true -> elemEnds rest = true ->
  cleanLoop r true (y ++ rest) out dd
  = cleanLoop r false rest (rev y ++ out) dd.
Proof.
  revert out. induction y as [|c y IH]; intros out Hy Hr.
  - simpl app. destruct rest as [|c rest]; [reflexivity|].
    simpl in Hr. apply Ascii.eqb_eq in Hr. subst c. reflexivity.
  - simpl in Hy. apply andb_true_iff in Hy as [Hc Hy].
    apply negb_true_iff in Hc.
    change ((c :: y) ++ rest) with (c :: (y ++ rest)).
    rewrite cleanLoop_in_char by exact Hc.
    rewrite IH by assumption.
    simpl rev. rewrite <- app_assoc. reflexivity.
Qed.

(** *** One element *)

Lemma outOf_rooted_pos st : 1 <= List.length (outOf true st).
Proof.
  induction st as [|x st IH]; simpl; [lia|].
  rewrite !length_app. lia.
Qed.

Lemma wfStack_top r y st :
  wfStack r (y :: st) = true -> y <> [] /\ noSlash y = true.
Proof.
  simpl. destruct (isDotDot y) eqn:E.
  - intros _. apply isDotDot_eq in E. subst y. split; [discriminate|].
    reflexivity.
  - intros H. apply andb_true_iff in H as [H _].
    apply normalElem_inv in H as (H1 & H2 & _). split; assumption.
Qed.

Lemma wfStack_tail r y st :
  wfStack r (y :: st) = true -> wfStack r st = true.
Proof.
  simpl. destruct (isDotDot y).
  - intros H. apply andb_true_iff in H as [Hr H].
    apply negb_true_iff in Hr. subst r.
    clear y. induction st as [|z st IH]; [reflexivity|].
    simpl in *. apply andb_true_iff in H as [Hz H]. rewrite Hz.
    exact H.
  - intros H. apply andb_true_iff in H as [_ H]. exact H.
Qed.

Lemma needSep_outOf r st :
  wfStack r st = true ->
  needSep r (outOf r st) = match st with [] => false | _ => true end.
Proof.
  intros H. destruct st as [|y st].
  - destruct r; reflexivity.
  - apply wfStack_top in H as [Hne _].
    assert (Hlen : 1 <= List.length y) by (destruct y; [congruence|simpl; lia]).
    unfold needSep.
    assert (HL : List.length (outOf r (y :: st))
                 = List.length y
                   + (List.length (match st with [] => [] | _ => [slash] end)
                      + List.length (outOf r st))).
    { simpl outOf. rewrite !length_app, length_rev. reflexivity. }
    destruct r; cbn [andb negb orb].
    + rewrite orb_false_r. apply negb_true_iff, Nat.eqb_neq.
      pose proof (outOf_rooted_pos st). lia.
    + apply negb_true_iff, Nat.eqb_neq. lia.
Qed.

Lemma ddMark_push r x st :
  isDotDot x = false -> ddMark r (x :: st) = ddMark r st.
Proof. intros H. cbn [ddMark]. rewrite H. reflexivity. Qed.

Lemma outOf_cons r x st :
  outOf r (x :: st)
  = rev x ++ (match st with [] => [] | _ => [slash] end) ++ outOf r st.
Proof. reflexivity. Qed.

Lemma stepElem_push r st x :
  isEmpty x = false -> isDot x = false -> isDotDot x = false ->
  stepElem r st x = x :: st.
Proof. intros H1 H2 H3. unfold stepElem. rewrite H1, H2, H3. reflexivity. Qed.

Lemma cleanLoop_push r c y rest st :
  wfStack r st = true ->
  noSlash (c :: y) = true -> elemEnds rest = true ->
  isDot (c :: y) = false -> isDotDot (c :: y) = false ->
  cleanLoop r false ((c :: y) ++ rest) (outOf r st) (ddMark r st)
  = cleanLoop r false rest (outOf r ((c :: y) :: st))
      (ddMark r ((c :: y) :: st)).
Proof.
  intros Hwf Hns Hr Hd Hdd.
  pose proof Hns as Hns'. simpl in Hns'.
  apply andb_true_iff in Hns' as [Hc Hy]. apply negb_true_iff in Hc.
  change ((c :: y) ++ rest) with (c :: (y ++ rest)).
  rewrite cleanLoop_start.
  - rewrite cleanLoop_copy by assumption.
    rewrite needSep_outOf by exact Hwf.
    rewrite ddMark_push by exact Hdd.
    f_equal. rewrite outOf_cons. simpl rev. rewrite <- !app_assoc. simpl.
    destruct st; reflexivity.
  - exact Hc.
  - destruct (Ascii.eqb c dot) eqn:Ec; [|reflexivity]. simpl.
    destruct y as [|d y].
    + simpl in Hd. congruence.
    + simpl in Hy. apply andb_true_iff in Hy as [Hd' _].
      apply negb_true_iff in Hd'. simpl. exact Hd'.
  - intros d l2 El.
    destruct (Ascii.eqb c dot) eqn:Ec; [|reflexivity]. simpl.
    destruct y as [|d' y].
    + simpl in Hd. congruence.
    + simpl in El. injection El as -> El.
      destruct (Ascii.eqb d dot) eqn:Ed; [|reflexivity]. simpl.
      destruct y as [|d2 y].
      * simpl in Hdd. rewrite Ec, Ed in Hdd. discriminate.
      * simpl in El. subst l2.
        simpl in Hy. apply andb_true_iff in Hy as [_ Hy].
        apply andb_true_iff in Hy as [Hd2 _].
        apply negb_true_iff in Hd2. simpl. exact Hd2.
Qed.

Lemma cleanLoop_elem r x rest st :
  wfStack r st = true -> noSlash x = true -> elemEnds rest = true ->
  cleanLoop r false (x ++ rest) (outOf r st) (ddMark r st)
  = cleanLoop r false rest (outOf r (stepElem r st x))
      (ddMark r (stepElem r st x)).
Proof.
  intros Hwf Hns Hr.
  destruct (isEmpty x) eqn:He.
  { destruct x; [|discriminate]. reflexivity. }
  destruct (isDot x) eqn:Hd.
  { apply isDot_eq in Hd. subst x. simpl app.
    rewrite cleanLoop_dot by exact Hr. reflexivity. }
  destruct (isDotDot x) eqn:Hdd.
  2:{ rewrite stepElem_push by assumption.
      destruct x as [|c y]; [discriminate|].
      apply cleanLoop_push; assumption. }
  apply isDotDot_eq in Hdd. subst x. simpl app.
  rewrite cleanLoop_dotdot by exact Hr.
  unfold stepElem. simpl isEmpty. simpl isDot. simpl orb.
  change (isDotDot [dot; dot]) with true. cbv iota.
  destruct st as [|y st].
  - rewrite ddMark_nil. destruct r; reflexivity.
  - destruct (isDotDot y) eqn:Ey.
    + rewrite ddMark_top_dotdot by exact Ey.
      simpl in Hwf. rewrite Ey in Hwf.
      apply andb_true_iff in Hwf as [Hr' _].
      apply negb_true_iff in Hr'. subst r. simpl negb. cbv iota.
      assert (Hpos : (0 <? List.length (outOf false (y :: st))) = true).
      { apply isDotDot_eq in Ey. subst y. reflexivity. }
      rewrite Hpos.
      change (ddMark false ([dot; dot] :: y :: st))
        with (List.length (outOf false ([dot; dot] :: y :: st))).
      reflexivity.
    + pose proof Hwf as Hwf'. simpl in Hwf'. rewrite Ey in Hwf'.
      apply andb_true_iff in Hwf' as [Hn _].
      rewrite ddMark_top_normal by exact Hn.
      apply wfStack_top in Hwf as [Hne Hnsy].
      pose proof (backtrack_elem r y st Hne Hnsy) as Hb.
      rewrite ddMark_push by exact Ey.
      destruct (outOf r (y :: st)) as [|last out'] eqn:Eo.
      * rewrite <- Hb. reflexivity.
      * rewrite Hb. reflexivity.
Qed.

(** *** The whole input *)

Lemma wfStack_step r st x :
  wfStack r st = true -> noSlash x = true ->
  wfStack r (stepElem r st x) = true.
Proof.
  intros Hwf Hns. unfold stepElem.
  destruct (isEmpty x) eqn:He; [exact Hwf|].
  destruct (isDot x) eqn:Hd; [exact Hwf|]. simpl orb. cbv iota.
  destruct (isDotDot x) eqn:Hdd.
  - destruct st as [|y st].
    + destruct r; [reflexivity|]. simpl. rewrite Hdd. reflexivity.
    + destruct (isDotDot y) eqn:Ey.
      * destruct r; [exact Hwf|].
        simpl in *. rewrite Hdd, Ey in *. simpl in *. exact Hwf.
      * eapply wfStack_tail, Hwf.
  - simpl. rewrite Hdd. unfold normalElem.
    rewrite He, Hns, Hd, Hdd, Hwf. reflexivity.
Qed.

Lemma elems_cons_slash l : elems (slash :: l) = [] :: elems l.
Proof. reflexivity. Qed.

Lemma elems_nonempty l : elems l <> [].
Proof.
  destruct l as [|c l]; simpl; [discriminate|].
  destruct (Ascii.eqb c slash); [discriminate|].
  destruct (elems l); discriminate.
Qed.

(** A path is its first element, then nothing or a slash and the rest. *)
Lemma elems_split l :
  exists x rest,
    l = x ++ rest /\ noSlash x = true
    /\ ((rest = [] /\ elems l = [x])
        \/ (exists rest', rest = slash :: rest'
                          /\ elems l = x :: elems rest')).
Proof.
  induction l as [|c l (x & rest & El & Hx & Hr)].
  - exists [], []. repeat split. left. split; reflexivity.
  - destruct (Ascii.eqb c slash) eqn:Ec.
    + apply Ascii.eqb_eq in Ec. subst c.
      exists [], (slash :: l). repeat split.
      right. exists l. split; reflexivity.
    + exists (c :: x), rest. split; [simpl; congruence|].
      split; [simpl; rewrite Ec, Hx; reflexivity|].
      simpl elems. rewrite Ec.
      destruct Hr as [[-> E]|(rest' & -> & E)]; rewrite E.
      * left. split; reflexivity.
      * right. exists rest'. split; reflexivity.
Qed.

Lemma cleanLoop_elems r l : forall st,
  wfStack r st = true ->
  cleanLoop r false l (outOf r st) (ddMark r st)
  = outOf r (fold_left (stepElem r) (elems l) st).
Proof.
  induction l as [l IH] using (induction_ltof1 _ (@List.length ascii)).
  unfold ltof in IH. intros st Hwf.
  destruct (elems_split l) as (x & rest & El & Hx & Hr).
  destruct Hr as [[-> E]|(rest' & -> & E)]; rewrite E; subst l.
  - rewrite cleanLoop_elem by (assumption || reflexivity). reflexivity.
  - rewrite cleanLoop_elem by (assumption || reflexivity).
    rewrite cleanLoop_slash. simpl fold_left.
    apply IH.
    + rewrite length_app. simpl. lia.
    + apply wfStack_step; assumption.
Qed.

Lemma cleanBytes_stack p :
  cleanBytes p
  = match outOf (isRooted p) (cleanStack p) with
    | [] => [dot]
    | o => rev o
    end.
Proof.
  destruct p as [|c rest]; [reflexivity|].
  unfold cleanBytes, cleanStack, isRooted.
  destruct (Ascii.eqb c slash).
  - rewrite (cleanLoop_elems true rest [] eq_refl : cleanLoop true false rest [slash] 1 = _).
    destruct (outOf _ _); reflexivity.
  - rewrite (cleanLoop_elems false (c :: rest) [] eq_refl
             : cleanLoop false false (c :: rest) [] 0 = _).
    destruct (outOf _ _); reflexivity.
Qed.

(** *** Cleaned paths *)

Lemma elems_noSlash l : forallb noSlash (elems l) = true.
Proof.
  induction l as [|c l IH]; [reflexivity|].
  simpl. destruct (Ascii.eqb c slash) eqn:Ec; [exact IH|].
  destruct (elems l) as [|x xs]; simpl in *.
  - rewrite Ec. reflexivity.
  - rewrite Ec. exact IH.
Qed.

Lemma wfStack_fold r es : forall st,
  wfStack r st = true -> forallb noSlash es = true ->
  wfStack r (fold_left (stepElem r) es st) = true.
Proof.
  induction es as [|x es IH]; intros st Hwf Hes; [exact Hwf|].
  simpl in Hes. apply andb_true_iff in Hes as [Hx Hes].
  simpl. apply IH; [apply wfStack_step; assumption|exact Hes].
Qed.

Lemma wfStack_cleanStack p : wfStack (isRooted p) (cleanStack p) = true.
Proof.
  destruct p as [|c rest]; [reflexivity|].
  unfold cleanStack, isRooted.
  destruct (Ascii.eqb c slash);
    apply wfStack_fold; (reflexivity || apply elems_noSlash).
Qed.

Lemma joinElems_snoc es x :
  joinElems (es ++ [x])
  = joinElems es ++ (match es with [] => [] | _ => [slash] end) ++ x.
Proof.
  induction es as [|y es IH]; [reflexivity|].
  change ((y :: es) ++ [x]) with (y :: (es ++ [x])).
  cbn [joinElems]. rewrite IH.
  destruct es as [|z es]; simpl.
  - reflexivity.
  - rewrite <- !app_assoc. reflexivity.
Qed.

Lemma rev_outOf r st :
  rev (outOf r st)
  = (if r then [slash] else []) ++ joinElems (rev st).
Proof.
  induction st as [|x st IH].
  - destruct r; reflexivity.
  - rewrite outOf_cons, !rev_app_distr, rev_involutive, IH.
    change (rev (x :: st)) with (rev st ++ [x]).
    rewrite joinElems_snoc, <- !app_assoc.
    destruct st as [|y st]; [reflexivity|].
    assert (H : rev (y :: st) <> []).
    { simpl. destruct (rev st); discriminate. }
    destruct (rev (y :: st)); [congruence|]. reflexivity.
Qed.

Lemma elems_app_slash x rest :
  noSlash x = true -> elems (x ++ slash :: rest) = x :: elems rest.
Proof.
  induction x as [|c x IH]; intros H; [reflexivity|].
  simpl in H. apply andb_true_iff in H as [Hc Hx].
  apply negb_true_iff in Hc. simpl. rewrite Hc, IH by exact Hx.
  reflexivity.
Qed.

Lemma elems_single x : noSlash x = true -> elems x = [x].
Proof.
  induction x as [|c x IH]; intros H; [reflexivity|].
  simpl in H. apply andb_true_iff in H as [Hc Hx].
  apply negb_true_iff in Hc. simpl. rewrite Hc, IH by exact Hx.
  reflexivity.
Qed.

Lemma elems_joinElems es :
  es <> [] -> forallb noSlash es = true -> elems (joinElems es) = es.
Proof.
  induction es as [|x es IH]; intros Hne H; [congruence|].
  simpl in H. apply andb_true_iff in H as [Hx Hes].
  destruct es as [|y es].
  - simpl. apply elems_single, Hx.
  - change (joinElems (x :: y :: es))
      with (x ++ slash :: joinElems (y :: es)).
    rewrite elems_app_slash by exact Hx.
    rewrite IH by (discriminate || exact Hes). reflexivity.
Qed.

Lemma wfStack_noSlash r st :
  wfStack r st = true -> forallb noSlash st = true.
Proof.
  induction st as [|x st IH]; intros H; [reflexivity|].
  simpl. pose proof (wfStack_top _ _ _ H) as [_ Hx].
  rewrite Hx. apply IH. eapply wfStack_tail, H.
Qed.

Lemma forallb_rev {A : Type} (f : A -> bool) l :
  forallb f (rev l) = forallb f l.
Proof.
  induction l as [|x l IH]; [reflexivity|].
  simpl. rewrite forallb_app, IH. simpl. rewrite andb_true_r.
  apply andb_comm.
Qed.

(** Reading the elements of a well-formed stack again gives it back. *)
Lemma fold_stepElem_wf r st :
  wfStack r st = true -> fold_left (stepElem r) (rev st) [] = st.
Proof.
  induction st as [|x st IH]; intros H; [reflexivity|].
  simpl rev. rewrite fold_left_app. simpl.
  rewrite IH by (eapply wfStack_tail, H).
  simpl in H. destruct (isDotDot x) eqn:Ex.
  - apply andb_true_iff in H as [Hr Hst].
    apply negb_true_iff in Hr. subst r.
    pose proof (isDotDot_eq _ Ex). subst x.
    destruct st as [|y st]; [reflexivity|].
    simpl in Hst. apply andb_true_iff in Hst as [Hy _].
    unfold stepElem. simpl. rewrite Hy. reflexivity.
  - apply andb_true_iff in H as [Hn _].
    apply normalElem_inv in Hn as (Hne & _ & Hd & _).
    apply stepElem_push; try assumption.
    destruct x; [congruence|reflexivity].
Qed.

Lemma isRooted_joinElems r st :
  wfStack r st = true -> st <> [] -> isRooted (joinElems (rev st)) = false.
Proof.
  intros Hwf Hne.
  assert (H : forallb (fun x => negb (isEmpty x) && noSlash x) (rev st)
              = true).
  { rewrite forallb_rev. clear Hne.
    induction st as [|x st IH]; [reflexivity|].
    simpl. pose proof (wfStack_top _ _ _ Hwf) as [Hx1 Hx2].
    rewrite Hx2, IH by (eapply wfStack_tail, Hwf).
    destruct x; [congruence|reflexivity]. }
  assert (Hr : rev st <> []).
  { intros E. apply Hne. rewrite <- (rev_involutive st), E. reflexivity. }
  destruct (rev st) as [|x es]; [congruence|].
  simpl in H. apply andb_true_iff in H as [Hx _].
  apply andb_true_iff in Hx as [Hx1 Hx2].
  destruct x as [|c x]; [discriminate|].
  simpl in Hx2. apply andb_true_iff in Hx2 as [Hc _].
  apply negb_true_iff in Hc.
  destruct es; simpl; exact Hc.
Qed.

Lemma cleanStack_rendered r st :
  wfStack r st = true -> (r = false -> st <> []) ->
  isRooted (rev (outOf r st)) = r
  /\ cleanStack (rev (outOf r st)) = st.
Proof.
  intros Hwf Hne. rewrite rev_outOf.
  destruct r.
  - split; [reflexivity|]. simpl app. unfold cleanStack.
    rewrite Ascii.eqb_refl.
    destruct st as [|x st]; [reflexivity|].
    rewrite elems_joinElems.
    + apply fold_stepElem_wf, Hwf.
    + simpl. destruct (rev st); discriminate.
    + rewrite forallb_rev. eapply wfStack_noSlash, Hwf.
  - specialize (Hne eq_refl). simpl app.
    pose proof (isRooted_joinElems _ _ Hwf Hne) as Hr.
    split; [exact Hr|].
    unfold cleanStack. unfold isRooted in Hr.
    destruct (joinElems (rev st)) as [|c t] eqn:Et.
    + exfalso.
      assert (E : elems (joinElems (rev st)) = rev st).
      { apply elems_joinElems.
        - intros E. apply Hne. rewrite <- (rev_involutive st), E.
          reflexivity.
        - rewrite forallb_rev. eapply wfStack_noSlash, Hwf. }
      rewrite Et in E. simpl in E.
      assert (Hst : st = [[]]).
      { rewrite <- (rev_involutive st), <- E. reflexivity. }
      subst st. simpl in Hwf. discriminate.
    + rewrite Hr. rewrite <- Et. rewrite elems_joinElems.
      * apply fold_stepElem_wf, Hwf.
      * intros E. apply Hne. rewrite <- (rev_involutive st), E.
        reflexivity.
      * rewrite forallb_rev. eapply wfStack_noSlash, Hwf.
Qed.

(** [Clean] is idempotent. *)
Lemma cleanBytes_idem p : cleanBytes (cleanBytes p) = cleanBytes p.
Proof.
  rewrite (cleanBytes_stack p).
  pose proof (wfStack_cleanStack p) as Hwf.
  destruct (outOf (isRooted p) (cleanStack p)) as [|a o] eqn:Eo;
    [reflexivity|].
  rewrite <- Eo.
  assert (Hne : isRooted p = false -> cleanStack p <> []).
  { intros Hr E. rewrite Hr, E in Eo. discriminate. }
  destruct (cleanStack_rendered _ _ Hwf Hne) as [H1 H2].
  rewrite cleanBytes_stack, H1, H2, Eo. reflexivity.
Qed.

Lemma outOf_nonempty r st :
  (r = false -> st <> []) -> wfStack r st = true -> outOf r st <> [].
Proof.
  intros Hne Hwf. destruct st as [|x st].
  - destruct r; [discriminate|]. exfalso. exact (Hne eq_refl eq_refl).
  - apply wfStack_top in Hwf as [Hx _]. rewrite outOf_cons.
    intros E. apply app_eq_nil in E as [E _].
    apply Hx. rewrite <- (rev_involutive x), E. reflexivity.
Qed.

Lemma cleanBytes_rendered p :
  (isRooted p = false -> cleanStack p <> []) ->
  cleanBytes p
  = (if isRooted p then [slash] else []) ++ joinElems (rev (cleanStack p)).
Proof.
  intros Hne. rewrite cleanBytes_stack, <- rev_outOf.
  pose proof (outOf_nonempty _ _ Hne (wfStack_cleanStack p)) as Ho.
  destruct (outOf _ _); [congruence|reflexivity].
Qed.

Lemma cleanBytes_dot p :
  isRooted p = false -> cleanStack p = [] -> cleanBytes p = [dot].
Proof.
  intros Hr Hs. rewrite cleanBytes_stack, Hr, Hs. reflexivity.
Qed.

Lemma isRooted_cleanBytes p : isRooted (cleanBytes p) = isRooted p.
Proof.
  destruct (isRooted p) eqn:Hr.
  - rewrite cleanBytes_rendered by (rewrite Hr; discriminate).
    rewrite Hr. reflexivity.
  - destruct (cleanStack p) as [|x st] eqn:Es.
    + rewrite cleanBytes_dot by assumption. reflexivity.
    + rewrite cleanBytes_rendered by (rewrite Es; discriminate).
      rewrite Hr. cbn [app].
      apply (isRooted_joinElems false).
      * rewrite <- Hr. apply wfStack_cleanStack.
      * rewrite Es. discriminate.
Qed.

Lemma existsb_rev {A : Type} (f : A -> bool) l :
  existsb f (rev l) = existsb f l.
Proof.
  induction l as [|x l IH]; [reflexivity|].
  simpl. rewrite existsb_app, IH. simpl. rewrite orb_false_r.
  apply orb_comm.
Qed.

Lemma wfStack_rooted_noDotDot st :
  wfStack true st = true -> existsb isDotDot st = false.
Proof.
  induction st as [|x st IH]; intros H; [reflexivity|].
  simpl in *. destruct (isDotDot x); [discriminate|].
  apply andb_true_iff in H as [_ H]. apply IH, H.
Qed.

Lemma wfStack_promote st :
  wfStack false st = true -> existsb isDotDot st = false ->
  wfStack true st = true.
Proof.
  induction st as [|x st IH]; intros H1 H2; [reflexivity|].
  simpl in *. destruct (isDotDot x); [discriminate|].
  apply andb_true_iff in H1 as [Hn H1]. rewrite Hn. apply IH; assumption.
Qed.

Lemma hasDotDot_rendered r st :
  wfStack r st = true ->
  hasDotDotBytes ((if r then [slash] else []) ++ joinElems (rev st))
  = existsb isDotDot st.
Proof.
  intros Hwf. unfold hasDotDotBytes.
  assert (E : forall es, forallb noSlash es = true ->
                existsb isDotDot (elems (joinElems es)) = existsb isDotDot es).
  { intros es Hes. destruct es as [|x es]; [reflexivity|].
    rewrite elems_joinElems by (discriminate || exact Hes). reflexivity. }
  assert (Hns : forallb noSlash (rev st) = true).
  { rewrite forallb_rev. eapply wfStack_noSlash, Hwf. }
  destruct r; simpl app.
  - rewrite elems_cons_slash. simpl existsb.
    rewrite E by exact Hns. apply existsb_rev.
  - rewrite E by exact Hns. apply existsb_rev.
Qed.

(** A cleaned rooted path has no [..] element. *)
Lemma cleanBytes_rooted_noDotDot p :
  isRooted p = true -> hasDotDotBytes (cleanBytes p) = false.
Proof.
  intros Hr. pose proof (wfStack_cleanStack p) as Hwf.
  rewrite cleanBytes_rendered by (rewrite Hr; discriminate).
  rewrite hasDotDot_rendered by exact Hwf.
  rewrite Hr in Hwf. apply wfStack_rooted_noDotDot, Hwf.
Qed.

(** Putting a slash in front of a cleaned relative path without [..]
    element gives a cleaned path. *)
Lemma cleanBytes_slash_clean p :
  isRooted p = false -> cleanBytes p <> [dot] ->
  hasDotDotBytes (slash :: cleanBytes p) = false ->
  cleanBytes (slash :: cleanBytes p) = slash :: cleanBytes p.
Proof.
  intros Hr Hd Hdd.
  pose proof (wfStack_cleanStack p) as Hwf. rewrite Hr in Hwf.
  assert (Hne : cleanStack p <> []).
  { intros E. apply Hd, cleanBytes_dot; assumption. }
  rewrite (cleanBytes_rendered p) in * by (intros _; exact Hne).
  rewrite Hr in *. simpl app in *.
  change (slash :: joinElems (rev (cleanStack p)))
    with ((if true then [slash] else []) ++ joinElems (rev (cleanStack p)))
    in Hdd.
  assert (Hns : forallb noSlash (rev (cleanStack p)) = true).
  { rewrite forallb_rev. eapply wfStack_noSlash, Hwf. }
  assert (Hdd' : existsb isDotDot (cleanStack p) = false).
  { unfold hasDotDotBytes in Hdd. simpl app in Hdd.
    rewrite elems_cons_slash in Hdd. simpl existsb in Hdd.
    rewrite elems_joinElems in Hdd.
    - rewrite existsb_rev in Hdd. exact Hdd.
    - intros E. apply Hne. rewrite <- (rev_involutive (cleanStack p)), E.
      reflexivity.
    - exact Hns. }
  pose proof (wfStack_promote _ Hwf Hdd') as Hwt.
  destruct (cleanStack_rendered true _ Hwt ltac:(discriminate)) as [_ H2].
  rewrite rev_outOf in H2. simpl app in H2.
  rewrite cleanBytes_rendered by (intros H; discriminate H).
  replace (isRooted (slash :: joinElems (rev (cleanStack p)))) with true
    by reflexivity.
  rewrite H2. reflexivity.
Qed.

Lemma Clean_bytes s :
  list_ascii_of_string (path.Clean s) = cleanBytes (list_ascii_of_string s).
Proof. unfold path.Clean. apply list_ascii_of_string_of_list_ascii. Qed.

Lemma IsAbs_bytes s : path.IsAbs s = isRooted (list_ascii_of_string s).
Proof. destruct s; reflexivity. Qed.

Lemma bytes_inj s t :
  list_ascii_of_string s = list_ascii_of_string t -> s = t.
Proof.
  intros H. rewrite <- (string_of_list_ascii_of_string s),
    <- (string_of_list_ascii_of_string t), H. reflexivity.
Qed.

Lemma Clean_idem s : path.Clean (path.Clean s) = path.Clean s.
Proof. apply bytes_inj. rewrite !Clean_bytes. apply cleanBytes_idem. Qed.

Lemma bytes_slash_app s :
  list_ascii_of_string ("/" +:+ s) = slash :: list_ascii_of_string s.
Proof. reflexivity. Qed.

Lemma eqb_dot_bytes s :
  String.eqb s "." = false -> list_ascii_of_string s <> [dot].
Proof.
  intros H E. apply String.eqb_neq in H. apply H.
  apply bytes_inj. exact E.
Qed.

(** What [cleanPath] returns: the default when the trimmed path cleans to
    [.], and otherwise an absolute path that is a fixed point of [Clean]
    as soon as it has no [..] element, which is the case whenever the
    trimmed path is rooted. *)
Lemma cleanPath_result p d :
  (path.Clean (gostrings.TrimSpace p) = "." /\ cleanPath p d = d)
  \/ (path.Clean (gostrings.TrimSpace p) <> "."
      /\ path.IsAbs (cleanPath p d) = true
      /\ (hasDotDot (cleanPath p d) = false ->
          path.Clean (cleanPath p d) = cleanPath p d)
      /\ (path.IsAbs (gostrings.TrimSpace p) = true ->
          hasDotDot (cleanPath p d) = false)).
Proof.
  unfold cleanPath. cbv zeta.
  set (x := gostrings.TrimSpace p).
  destruct (String.eqb (path.Clean x) ".") eqn:Ed.
  { left. apply String.eqb_eq in Ed. split; [exact Ed|reflexivity]. }
  right. split; [apply String.eqb_neq, Ed|].
  pose proof (eqb_dot_bytes _ Ed) as Hd. rewrite Clean_bytes in Hd.
  pose proof (isRooted_cleanBytes (list_ascii_of_string x)) as Hr.
  rewrite <- Clean_bytes, <- !IsAbs_bytes in Hr.
  destruct (path.IsAbs (path.Clean x)) eqn:Ea; simpl negb; cbv iota.
  - split; [exact Ea|]. split; [intros _; apply Clean_idem|].
    intros _. unfold hasDotDot. rewrite Clean_bytes.
    apply cleanBytes_rooted_noDotDot. rewrite <- IsAbs_bytes.
    congruence.
  - split; [reflexivity|]. split.
    + intros Hdd. apply bytes_inj.
      rewrite Clean_bytes, bytes_slash_app, Clean_bytes.
      apply cleanBytes_slash_clean.
      * rewrite <- IsAbs_bytes. congruence.
      * exact Hd.
      * unfold hasDotDot in Hdd.
        rewrite bytes_slash_app, Clean_bytes in Hdd. exact Hdd.
    + intros Hx. congruence.
Qed.

Lemma cleanPath_stable p d :
  cleanPath d d = d ->
  gostrings.TrimSpace (cleanPath p d) = cleanPath p d ->
  hasDotDot (cleanPath p d) = false ->
  cleanPath (cleanPath p d) d = cleanPath p d.
Proof.
  intros Hd Ht Hdd.
  destruct (cleanPath_result p d) as [[_ E]|(_ & Ha & Hc & _)].
  - rewrite E. exact Hd.
  - specialize (Hc Hdd).
    generalize dependent (cleanPath p d). intros r Ht Hdd Ha Hc.
    unfold cleanPath. cbv zeta. rewrite Ht, Hc, Ha. simpl.
    destruct (String.eqb r ".") eqn:E; [|reflexivity].
    apply String.eqb_eq in E. subst r. discriminate.
Qed.


(** ** Normalisation of the URL path *)

(** C3 (amended). [cleanPath] returns the default for the empty path and for
    [dir/..], and makes [dir/a] absolute.  Applying it twice is the same as
    applying it once whenever the default is itself a fixed point, the first
    result has no white space left to trim and the first result has no [..]
    element. *)
Theorem cleanPath_idempotent :
  (forall d, cleanPath "" d = d)
  /\ (forall d, cleanPath "dir/.." d = d)
  /\ cleanPath "dir/a" "" = "/dir/a"
  /\ (forall p d,
        cleanPath d d = d ->
        gostrings.TrimSpace (cleanPath p d) = cleanPath p d ->
        hasDotDot (cleanPath p d) = false ->
        cleanPath (cleanPath p d) d = cleanPath p d).
Proof.
  split; [|split; [|split]].
  - intros d. reflexivity.
  - intros d. reflexivity.
  - reflexivity.
  - exact cleanPath_stable.
Qed.

(** A path with redundant elements and surrounding spaces, under the default
    path of the logs signal. *)
Lemma cleanPath_idempotent_witness :
  cleanPath DefaultLogsPath DefaultLogsPath = DefaultLogsPath
  /\ cleanPath "  //collector/./v2/../logs/ " DefaultLogsPath
     = "/collector/logs"
  /\ cleanPath (cleanPath "  //collector/./v2/../logs/ " DefaultLogsPath)
       DefaultLogsPath
     = cleanPath "  //collector/./v2/../logs/ " DefaultLogsPath.
Proof.
  split; [reflexivity|]. split; [reflexivity|].
  destruct cleanPath_idempotent as (_ & _ & _ & H).
  apply H; reflexivity.
Defined.

(** C3 as stated fails in three ways: a default that is not a fixed point
    comes back changed the second time; a leading [..] survives the first
    application behind the added slash and is removed by the second; a
    space that ends an inner element ends the result of the first
    application and is trimmed by the second. *)
Lemma cleanPath_idempotent_counterexample :
  cleanPath (cleanPath "" "v1/logs") "v1/logs" <> cleanPath "" "v1/logs"
  /\ cleanPath (cleanPath "../a" "/v1/logs") "/v1/logs"
     <> cleanPath "../a" "/v1/logs"
  /\ cleanPath (cleanPath "b /." "/v1/logs") "/v1/logs"
     <> cleanPath "b /." "/v1/logs".
Proof. repeat split; vm_compute; discriminate. Qed.

Example cleanPath_twice :
  cleanPath "" "v1/logs" = "v1/logs"
  /\ cleanPath "v1/logs" "v1/logs" = "/v1/logs"
  /\ cleanPath "../a" "/v1/logs" = "/../a"
  /\ cleanPath "/../a" "/v1/logs" = "/a"
  /\ cleanPath "b /." "/v1/logs" = "/b "
  /\ cleanPath "/b " "/v1/logs" = "/b".
Proof. repeat split. Qed.

(** The cases of TestCleanPath. *)
Example TestCleanPath :
  cleanPath "" "DefaultPath" = "DefaultPath"
  /\ cleanPath "/prefix/v1/metrics" "DefaultMetricsPath"
     = "/prefix/v1/metrics"
  /\ cleanPath "https://env_endpoint" "DefaultLogsPath"
     = "/https:/env_endpoint"
  /\ cleanPath " /dir" "" = "/dir"
  /\ cleanPath "dir/.." "DefaultLogsPath" = "DefaultLogsPath"
  /\ cleanPath "dir/a" "" = "/dir/a".
Proof. repeat split. Qed.

(** A path without [..] element once trimmed and cleaned keeps none when
    [cleanPath] puts a slash in front or returns a default that has
    none. *)
Lemma cleanPath_noDotDot p d :
  hasDotDot d = false ->
  hasDotDot (path.Clean (gostrings.TrimSpace p)) = false ->
  hasDotDot (cleanPath p d) = false.
Proof.
  intros Hd Hc. unfold cleanPath. cbv zeta.
  destruct (String.eqb (path.Clean (gostrings.TrimSpace p)) ".");
    [exact Hd|].
  destruct (negb (path.IsAbs (path.Clean (gostrings.TrimSpace p))));
    [|exact Hc].
  unfold hasDotDot, hasDotDotBytes in *.
  rewrite bytes_slash_app, elems_cons_slash. exact Hc.
Qed.

(** C4 (amended). The URL path of the configuration [NewHTTPConfig] returns
    is never empty and always absolute.  It has no [..] element whenever
    the path the environment and the options left, once trimmed and
    cleaned, has none, and it is then a fixed point of [path.Clean]; this
    is so in particular whenever the trimmed path is rooted.  It is the
    default path when that path cleans to [.].  [NewGRPCConfig] does not
    normalise the path: it returns it as the options left it. *)
Theorem URLPath_normalised :
  (forall g opts,
     let raw := URLPath (Logs (preHTTP g opts)) in
     let u := URLPath (Logs (NewHTTPConfig g opts)) in
     u <> ""
     /\ path.IsAbs u = true
     /\ (hasDotDot (path.Clean (gostrings.TrimSpace raw)) = false ->
         hasDotDot u = false /\ path.Clean u = u)
     /\ (hasDotDot u = false -> path.Clean u = u)
     /\ (path.IsAbs (gostrings.TrimSpace raw) = true -> hasDotDot u = false)
     /\ (path.Clean (gostrings.TrimSpace raw) = "." -> u = DefaultLogsPath))
  /\ (forall g opts,
        URLPath (Logs (NewGRPCConfig g opts))
        = URLPath (Logs (preGRPC g opts))).
Proof.
  split.
  - intros g opts raw u. subst u. rewrite NewHTTPConfig_pre.
    cbn [Logs setLogs setURLPath URLPath]. fold raw.
    change (CleanPath raw DefaultLogsPath)
      with (cleanPath raw DefaultLogsPath).
    assert (Hn : hasDotDot (path.Clean (gostrings.TrimSpace raw)) = false ->
                 hasDotDot (cleanPath raw DefaultLogsPath) = false).
    { apply cleanPath_noDotDot. reflexivity. }
    destruct (cleanPath_result raw DefaultLogsPath)
      as [[Ed E]|(Hd & Ha & Hc & Hr)].
    + rewrite E. repeat split; try reflexivity; discriminate.
    + split; [|split; [|split; [|split; [|split]]]]; try assumption.
      * intros E. rewrite E in Ha. discriminate Ha.
      * intros Hx. split; [exact (Hn Hx)|exact (Hc (Hn Hx))].
      * intros E. contradiction.
  - intros g opts. rewrite NewGRPCConfig_Logs. reflexivity.
Qed.

(** A relative path with a [..] element that cleaning resolves. *)
Lemma URLPath_normalised_witness :
  let g := globalsOf noEnv in
  let opts := [HTTPOptionOf (WithURLPath " logs/../ingest/./v2/ ")] in
  hasDotDot
    (path.Clean (gostrings.TrimSpace (URLPath (Logs (preHTTP g opts)))))
  = false
  /\ URLPath (Logs (NewHTTPConfig g opts)) = "/ingest/v2"
  /\ hasDotDot (URLPath (Logs (NewHTTPConfig g opts))) = false
  /\ path.Clean (URLPath (Logs (NewHTTPConfig g opts)))
     = URLPath (Logs (NewHTTPConfig g opts)).
Proof.
  intros g opts.
  assert (H : hasDotDot
                (path.Clean
                   (gostrings.TrimSpace (URLPath (Logs (preHTTP g opts)))))
              = false) by reflexivity.
  split; [exact H|]. split; [reflexivity|].
  destruct URLPath_normalised as (Hh & _).
  destruct (Hh g opts) as (_ & _ & Hx & _).
  exact (Hx H).
Defined.

(** C4 as stated fails for the gRPC builder, which leaves the path as it
    is: with the option [WithURLPath("")] the path of the result is empty. *)
Lemma URLPath_normalised_counterexample :
  ~ (forall g opts,
       URLPath (Logs (NewGRPCConfig g opts)) <> ""
       /\ path.IsAbs (URLPath (Logs (NewGRPCConfig g opts))) = true
       /\ hasDotDot (URLPath (Logs (NewGRPCConfig g opts))) = false).
Proof.
  intros H.
  destruct (H (globalsOf noEnv) [GRPCOptionOf (WithURLPath "")])
    as (Hne & _).
  apply Hne. reflexivity.
Qed.

(** For the HTTP builder a relative path that starts with [..] keeps that
    element behind the slash added in front. *)
Example URLPath_dotdot :
  URLPath (Logs (NewHTTPConfig (globalsOf noEnv)
                   [HTTPOptionOf (WithURLPath "../a")])) = "/../a"
  /\ hasDotDot "/../a" = true.
Proof. split; reflexivity. Qed.

(** ** Shutdown of the exporter *)

Import otlplogs otlplogstest.

Lemma Shutdown_Constructed {C : Type} `{Client C} ctx (e : Exporter C) :
  state e = Constructed ->
  Shutdown ctx e
  = (match ctx_Err ctx with
     | Some cerr => Some cerr
     | None => fst (Stop ctx (client e))
     end,
     mkExporter (snd (Stop ctx (client e))) Stopped).
Proof.
  intros Hs. unfold Shutdown. rewrite Hs.
  destruct (Stop ctx (client e)). reflexivity.
Qed.

(** C9. Whatever the client, shutting down a freshly constructed exporter
    with a context that is already past its deadline returns
    [context.DeadlineExceeded], and with a context that is already
    canceled returns [context.Canceled]: the context's own error, also
    when the client's stop reports that error wrapped, another error or
    none.  The client's stop is still called, with the same context, and
    the exporter ends up stopped; with a live context the exporter returns
    what the client's stop reports.  The two tests of the suite that look
    for the context's error therefore pass for every client. *)
Theorem Shutdown_propagates_cancellation :
  forall (C : Type) (HC : Client C) (c : C),
    let e := mkExporter c Constructed in
    initializeExporter c = Some e
    /\ fst (Shutdown ctxExpired e) = Some context_DeadlineExceeded
    /\ fst (Shutdown ctxCanceled e) = Some context_Canceled
    /\ fst (Shutdown ctxLive e) = fst (Stop ctxLive c)
    /\ (forall ctx,
          snd (Shutdown ctx e) = mkExporter (snd (Stop ctx c)) Stopped)
    /\ testClientStopHonorsTimeout c = true
    /\ testClientStopHonorsCancel c = true.
Proof.
  intros C HC c e.
  assert (Hs : forall ctx,
             Shutdown ctx e
             = (match ctx_Err ctx with
                | Some cerr => Some cerr
                | None => fst (Stop ctx c)
                end,
                mkExporter (snd (Stop ctx c)) Stopped)).
  { intros ctx. apply (Shutdown_Constructed ctx e). reflexivity. }
  split; [reflexivity|].
  split; [rewrite Hs; reflexivity|].
  split; [rewrite Hs; reflexivity|].
  split; [rewrite Hs; reflexivity|].
  split; [intros ctx; rewrite Hs; reflexivity|].
  unfold testClientStopHonorsTimeout, testClientStopHonorsCancel.
  change (initializeExporter c) with (Some e). cbv iota beta.
  rewrite !Hs. split; reflexivity.
Qed.

(** Once stopped, the exporter does not call the client again: a second
    shutdown returns nil whatever the context. *)
Lemma Shutdown_twice {C : Type} `{Client C} (c : C) (ctx ctx' : Context) :
  let e1 := snd (Shutdown ctx (mkExporter c Constructed)) in
  state e1 = Stopped /\ Shutdown ctx' e1 = (None, e1).
Proof.
  intros e1. subst e1.
  rewrite (Shutdown_Constructed ctx (mkExporter c Constructed) eq_refl).
  split; reflexivity.
Qed.

(** The third sequential test of the suite passes exactly when the
    client's stop reports no error for a live context. *)
Lemma testClientStopNoError_iff {C : Type} `{Client C} (c : C) :
  testClientStopNoError c = true <-> fst (Stop ctxLive c) = None.
Proof.
  unfold testClientStopNoError.
  change (initializeExporter c) with (Some (mkExporter c Constructed)).
  cbv iota beta.
  rewrite (Shutdown_Constructed ctxLive (mkExporter c Constructed) eq_refl).
  simpl. destruct (fst (Stop ctxLive c)); split; congruence.
Qed.

(* ================================================================== *)
(** * Part III. Further properties *)
(* ================================================================== *)

(** ** The environment layer, option by option *)

Lemma silent_getOptionsFromEnv g :
  silent (DefaultEnvOptionsReader g) -> getOptionsFromEnv g = [].
Proof.
  intros (H1 & H2 & H3 & H4 & H5 & H6 & H7).
  rewrite getOptionsFromEnv_chunks. cbv zeta.
  unfold envTLS. rewrite !H1, !H2, !H3, !H4, !H5, !H6, !H7. reflexivity.
Qed.

Lemma fold_keepsCfg {O A : Type} (ap : O -> Config -> Config)
    (Q : Config -> A) (l : list O) (cfg : Config) :
  Forall (keepsCfg ap Q) l ->
  Q (fold_left (fun c o => ap o c) l cfg) = Q cfg.
Proof.
  intros H. revert cfg.
  induction H as [|o l Ho _ IH]; intros cfg; simpl.
  - reflexivity.
  - rewrite IH. apply Ho.
Qed.

Lemma Forall_optList {A B : Type} (P : B -> Prop) (o : option A)
    (f : A -> list B) :
  (forall v, Forall P (f v)) -> Forall P (optList o f).
Proof. intros H. destruct o; simpl; [apply H|constructor]. Qed.

Lemma Forall_if {B : Type} (P : B -> Prop) (b : bool) (l : list B) :
  Forall P l -> Forall P (if b then l else []).
Proof. intros H. destruct b; [exact H|constructor]. Qed.

Lemma env_options_keepCfg {A : Type} (Q : Config -> A) g :
  (forall (f : SignalConfig -> SignalConfig) cfg, Q (setLogs f cfg) = Q cfg)
  -> Forall (keepsCfg ApplyHTTPOption Q) (getOptionsFromEnv g)
     /\ Forall (keepsCfg ApplyGRPCOption Q) (getOptionsFromEnv g).
Proof.
  intros HQ. rewrite getOptionsFromEnv_chunks. cbv zeta.
  assert (Hs : forall u, keepsCfg ApplyHTTPOption Q (withEndpointScheme u)
                         /\ keepsCfg ApplyGRPCOption Q (withEndpointScheme u)).
  { intros u. split; intros cfg;
      rewrite ?withEndpointScheme_HTTP, ?withEndpointScheme_GRPC; apply HQ. }
  assert (Hi : forall b, keepsCfg ApplyHTTPOption Q (withInsecure b)
                         /\ keepsCfg ApplyGRPCOption Q (withInsecure b)).
  { intros b. split; intros cfg;
      rewrite ?withInsecure_HTTP, ?withInsecure_GRPC; apply HQ. }
  split;
    repeat (apply Forall_app; split);
    try apply Forall_optList; try apply Forall_if; intros;
    repeat constructor;
    try apply Hs; try apply Hi;
    try (unfold keepsCfg; intros cfg; cbn; unfold withEndpointForGRPC;
         rewrite ?HQ; reflexivity).
Qed.

Lemma env_layer_frame_aux g cfg :
  beyondEnv (ApplyHTTPEnvConfigs g cfg) = beyondEnv cfg
  /\ beyondEnv (ApplyGRPCEnvConfigs g cfg) = beyondEnv cfg.
Proof.
  assert (HC : forall (f : SignalConfig -> SignalConfig) c,
             (RetryConfig (setLogs f c), ReconnectionPeriod (setLogs f c),
              ServiceConfig (setLogs f c), DialOptions (setLogs f c),
              GRPCConn (setLogs f c))
             = (RetryConfig c, ReconnectionPeriod c, ServiceConfig c,
                DialOptions c, GRPCConn c)) by reflexivity.
  destruct (env_options_keepCfg _ g HC) as [Hh Hg].
  pose proof (fold_keepsCfg _ _ _ cfg Hh) as E1.
  pose proof (fold_keepsCfg _ _ _ cfg Hg) as E2.
  cbv beta in E1, E2.
  assert (E3 : HTTPClient (Logs (ApplyHTTPEnvConfigs g cfg))
               = HTTPClient (Logs cfg)).
  { env_start. env_skip. reflexivity. }
  assert (E4 : HTTPClient (Logs (ApplyGRPCEnvConfigs g cfg))
               = HTTPClient (Logs cfg)).
  { env_start. env_skip. reflexivity. }
  unfold beyondEnv, ApplyHTTPEnvConfigs, ApplyGRPCEnvConfigs in *.
  injection E1 as -> -> -> -> ->. injection E2 as -> -> -> -> ->.
  rewrite E3, E4. split; reflexivity.
Qed.

Lemma env_layer_driver_fields g cfg :
  GRPCCredentials (Logs (ApplyHTTPEnvConfigs g cfg))
  = GRPCCredentials (Logs cfg)
  /\ TLSCfg (Logs (ApplyGRPCEnvConfigs g cfg)) = TLSCfg (Logs cfg)
  /\ URLPath (Logs (ApplyGRPCEnvConfigs g cfg)) = URLPath (Logs cfg).
Proof.
  split; [|split].
  - env_start. env_skip. reflexivity.
  - env_start. env_skip. reflexivity.
  - apply env_URLPath_GRPC.
Qed.

Lemma env_Protocol_GRPC g cfg :
  Protocol (Logs (ApplyGRPCEnvConfigs g cfg))
  = precedence None
      (stringToProtocol
       <$> envconfig.GetEnvValue (DefaultEnvOptionsReader g) "LOGS_PROTOCOL")
      (stringToProtocol
       <$> envconfig.GetEnvValue (DefaultEnvOptionsReader g) "PROTOCOL")
      (Protocol (Logs cfg)).
Proof.
  env_start. env_skip.
  env_set stringToProtocol.
  destruct (envconfig.GetEnvValue _ "LOGS_PROTOCOL"); [reflexivity|].
  env_set stringToProtocol.
  destruct (envconfig.GetEnvValue _ "PROTOCOL"); [reflexivity|].
  env_skip. reflexivity.
Qed.

Lemma law_Protocol_HTTP :
  lawHTTP Protocol WithProtocol (fun v => v)
    (fun e => stringToProtocol <$> envconfig.GetEnvValue e "LOGS_PROTOCOL")
    (fun e => stringToProtocol <$> envconfig.GetEnvValue e "PROTOCOL")
    (fun _ => "").
Proof. law_http env_Protocol_HTTP. Qed.

Lemma law_Protocol_GRPC :
  lawGRPC Protocol WithProtocol (fun v => v)
    (fun e => stringToProtocol <$> envconfig.GetEnvValue e "LOGS_PROTOCOL")
    (fun e => stringToProtocol <$> envconfig.GetEnvValue e "PROTOCOL")
    (fun _ => "").
Proof. law_grpc env_Protocol_GRPC. Qed.

Lemma stringToProtocol_range s :
  In (stringToProtocol s)
    [ExporterProtocolGrpc; ExporterProtocolHttpProtobuf;
     ExporterProtocolHttpJson].
Proof.
  unfold stringToProtocol. cbv zeta.
  repeat match goal with
         | |- context [if ?c then _ else _] => destruct c
         end; simpl; tauto.
Qed.

Lemma URLPath_HTTP_law g (l1 l2 : list HTTPOption) (O : option string) :
  Forall (keeps ApplyHTTPOption URLPath) (l1 ++ l2) ->
  URLPath
    (Logs (NewHTTPConfig g (l1 ++ map HTTPOptionOf (explicit WithURLPath O)
                            ++ l2)))
  = CleanPath
      (precedence O
         (signalURLPath
          <$> envconfig.GetURL (DefaultEnvOptionsReader g) "LOGS_ENDPOINT")
         (genericURLPath
          <$> envconfig.GetURL (DefaultEnvOptionsReader g) "ENDPOINT")
         DefaultLogsPath)
      DefaultLogsPath.
Proof.
  intros Hk. rewrite NewHTTPConfig_pre.
  cbn [Logs setLogs setURLPath URLPath].
  rewrite (preHTTP_explicit _ _ (fun v => v))
    by (assumption || (intros; reflexivity)).
  destruct O; [reflexivity|]. rewrite env_URLPath_HTTP. reflexivity.
Qed.

Lemma URLPath_GRPC_law g (l1 l2 : list GRPCOption) (O : option string) :
  Forall (keeps ApplyGRPCOption URLPath) (l1 ++ l2) ->
  URLPath
    (Logs (NewGRPCConfig g (l1 ++ map GRPCOptionOf (explicit WithURLPath O)
                            ++ l2)))
  = precedence O None None DefaultLogsPath.
Proof.
  intros Hk. rewrite NewGRPCConfig_Logs.
  cbn [Logs setLogs setGRPCCredentials URLPath].
  rewrite (preGRPC_explicit _ _ (fun v => v))
    by (assumption || (intros; reflexivity)).
  destruct O; [reflexivity|]. rewrite env_URLPath_GRPC. reflexivity.
Qed.

Lemma compression_gzip_iff (o' o : option string) (c : Compression_t) :
  precedence None (compressionOf <$> o') (compressionOf <$> o) c
  = GzipCompression
  <-> (o' = Some "gzip"
       \/ (o' = None
           /\ (o = Some "gzip" \/ (o = None /\ c = GzipCompression)))).
Proof.
  assert (Hc : forall v, compressionOf v = GzipCompression <-> v = "gzip").
  { intros v. unfold compressionOf.
    destruct (String.eqb v "gzip") eqn:E.
    - apply String.eqb_eq in E. tauto.
    - apply String.eqb_neq in E. split; [discriminate|tauto]. }
  destruct o' as [v'|], o as [v|]; simpl; rewrite ?Hc;
    intuition (subst; try congruence; auto).
Qed.

(** ** The final steps of [NewGRPCConfig] *)

Lemma NewGRPCConfig_other_fields g opts :
  RetryConfig (NewGRPCConfig g opts) = RetryConfig (preGRPC g opts)
  /\ ReconnectionPeriod (NewGRPCConfig g opts)
     = ReconnectionPeriod (preGRPC g opts)
  /\ ServiceConfig (NewGRPCConfig g opts) = ServiceConfig (preGRPC g opts)
  /\ GRPCConn (NewGRPCConfig g opts) = GRPCConn (preGRPC g opts).
Proof.
  unfold NewGRPCConfig.
  change (fold_left (fun cfg opt => ApplyGRPCOption opt cfg) opts _)
    with (preGRPC g opts).
  generalize (preGRPC g opts) as pre. intros pre. cbv zeta.
  destruct pre as [[ep pr ins tl hd cp tm up gc hc] rc rp sc dl cn]; simpl.
  destruct (String.eqb sc ""), gc as [c|], ins, cp; simpl;
    repeat match goal with
           | |- context [negb (?n =? 0)] => destruct (n =? 0); simpl
           | |- context [negb (?n =? 0)%Z] => destruct (n =? 0)%Z; simpl
           end; repeat split.
Qed.

Lemma In_double {A : Type} (x : A) (b t : list A) :
  In x (b ++ b ++ t) <-> In x b \/ In x t.
Proof. rewrite !in_app_iff. tauto. Qed.

Lemma NewGRPCConfig_dial_membership g opts (d : DialOption) :
  let pre := preGRPC g opts in
  In d (DialOptions (NewGRPCConfig g opts))
  <-> In d (DialOptions pre)
      \/ d = WithTransportCredentials (selectedCredentials pre)
      \/ (ServiceConfig pre <> ""
          /\ d = WithDefaultServiceConfig (ServiceConfig pre))
      \/ (Compression (Logs pre) = GzipCompression
          /\ d = WithDefaultCallOptions (UseCompressor gzip_Name))
      \/ (ReconnectionPeriod pre <> 0%Z
          /\ d = WithConnectParams
                   (mkConnectParams backoff_DefaultConfig
                      (ReconnectionPeriod pre))).
Proof.
  intros pre. rewrite NewGRPCConfig_DialOptions. fold pre.
  rewrite In_double. unfold dialBase, dialTail.
  rewrite !in_app_iff.
  destruct (String.eqb (ServiceConfig pre) "") eqn:Es;
    [apply String.eqb_eq in Es|apply String.eqb_neq in Es];
    destruct (Compression (Logs pre)) eqn:Ec;
    destruct (ReconnectionPeriod pre =? 0)%Z eqn:Er;
    [apply Z.eqb_eq in Er|apply Z.eqb_neq in Er
    |apply Z.eqb_eq in Er|apply Z.eqb_neq in Er
    |apply Z.eqb_eq in Er|apply Z.eqb_neq in Er
    |apply Z.eqb_eq in Er|apply Z.eqb_neq in Er];
    simpl; intuition (subst; try congruence; auto).
Qed.

(** ** [path.Clean] and [path.Join], continued *)

Lemma forallb_isDotDot_repeat st :
  forallb isDotDot st = true -> st = repeat [dot; dot] (List.length st).
Proof.
  induction st as [|x st IH]; intros H; [reflexivity|].
  simpl in H. apply andb_true_iff in H as [Hx H].
  apply isDotDot_eq in Hx. subst x. simpl. f_equal. apply IH, H.
Qed.

Lemma rev_repeat {A : Type} (x : A) n : rev (repeat x n) = repeat x n.
Proof.
  induction n as [|n IH]; [reflexivity|].
  simpl. rewrite IH. clear IH.
  induction n as [|n IH]; [reflexivity|]. simpl. rewrite IH. reflexivity.
Qed.

(** A well-formed stack, first element first: [..] elements, then proper
    elements. *)
Lemma wfStack_rev r st :
  wfStack r st = true ->
  exists k ns,
    rev st = repeat [dot; dot] k ++ ns
    /\ forallb normalElem ns = true
    /\ (r = true -> k = 0).
Proof.
  induction st as [|x st IH]; intros H.
  - exists 0, []. repeat split.
  - simpl in H. destruct (isDotDot x) eqn:Ex.
    + apply andb_true_iff in H as [Hr Hs]. apply negb_true_iff in Hr.
      apply isDotDot_eq in Ex. subst x r.
      exists (S (List.length st)), []. split; [|split].
      * rewrite app_nil_r. simpl rev.
        rewrite (forallb_isDotDot_repeat _ Hs) at 1.
        rewrite rev_repeat.
        change [[dot; dot]] with (repeat [dot; dot] 1).
        rewrite <- repeat_app. f_equal. lia.
      * reflexivity.
      * discriminate.
    + apply andb_true_iff in H as [Hn Hs].
      destruct (IH Hs) as (k & ns & E & Hns & Hk).
      exists k, (ns ++ [x]). split; [|split].
      * simpl rev. rewrite E, <- app_assoc. reflexivity.
      * rewrite forallb_app, Hns. simpl. rewrite Hn. reflexivity.
      * exact Hk.
Qed.

Lemma cleanBytes_nonempty p : cleanBytes p <> [].
Proof.
  rewrite cleanBytes_stack.
  destruct (outOf _ _) as [|a o] eqn:E; [discriminate|].
  intros H. apply (f_equal (@rev ascii)) in H.
  rewrite rev_involutive in H. discriminate H.
Qed.

Lemma Clean_nonempty s : path.Clean s <> "".
Proof.
  intros H. apply (f_equal list_ascii_of_string) in H.
  rewrite Clean_bytes in H. exact (cleanBytes_nonempty _ H).
Qed.

Lemma cleanPath_rooted p d :
  path.IsAbs (gostrings.TrimSpace p) = true ->
  cleanPath p d = path.Clean (gostrings.TrimSpace p)
  /\ path.IsAbs (cleanPath p d) = true.
Proof.
  intros Ha. unfold cleanPath. cbv zeta.
  set (x := gostrings.TrimSpace p) in *.
  assert (Hr : path.IsAbs (path.Clean x) = true).
  { rewrite IsAbs_bytes, Clean_bytes, isRooted_cleanBytes, <- IsAbs_bytes.
    exact Ha. }
  destruct (String.eqb (path.Clean x) ".") eqn:Ed.
  - apply String.eqb_eq in Ed. rewrite Ed in Hr. discriminate Hr.
  - rewrite Hr. simpl. split; [reflexivity|exact Hr].
Qed.

Lemma fold_length_acc (l : list string) n :
  fold_left (fun n e => n + String.length e) l n
  = n + fold_left (fun n e => n + String.length e) l 0.
Proof.
  revert n. induction l as [|e l IH]; intros n; simpl; [lia|].
  rewrite IH, (IH (String.length e)). lia.
Qed.

Lemma fold_length_zero (l : list string) :
  fold_left (fun n e => n + String.length e) l 0 = 0
  <-> Forall (fun e => e = "") l.
Proof.
  induction l as [|e l IH]; simpl.
  - split; [constructor|reflexivity].
  - rewrite fold_length_acc. split.
    + intros H. constructor.
      * destruct e; [reflexivity|simpl in H; lia].
      * apply IH. lia.
    + intros H. inversion H as [|? ? He Hl]; subst. simpl.
      apply IH, Hl.
Qed.

(** [path.Join]: empty exactly when every element is, and else a clean
    path. *)
Lemma Join_clean (l : list string) :
  (path.Join l = "" <-> Forall (fun e => e = "") l)
  /\ (path.Join l <> "" -> path.Clean (path.Join l) = path.Join l).
Proof.
  unfold path.Join.
  destruct (_ =? 0) eqn:E.
  - apply Nat.eqb_eq in E. split.
    + split; [intros _; apply fold_length_zero, E|reflexivity].
    + intros H. contradiction H. reflexivity.
  - apply Nat.eqb_neq in E. split.
    + split.
      * intros H. contradiction (Clean_nonempty _ H).
      * intros H. contradiction E. apply fold_length_zero, H.
    + intros _. apply Clean_idem.
Qed.

Lemma elems_app (y z : list ascii) :
  elems (y ++ slash :: z) = elems y ++ elems z.
Proof.
  induction y as [|c y IH]; [reflexivity|].
  simpl. destruct (Ascii.eqb c slash).
  - rewrite IH. reflexivity.
  - rewrite IH. destruct (elems y) as [|x xs] eqn:E.
    + contradiction (elems_nonempty _ E).
    + reflexivity.
Qed.

Lemma bytes_app s t :
  list_ascii_of_string (s +:+ t)
  = list_ascii_of_string s ++ list_ascii_of_string t.
Proof.
  induction s as [|c s IH]; simpl; [reflexivity|].
  rewrite IH. reflexivity.
Qed.

(** Two proper elements after a path: both are kept. *)
Lemma cleanStack_two p x y :
  p <> [] -> normalElem x = true -> normalElem y = true ->
  isRooted (p ++ slash :: slash :: x ++ slash :: y) = isRooted p
  /\ cleanStack (p ++ slash :: slash :: x ++ slash :: y)
     = y :: x :: cleanStack p.
Proof.
  intros Hp Hx Hy.
  assert (Nx : isEmpty x = false /\ noSlash x = true /\ isDot x = false
               /\ isDotDot x = false).
  { unfold normalElem in Hx. rewrite !andb_true_iff, !negb_true_iff in Hx.
    tauto. }
  assert (Ny : isEmpty y = false /\ noSlash y = true /\ isDot y = false
               /\ isDotDot y = false).
  { unfold normalElem in Hy. rewrite !andb_true_iff, !negb_true_iff in Hy.
    tauto. }
  destruct Nx as (X1 & X2 & X3 & X4), Ny as (Y1 & Y2 & Y3 & Y4).
  assert (Et : forall r st,
             fold_left (stepElem r)
               (elems (slash :: x ++ slash :: y)) st = y :: x :: st).
  { intros r st. rewrite elems_cons_slash, elems_app_slash by exact X2.
    rewrite elems_single by exact Y2. cbn [fold_left].
    change (stepElem r st []) with st.
    rewrite (stepElem_push r st x), (stepElem_push r (x :: st) y)
      by assumption.
    reflexivity. }
  destruct p as [|c rest]; [contradiction Hp; reflexivity|].
  split; [reflexivity|].
  unfold cleanStack. cbn [app].
  destruct (Ascii.eqb c slash).
  - rewrite elems_app, fold_left_app. apply Et.
  - change (c :: rest ++ slash :: slash :: x ++ slash :: y)
      with ((c :: rest) ++ slash :: slash :: x ++ slash :: y).
    rewrite elems_app, fold_left_app. apply Et.
Qed.

Lemma joinElems_two es x y :
  joinElems (es ++ [x; y])
  = joinElems es ++ (match es with [] => [] | _ => [slash] end)
    ++ x ++ slash :: y.
Proof.
  change (es ++ [x; y]) with (es ++ [x] ++ [y]).
  rewrite app_assoc, joinElems_snoc, joinElems_snoc.
  destruct es; simpl; rewrite <- ?app_assoc; reflexivity.
Qed.

Lemma wfStack_rendered_proper r st :
  wfStack r st = true -> st <> [] ->
  (if r then [slash] else []) ++ joinElems (rev st) <> [dot]
  /\ (if r then [slash] else []) ++ joinElems (rev st) <> [slash].
Proof.
  intros Hwf Hne.
  assert (Hr : rev st <> []).
  { intros E. apply Hne. rewrite <- (rev_involutive st), E. reflexivity. }
  assert (Hs : forallb noSlash (rev st) = true).
  { rewrite forallb_rev. exact (wfStack_noSlash _ _ Hwf). }
  assert (Hj : forall b, joinElems (rev st) = b -> st = rev (elems b)).
  { intros b E. rewrite <- E, elems_joinElems by assumption.
    rewrite rev_involutive. reflexivity. }
  destruct r; simpl; split; intros E.
  - discriminate E.
  - injection E as E. apply Hj in E. subst st. discriminate Hwf.
  - apply Hj in E. subst st. discriminate Hwf.
  - apply Hj in E. subst st. discriminate Hwf.
Qed.

(** [path.Join] of a non-empty base path and the default logs path, by
    the cleaned base path. *)
Lemma cleanBytes_base p x y :
  p <> [] -> normalElem x = true -> normalElem y = true ->
  (cleanBytes p = [dot]
   /\ cleanBytes (p ++ slash :: slash :: x ++ slash :: y) = x ++ slash :: y)
  \/ (cleanBytes p = [slash]
      /\ cleanBytes (p ++ slash :: slash :: x ++ slash :: y)
         = slash :: x ++ slash :: y)
  \/ (cleanBytes p <> [dot] /\ cleanBytes p <> [slash]
      /\ cleanBytes (p ++ slash :: slash :: x ++ slash :: y)
         = cleanBytes p ++ slash :: x ++ slash :: y).
Proof.
  intros Hp Hx Hy.
  destruct (cleanStack_two p x y Hp Hx Hy) as [Er Es].
  pose proof (wfStack_cleanStack p) as Hwf.
  rewrite (cleanBytes_rendered (p ++ _))
    by (rewrite Es; discriminate).
  rewrite Er, Es. cbn [rev]. rewrite <- app_assoc. cbn [app].
  rewrite joinElems_two.
  destruct (cleanStack p) as [|z st] eqn:Est.
  - destruct (isRooted p) eqn:Ep.
    + right; left. split; [|reflexivity].
      rewrite cleanBytes_rendered by (rewrite Ep; discriminate).
      rewrite Ep, Est. reflexivity.
    + left. split; [|reflexivity]. apply cleanBytes_dot; assumption.
  - right; right.
    assert (Ec : cleanBytes p
                 = (if isRooted p then [slash] else [])
                   ++ joinElems (rev (z :: st))).
    { rewrite cleanBytes_rendered by (rewrite Est; discriminate).
      rewrite Est. reflexivity. }
    destruct (wfStack_rendered_proper _ _ Hwf ltac:(discriminate))
      as [H1 H2].
    rewrite Ec. split; [exact H1|]. split; [exact H2|].
    destruct (rev (z :: st)) as [|a es] eqn:Erev.
    + apply (f_equal (@rev _)) in Erev. rewrite rev_involutive in Erev.
      discriminate Erev.
    + rewrite <- !app_assoc. reflexivity.
Qed.

Lemma append_assoc (a b c : string) : (a +:+ b) +:+ c = a +:+ (b +:+ c).
Proof.
  induction a as [|x a IH]; [reflexivity|].
  change (String x ((a +:+ b) +:+ c) = String x (a +:+ (b +:+ c))).
  rewrite IH. reflexivity.
Qed.

Lemma Join_base p :
  path.Join [p; DefaultLogsPath]
  = if String.eqb p "" then "/v1/logs"
    else if String.eqb (path.Clean p) "." then "v1/logs"
    else if String.eqb (path.Clean p) "/" then "/v1/logs"
    else path.Clean p +:+ "/v1/logs".
Proof.
  destruct p as [|c p]; [reflexivity|].
  set (q := String c p).
  assert (Hq : list_ascii_of_string q <> []) by discriminate.
  assert (EJ : path.Join [q; DefaultLogsPath]
               = path.Clean (q +:+ "//v1/logs")).
  { unfold path.Join. simpl fold_left.
    replace (path.joinBuf "" [q; DefaultLogsPath])
      with (q +:+ "//v1/logs").
    - reflexivity.
    - change (path.joinBuf "" [q; DefaultLogsPath])
        with ((q +:+ "/") +:+ DefaultLogsPath).
      rewrite append_assoc. reflexivity. }
  rewrite EJ. change (String.eqb q "") with false. cbv iota.
  assert (EB : list_ascii_of_string (path.Clean (q +:+ "//v1/logs"))
               = cleanBytes (list_ascii_of_string q ++
                   slash :: slash :: list_ascii_of_string "v1"
                   ++ slash :: list_ascii_of_string "logs")).
  { rewrite Clean_bytes, bytes_app. reflexivity. }
  destruct (cleanBytes_base (list_ascii_of_string q)
              (list_ascii_of_string "v1") (list_ascii_of_string "logs")
              Hq eq_refl eq_refl) as [[E1 E2]|[[E1 E2]|(N1 & N2 & E2)]];
    rewrite E2 in EB.
  - assert (Ec : path.Clean q = ".").
    { apply bytes_inj. rewrite Clean_bytes. exact E1. }
    rewrite Ec. simpl String.eqb. cbv iota. apply bytes_inj. exact EB.
  - assert (Ec : path.Clean q = "/").
    { apply bytes_inj. rewrite Clean_bytes. exact E1. }
    rewrite Ec. simpl String.eqb. cbv iota. apply bytes_inj. exact EB.
  - destruct (String.eqb (path.Clean q) ".") eqn:Ed.
    { apply String.eqb_eq in Ed. contradiction N1.
      rewrite <- Clean_bytes, Ed. reflexivity. }
    destruct (String.eqb (path.Clean q) "/") eqn:Es.
    { apply String.eqb_eq in Es. contradiction N2.
      rewrite <- Clean_bytes, Es. reflexivity. }
    apply bytes_inj. rewrite EB, bytes_app, Clean_bytes. reflexivity.
Qed.

Lemma grpcTarget_clean_aux u :
  (grpcTarget u = "" <-> Host u = "" /\ Path u = "")
  /\ (grpcTarget u <> "" -> path.Clean (grpcTarget u) = grpcTarget u).
Proof.
  unfold grpcTarget. destruct (Join_clean [Host u; Path u]) as [H1 H2].
  split; [|exact H2].
  rewrite H1. split.
  - intros H. inversion H as [|? ? Ha Hb]; subst.
    inversion Hb as [|? ? Hc Hd]; subst. split; assumption.
  - intros [Ha Hb]. repeat constructor; assumption.
Qed.

(** ** [strings.TrimSpace] *)

Import gostrings.

Lemma list_length_ind {A : Type} (P : list A -> Prop) :
  (forall l, (forall l', List.length l' < List.length l -> P l') -> P l) ->
  forall l, P l.
Proof.
  intros H l.
  assert (G : forall n l, List.length l < n -> P l).
  { induction n as [|n IH]; intros l' Hl; [lia|].
    apply H. intros l'' Hl''. apply IH. lia. }
  apply (G (S (List.length l))). lia.
Qed.

Ltac space_cases H :=
  repeat match type of H with
         | context [asciiSpace ?b] =>
           destruct (asciiSpace b); cbn [orb] in H; try discriminate H
         | context [space2 ?a ?b] =>
           destruct (space2 a b); cbn [orb] in H; try discriminate H
         | context [space3 ?a ?b ?c] =>
           destruct (space3 a b c); cbn [orb] in H; try discriminate H
         end.

Lemma trimLeft_fixed s : startsSpace s = false -> trimLeft s = s.
Proof.
  destruct s as [|b1 [|b2 [|b3 s]]]; cbn [startsSpace trimLeft]; intros H;
    space_cases H; reflexivity.
Qed.

Lemma trimRightRev_fixed s : startsSpaceRev s = false -> trimRightRev s = s.
Proof.
  destruct s as [|b1 [|b2 [|b3 s]]]; cbn [startsSpaceRev trimRightRev];
    intros H; space_cases H; reflexivity.
Qed.

Lemma trimLeft_trimmed s :
  startsSpace (trimLeft s) = false /\ exists w, s = w ++ trimLeft s.
Proof.
  induction s as [s IH] using list_length_ind.
  destruct s as [|b1 s1]; [split; [reflexivity|exists []; reflexivity]|].
  cbn [trimLeft].
  destruct (asciiSpace b1) eqn:E1.
  { destruct (IH s1 ltac:(simpl; lia)) as [H (w & Hw)].
    split; [exact H|]. exists (b1 :: w). simpl. f_equal. exact Hw. }
  destruct s1 as [|b2 s2].
  { split; [cbn [startsSpace startsSpaceRev]; rewrite E1; reflexivity
           |exists []; reflexivity]. }
  destruct (space2 b1 b2) eqn:E2.
  { destruct (IH s2 ltac:(simpl; lia)) as [H (w & Hw)].
    split; [exact H|]. exists (b1 :: b2 :: w). simpl. do 2 f_equal.
    exact Hw. }
  destruct s2 as [|b3 s3].
  { split; [cbn [startsSpace startsSpaceRev]; rewrite E1, E2; reflexivity
           |exists []; reflexivity]. }
  destruct (space3 b1 b2 b3) eqn:E3.
  { destruct (IH s3 ltac:(simpl; lia)) as [H (w & Hw)].
    split; [exact H|]. exists (b1 :: b2 :: b3 :: w). simpl. do 3 f_equal.
    exact Hw. }
  split; [cbn [startsSpace startsSpaceRev]; rewrite E1, E2, E3; reflexivity
         |exists []; reflexivity].
Qed.

Lemma trimRightRev_trimmed s :
  startsSpaceRev (trimRightRev s) = false
  /\ exists w, s = w ++ trimRightRev s.
Proof.
  induction s as [s IH] using list_length_ind.
  destruct s as [|b1 s1]; [split; [reflexivity|exists []; reflexivity]|].
  cbn [trimRightRev].
  destruct (asciiSpace b1) eqn:E1.
  { destruct (IH s1 ltac:(simpl; lia)) as [H (w & Hw)].
    split; [exact H|]. exists (b1 :: w). simpl. f_equal. exact Hw. }
  destruct s1 as [|b2 s2].
  { split; [cbn [startsSpace startsSpaceRev]; rewrite E1; reflexivity
           |exists []; reflexivity]. }
  destruct (space2 b2 b1) eqn:E2.
  { destruct (IH s2 ltac:(simpl; lia)) as [H (w & Hw)].
    split; [exact H|]. exists (b1 :: b2 :: w). simpl. do 2 f_equal.
    exact Hw. }
  destruct s2 as [|b3 s3].
  { split; [cbn [startsSpace startsSpaceRev]; rewrite E1, E2; reflexivity
           |exists []; reflexivity]. }
  destruct (space3 b3 b2 b1) eqn:E3.
  { destruct (IH s3 ltac:(simpl; lia)) as [H (w & Hw)].
    split; [exact H|]. exists (b1 :: b2 :: b3 :: w). simpl. do 3 f_equal.
    exact Hw. }
  split; [cbn [startsSpace startsSpaceRev]; rewrite E1, E2, E3; reflexivity
         |exists []; reflexivity].
Qed.

Lemma startsSpace_prefix u v :
  startsSpace (u ++ v) = false -> startsSpace u = false.
Proof.
  destruct u as [|b1 [|b2 [|b3 u]]]; [reflexivity| | |];
    cbn [app startsSpace]; intros H.
  - destruct (asciiSpace b1); [discriminate H|reflexivity].
  - destruct (asciiSpace b1); [discriminate H|].
    destruct (space2 b1 b2); [destruct v; discriminate H|reflexivity].
  - exact H.
Qed.

Lemma trimSpaceBytes_trimmed s :
  startsSpace (trimSpaceBytes s) = false
  /\ startsSpaceRev (rev (trimSpaceBytes s)) = false.
Proof.
  unfold trimSpaceBytes.
  destruct (trimLeft_trimmed s) as [Hl _].
  destruct (trimRightRev_trimmed (rev (trimLeft s))) as [Hr (w & Hw)].
  split.
  - apply (startsSpace_prefix _ (rev w)).
    rewrite <- rev_app_distr, <- Hw, rev_involutive. exact Hl.
  - rewrite rev_involutive. exact Hr.
Qed.

Lemma trimSpaceBytes_fixed s :
  startsSpace s = false -> startsSpaceRev (rev s) = false ->
  trimSpaceBytes s = s.
Proof.
  intros H1 H2. unfold trimSpaceBytes.
  rewrite (trimLeft_fixed _ H1), (trimRightRev_fixed _ H2).
  apply rev_involutive.
Qed.

Lemma trimSpaceBytes_idem s :
  trimSpaceBytes (trimSpaceBytes s) = trimSpaceBytes s.
Proof.
  destruct (trimSpaceBytes_trimmed s) as [H1 H2].
  apply trimSpaceBytes_fixed; assumption.
Qed.

Lemma bytes_of_bytes l :
  list_ascii_of_string (string_of_list_ascii l) = l.
Proof.
  induction l as [|c l IH]; simpl; [reflexivity|].
  rewrite IH. reflexivity.
Qed.

Lemma TrimSpace_idem s : TrimSpace (TrimSpace s) = TrimSpace s.
Proof.
  unfold TrimSpace. rewrite bytes_of_bytes, trimSpaceBytes_idem. reflexivity.
Qed.

Lemma asciiSpace_low c : asciiSpace c = true -> nat_of_ascii c <= 32.
Proof.
  unfold asciiSpace. cbv zeta. intros H.
  apply orb_true_iff in H as [H|H].
  - apply andb_true_iff in H as [_ H]. apply Nat.leb_le in H. lia.
  - apply Nat.eqb_eq in H. lia.
Qed.

Lemma space2_ascii b c : asciiSpace c = true -> space2 b c = false.
Proof.
  intros H. apply asciiSpace_low in H. unfold space2.
  replace (nat_of_ascii c =? 133) with false
    by (symmetry; apply Nat.eqb_neq; lia).
  replace (nat_of_ascii c =? 160) with false
    by (symmetry; apply Nat.eqb_neq; lia).
  apply andb_false_r.
Qed.

Lemma space3_ascii b1 b2 c : asciiSpace c = true -> space3 b1 b2 c = false.
Proof.
  intros H. apply asciiSpace_low in H. unfold space3. cbv zeta.
  replace (nat_of_ascii c =? 128) with false
    by (symmetry; apply Nat.eqb_neq; lia).
  replace (128 <=? nat_of_ascii c) with false
    by (symmetry; apply Nat.leb_gt; lia).
  replace (nat_of_ascii c =? 168) with false
    by (symmetry; apply Nat.eqb_neq; lia).
  replace (nat_of_ascii c =? 169) with false
    by (symmetry; apply Nat.eqb_neq; lia).
  replace (nat_of_ascii c =? 175) with false
    by (symmetry; apply Nat.eqb_neq; lia).
  replace (nat_of_ascii c =? 159) with false
    by (symmetry; apply Nat.eqb_neq; lia).
  rewrite !andb_false_r. reflexivity.
Qed.

(** An ASCII white-space byte after [s]. *)
Lemma trimLeft_snoc s c :
  asciiSpace c = true ->
  trimLeft (s ++ [c])
  = match trimLeft s with [] => [] | t => t ++ [c] end.
Proof.
  intros Hc.
  induction s as [s IH] using list_length_ind.
  destruct s as [|b1 s1]; [simpl; rewrite Hc; reflexivity|].
  cbn [app trimLeft].
  destruct (asciiSpace b1) eqn:E1; [apply IH; simpl; lia|].
  destruct s1 as [|b2 s2].
  { cbn [app]. rewrite (space2_ascii b1 c Hc). reflexivity. }
  cbn [app].
  destruct (space2 b1 b2) eqn:E2; [apply IH; simpl; lia|].
  destruct s2 as [|b3 s3].
  { cbn [app]. rewrite (space3_ascii b1 b2 c Hc). reflexivity. }
  cbn [app].
  destruct (space3 b1 b2 b3) eqn:E3; [apply IH; simpl; lia|].
  reflexivity.
Qed.

Lemma trimSpaceBytes_snoc s c :
  asciiSpace c = true -> trimSpaceBytes (s ++ [c]) = trimSpaceBytes s.
Proof.
  intros Hc. unfold trimSpaceBytes. rewrite (trimLeft_snoc _ _ Hc).
  destruct (trimLeft s) as [|a t] eqn:E; [reflexivity|].
  rewrite rev_app_distr. cbn [rev app trimRightRev]. rewrite Hc.
  reflexivity.
Qed.

Lemma trimSpaceBytes_around a s b :
  forallb asciiSpace a = true -> forallb asciiSpace b = true ->
  trimSpaceBytes (a ++ s ++ b) = trimSpaceBytes s.
Proof.
  intros Ha Hb.
  transitivity (trimSpaceBytes (s ++ b)).
  - clear Hb. induction a as [|c a IH]; [reflexivity|].
    simpl in Ha. apply andb_true_iff in Ha as [Hc Ha].
    rewrite <- (IH Ha). unfold trimSpaceBytes. cbn [app trimLeft].
    rewrite Hc. reflexivity.
  - clear Ha. revert s. induction b as [|c b IH]; intros s.
    + rewrite app_nil_r. reflexivity.
    + simpl in Hb. apply andb_true_iff in Hb as [Hc Hb].
      change (s ++ c :: b) with (s ++ [c] ++ b).
      rewrite app_assoc, (IH Hb). apply trimSpaceBytes_snoc, Hc.
Qed.

Lemma TrimSpace_around a s b :
  allSpace a = true -> allSpace b = true ->
  TrimSpace (a +:+ s +:+ b) = TrimSpace s.
Proof.
  intros Ha Hb. unfold TrimSpace.
  rewrite !bytes_app, trimSpaceBytes_around by assumption. reflexivity.
Qed.

(** ** Further properties of the options and of the environment layer *)

(** X1. Generic options compose by the setting they assign, for the HTTP
    and for the gRPC driver alike: of two options for one setting the one
    applied last decides, as if the earlier one had not been given, and
    options for different settings can be given in either order.
    ([WithInsecure] and [WithSecure] assign the same setting.) *)
Theorem generic_options_compose (a b : Setter) (cfg : Config) :
  ApplyHTTPOption (optionOf a) (ApplyHTTPOption (optionOf b) cfg)
  = (if settingOf a =? settingOf b
     then ApplyHTTPOption (optionOf a) cfg
     else ApplyHTTPOption (optionOf b) (ApplyHTTPOption (optionOf a) cfg))
  /\ ApplyGRPCOption (optionOf a) (ApplyGRPCOption (optionOf b) cfg)
     = (if settingOf a =? settingOf b
        then ApplyGRPCOption (optionOf a) cfg
        else ApplyGRPCOption (optionOf b) (ApplyGRPCOption (optionOf a) cfg)).
Proof.
  destruct cfg as [[ep pr ins tl hd cp tm up gc hc] rc rp sc dl cn].
  destruct a as [| | | | |[]| | | |], b as [| | | | |[]| | | |];
    split; reflexivity.
Qed.

(** X2. When the reader finds none of its variables, the environment
    contributes no option: both environment layers return the
    configuration they were given, the protocol is left as it was, and
    [NewHTTPConfig] without options returns its defaults. *)
Theorem silent_environment g cfg (p : Protocol_t) :
  silent (DefaultEnvOptionsReader g) ->
  getOptionsFromEnv g = []
  /\ ApplyHTTPEnvConfigs g cfg = cfg
  /\ ApplyGRPCEnvConfigs g cfg = cfg
  /\ ApplyEnvProtocol g p = p
  /\ NewHTTPConfig g [] = httpDefaults g.
Proof.
  intros Hs. pose proof (silent_getOptionsFromEnv g Hs) as E.
  assert (Eh : forall c, ApplyHTTPEnvConfigs g c = c).
  { intros c. unfold ApplyHTTPEnvConfigs. rewrite E. reflexivity. }
  split; [exact E|]. split; [apply Eh|].
  split; [unfold ApplyGRPCEnvConfigs; rewrite E; reflexivity|].
  split.
  - destruct Hs as (H1 & _). unfold ApplyEnvProtocol.
    unfold envconfig.Apply, envconfig.WithString, envconfig.withValue.
    cbn [fold_left]. rewrite !H1. reflexivity.
  - unfold NewHTTPConfig. cbn [fold_left]. rewrite Eh. reflexivity.
Qed.

Lemma silent_environment_witness :
  silent (DefaultEnvOptionsReader (globalsOf noEnv))
  /\ ApplyGRPCEnvConfigs (globalsOf noEnv) (grpcDefaults (globalsOf noEnv))
     = grpcDefaults (globalsOf noEnv).
Proof.
  assert (Hs : silent (DefaultEnvOptionsReader (globalsOf noEnv))).
  { repeat split. }
  split; [exact Hs|].
  exact (proj1 (proj2 (proj2
           (silent_environment (globalsOf noEnv)
              (grpcDefaults (globalsOf noEnv)) "" Hs)))).
Defined.

(** X3. No environment variable reaches the retry policy, the
    reconnection period, the service configuration, the dial options, the
    gRPC connection or the HTTP client: both environment layers leave them
    as they were.  The HTTP layer also leaves the gRPC credentials alone,
    and the gRPC layer the TLS configuration and the URL path. *)
Theorem env_layer_frame g cfg :
  beyondEnv (ApplyHTTPEnvConfigs g cfg) = beyondEnv cfg
  /\ beyondEnv (ApplyGRPCEnvConfigs g cfg) = beyondEnv cfg
  /\ GRPCCredentials (Logs (ApplyHTTPEnvConfigs g cfg))
     = GRPCCredentials (Logs cfg)
  /\ TLSCfg (Logs (ApplyGRPCEnvConfigs g cfg)) = TLSCfg (Logs cfg)
  /\ URLPath (Logs (ApplyGRPCEnvConfigs g cfg)) = URLPath (Logs cfg).
Proof.
  destruct (env_layer_frame_aux g cfg) as [H1 H2].
  destruct (env_layer_driver_fields g cfg) as (H3 & H4 & H5).
  repeat split; assumption.
Qed.

(** X4. The protocol follows the precedence law with the empty string as
    fallback: the builders set no default protocol.  A value read from the
    environment is always one of the three protocol constants. *)
Theorem protocol_precedence :
  lawHTTP Protocol WithProtocol (fun v => v)
    (fun e => stringToProtocol <$> envconfig.GetEnvValue e "LOGS_PROTOCOL")
    (fun e => stringToProtocol <$> envconfig.GetEnvValue e "PROTOCOL")
    (fun _ => "")
  /\ lawGRPC Protocol WithProtocol (fun v => v)
       (fun e => stringToProtocol <$> envconfig.GetEnvValue e "LOGS_PROTOCOL")
       (fun e => stringToProtocol <$> envconfig.GetEnvValue e "PROTOCOL")
       (fun _ => "")
  /\ (forall s,
        In (stringToProtocol s)
          [ExporterProtocolGrpc; ExporterProtocolHttpProtobuf;
           ExporterProtocolHttpJson]).
Proof.
  split; [exact law_Protocol_HTTP|].
  split; [exact law_Protocol_GRPC|exact stringToProtocol_range].
Qed.

Lemma protocol_precedence_witness :
  let e :=
    envconfig.mkReader
      (fun n => if String.eqb n "PROTOCOL" then Some "GRPC"
                else if String.eqb n "LOGS_PROTOCOL" then Some "thrift"
                else None)
      (fun _ => None) (fun _ => None) (fun _ => None) (fun _ => None)
      (fun _ => None) (fun _ _ => None) in
  Forall (keeps ApplyHTTPOption Protocol)
    ([HTTPOptionOf (WithTimeout (5 * Second)%Z)] ++ [])
  /\ Protocol
       (Logs (NewHTTPConfig (globalsOf e)
                [HTTPOptionOf (WithTimeout (5 * Second)%Z)]))
     = ExporterProtocolHttpProtobuf.
Proof.
  intros e.
  assert (Hk : Forall (keeps ApplyHTTPOption Protocol)
                 ([HTTPOptionOf (WithTimeout (5 * Second)%Z)] ++ [])).
  { repeat constructor. }
  split; [exact Hk|].
  exact (proj1 protocol_precedence (globalsOf e)
           [HTTPOptionOf (WithTimeout (5 * Second)%Z)] [] None Hk).
Defined.

(** X5. The URL path follows the precedence law for the HTTP builder, with
    [CleanPath] applied to whichever value wins: the caller's path, else
    the path of the per-signal endpoint ([/] when it is empty), else the
    path of the generic endpoint joined with the default logs path, else
    the default logs path.  For the gRPC builder no endpoint variable
    reaches the URL path, and the path is not cleaned. *)
Theorem URLPath_precedence g (O : option string) :
  (forall l1 l2 : list HTTPOption,
     Forall (keeps ApplyHTTPOption URLPath) (l1 ++ l2) ->
     URLPath
       (Logs (NewHTTPConfig g
                (l1 ++ map HTTPOptionOf (explicit WithURLPath O) ++ l2)))
     = CleanPath
         (precedence O
            (signalURLPath
             <$> envconfig.GetURL (DefaultEnvOptionsReader g) "LOGS_ENDPOINT")
            (genericURLPath
             <$> envconfig.GetURL (DefaultEnvOptionsReader g) "ENDPOINT")
            DefaultLogsPath)
         DefaultLogsPath)
  /\ (forall l1 l2 : list GRPCOption,
        Forall (keeps ApplyGRPCOption URLPath) (l1 ++ l2) ->
        URLPath
          (Logs (NewGRPCConfig g
                   (l1 ++ map GRPCOptionOf (explicit WithURLPath O) ++ l2)))
        = precedence O None None DefaultLogsPath).
Proof.
  split; intros l1 l2 Hk.
  - apply URLPath_HTTP_law, Hk.
  - apply URLPath_GRPC_law, Hk.
Qed.

Lemma URLPath_precedence_witness :
  let g := globalsOf
             (readerOf
                [("ENDPOINT", mkURL "https" "collector" "/base/");
                 ("LOGS_ENDPOINT", mkURL "https" "logs" "/ingest/./logs/")]
                [] []) in
  Forall (keeps ApplyHTTPOption URLPath)
    ([HTTPOptionOf (WithEndpoint "host:4318")] ++ [])
  /\ URLPath (Logs (NewHTTPConfig g [HTTPOptionOf (WithEndpoint "host:4318")]))
     = "/ingest/logs".
Proof.
  intros g.
  assert (Hk : Forall (keeps ApplyHTTPOption URLPath)
                 ([HTTPOptionOf (WithEndpoint "host:4318")] ++ [])).
  { repeat constructor. }
  split; [exact Hk|].
  exact (proj1 (URLPath_precedence g None)
           [HTTPOptionOf (WithEndpoint "host:4318")] [] Hk).
Defined.

(** X6. Compression from the environment, by the values the reader
    yields ([GetEnvValue] yields none for a variable that is not set or is
    empty): after either environment layer the compression is gzip exactly
    when the value of LOGS_COMPRESSION is the string [gzip], or there is no
    value for it and the value of COMPRESSION is the string [gzip], or
    there is a value for neither and the compression was gzip before.  Any
    other value the reader yields, [GZIP] for instance, selects no
    compression, and for LOGS_COMPRESSION it does so whatever COMPRESSION
    says. *)
Theorem env_compression_gzip g cfg :
  let e := DefaultEnvOptionsReader g in
  let fromEnv :=
    envconfig.GetEnvValue e "LOGS_COMPRESSION" = Some "gzip"
    \/ (envconfig.GetEnvValue e "LOGS_COMPRESSION" = None
        /\ (envconfig.GetEnvValue e "COMPRESSION" = Some "gzip"
            \/ (envconfig.GetEnvValue e "COMPRESSION" = None
                /\ Compression (Logs cfg) = GzipCompression))) in
  (Compression (Logs (ApplyHTTPEnvConfigs g cfg)) = GzipCompression
   <-> fromEnv)
  /\ (Compression (Logs (ApplyGRPCEnvConfigs g cfg)) = GzipCompression
      <-> fromEnv).
Proof.
  intros e fromEnv. subst e fromEnv.
  rewrite env_Compression_HTTP, env_Compression_GRPC.
  split; apply compression_gzip_iff.
Qed.

(** X7. The dial options of the configuration [NewGRPCConfig] returns are
    those the options left, the option for the selected transport
    credentials, the service configuration if it is not empty, the gzip
    compressor if compression is gzip, and the connection parameters if
    the reconnection period is not zero, and no other.  The retry policy,
    the reconnection period, the service configuration and the connection
    are returned as the options left them. *)
Theorem NewGRPCConfig_dial_options g opts (d : DialOption) :
  let pre := preGRPC g opts in
  let cfg := NewGRPCConfig g opts in
  (In d (DialOptions cfg)
   <-> In d (DialOptions pre)
       \/ d = WithTransportCredentials (selectedCredentials pre)
       \/ (ServiceConfig pre <> ""
           /\ d = WithDefaultServiceConfig (ServiceConfig pre))
       \/ (Compression (Logs pre) = GzipCompression
           /\ d = WithDefaultCallOptions (UseCompressor gzip_Name))
       \/ (ReconnectionPeriod pre <> 0%Z
           /\ d = WithConnectParams
                    (mkConnectParams backoff_DefaultConfig
                       (ReconnectionPeriod pre))))
  /\ RetryConfig cfg = RetryConfig pre
  /\ ReconnectionPeriod cfg = ReconnectionPeriod pre
  /\ ServiceConfig cfg = ServiceConfig pre
  /\ GRPCConn cfg = GRPCConn pre.
Proof.
  intros pre cfg. split.
  - apply NewGRPCConfig_dial_membership.
  - apply NewGRPCConfig_other_fields.
Qed.

Lemma fold_explicit_keepsCfg {O A B : Type} (ap : O -> Config -> Config)
    (inj : GenericOption -> O) (Q : Config -> A)
    (W : B -> GenericOption) (l1 l2 : list O) (o : option B) cfg :
  (forall v c, Q (ap (inj (W v)) c) = Q (ap (inj (W v)) cfg)) ->
  Forall (keepsCfg ap Q) (l1 ++ l2) ->
  Q (fold_left (fun c x => ap x c) (l1 ++ map inj (explicit W o) ++ l2) cfg)
  = match o with
    | Some v => Q (ap (inj (W v)) cfg)
    | None => Q cfg
    end.
Proof.
  intros HW Hk. apply Forall_app in Hk as [H1 H2].
  rewrite !fold_left_app, (fold_keepsCfg ap Q l2) by exact H2.
  destruct o as [v|]; simpl.
  - apply HW.
  - apply fold_keepsCfg, H1.
Qed.

(** X8. The retry policy is the caller's, else [retry.DefaultConfig]; the
    HTTP client is the caller's, else none.  No environment variable
    takes part, for either builder. *)
Theorem retry_and_client_settings g
    (Or : option retry.Config) (Oc : option (option http_Client)) :
  (forall l1 l2 : list HTTPOption,
     Forall (keepsCfg ApplyHTTPOption RetryConfig) (l1 ++ l2) ->
     RetryConfig
       (NewHTTPConfig g (l1 ++ map HTTPOptionOf (explicit WithRetry Or) ++ l2))
     = default (retry_DefaultConfig g) Or)
  /\ (forall l1 l2 : list GRPCOption,
        Forall (keepsCfg ApplyGRPCOption RetryConfig) (l1 ++ l2) ->
        RetryConfig
          (NewGRPCConfig g
             (l1 ++ map GRPCOptionOf (explicit WithRetry Or) ++ l2))
        = default (retry_DefaultConfig g) Or)
  /\ (forall l1 l2 : list HTTPOption,
        Forall (keepsCfg ApplyHTTPOption (fun c => HTTPClient (Logs c)))
          (l1 ++ l2) ->
        HTTPClient
          (Logs (NewHTTPConfig g
                   (l1 ++ map HTTPOptionOf (explicit WithHTTPClient Oc)
                    ++ l2)))
        = default None Oc).
Proof.
  destruct (env_layer_frame_aux g (httpDefaults g)) as [Fh _].
  destruct (env_layer_frame_aux g (grpcDefaults g)) as [_ Fg].
  unfold beyondEnv in Fh, Fg.
  split; [|split]; intros l1 l2 Hk.
  - rewrite NewHTTPConfig_pre. cbn [RetryConfig setLogs]. unfold preHTTP.
    rewrite (fold_explicit_keepsCfg ApplyHTTPOption HTTPOptionOf RetryConfig)
      by (assumption || (intros; reflexivity)).
    destruct Or; [reflexivity|]. simpl default.
    injection Fh as -> _. reflexivity.
  - destruct (NewGRPCConfig_other_fields g
                (l1 ++ map GRPCOptionOf (explicit WithRetry Or) ++ l2))
      as [-> _].
    unfold preGRPC.
    rewrite (fold_explicit_keepsCfg ApplyGRPCOption GRPCOptionOf RetryConfig)
      by (assumption || (intros; reflexivity)).
    destruct Or; [reflexivity|]. simpl default.
    injection Fg as -> _. reflexivity.
  - rewrite NewHTTPConfig_pre. cbn [Logs HTTPClient setLogs setURLPath].
    unfold preHTTP.
    rewrite (fold_explicit_keepsCfg ApplyHTTPOption HTTPOptionOf
               (fun c => HTTPClient (Logs c)))
      by (assumption || (intros; reflexivity)).
    destruct Oc; [reflexivity|]. simpl default.
    injection Fh as _ _ _ _ _ ->. reflexivity.
Qed.

Lemma retry_and_client_settings_witness :
  let g := globalsOf
             (readerOf [] [] [("TIMEOUT", (15000 * Millisecond)%Z)]) in
  Forall (keepsCfg ApplyHTTPOption RetryConfig)
    ([HTTPOptionOf (WithTimeout (5 * Second)%Z)] ++ [])
  /\ RetryConfig (NewHTTPConfig g [HTTPOptionOf (WithTimeout (5 * Second)%Z)])
     = retry_DefaultConfig g.
Proof.
  intros g.
  assert (Hk : Forall (keepsCfg ApplyHTTPOption RetryConfig)
                 ([HTTPOptionOf (WithTimeout (5 * Second)%Z)] ++ [])).
  { repeat constructor. }
  split; [exact Hk|].
  exact (proj1 (retry_and_client_settings g None None)
           [HTTPOptionOf (WithTimeout (5 * Second)%Z)] [] Hk).
Defined.

(** ** Further properties of [cleanPath] *)

(** X9. The shape of the result of [cleanPath]: it is the default path, or
    it is a slash followed by elements with single slashes in between,
    first [..] elements and then proper ones (not empty, without slash,
    neither [.] nor [..]); and there is no [..] element unless the
    trimmed input is not rooted. *)
Theorem cleanPath_shape p d :
  cleanPath p d = d
  \/ exists k ns,
       list_ascii_of_string (cleanPath p d)
       = slash :: joinElems (repeat [dot; dot] k ++ ns)
       /\ forallb normalElem ns = true
       /\ (k = 0 \/ path.IsAbs (TrimSpace p) = false).
Proof.
  unfold cleanPath. cbv zeta.
  change (gostrings.TrimSpace p) with (TrimSpace p).
  set (x := TrimSpace p).
  destruct (String.eqb (path.Clean x) ".") eqn:Ed; [left; reflexivity|].
  right.
  pose proof (eqb_dot_bytes _ Ed) as Hd. rewrite Clean_bytes in Hd.
  pose proof (wfStack_cleanStack (list_ascii_of_string x)) as Hwf.
  rewrite IsAbs_bytes, Clean_bytes, isRooted_cleanBytes, <- IsAbs_bytes.
  destruct (path.IsAbs x) eqn:Ea; simpl negb; cbv iota.
  - rewrite IsAbs_bytes in Ea. rewrite Ea in Hwf.
    destruct (wfStack_rev _ _ Hwf) as (k & ns & E & Hns & Hk).
    exists k, ns. rewrite Clean_bytes.
    rewrite cleanBytes_rendered by (rewrite Ea; discriminate).
    rewrite Ea, E. split; [reflexivity|]. split; [exact Hns|].
    left. apply Hk. reflexivity.
  - rewrite IsAbs_bytes in Ea. rewrite Ea in Hwf.
    assert (Hne : cleanStack (list_ascii_of_string x) <> []).
    { intros E. apply Hd, cleanBytes_dot; assumption. }
    destruct (wfStack_rev _ _ Hwf) as (k & ns & E & Hns & Hk).
    exists k, ns. rewrite bytes_slash_app, Clean_bytes.
    rewrite cleanBytes_rendered by (intros _; exact Hne).
    rewrite Ea, E. split; [reflexivity|]. split; [exact Hns|].
    right. reflexivity.
Qed.

(** X10. For an input that is rooted once trimmed, [cleanPath] is
    [path.Clean] of the trimmed input: the result is absolute, and the
    default path plays no part. *)
Theorem cleanPath_rooted_input p d :
  path.IsAbs (TrimSpace p) = true ->
  cleanPath p d = path.Clean (TrimSpace p)
  /\ path.IsAbs (cleanPath p d) = true
  /\ forall d', cleanPath p d' = cleanPath p d.
Proof.
  intros Ha. destruct (cleanPath_rooted p d Ha) as [E1 E2].
  split; [exact E1|]. split; [exact E2|].
  intros d'. rewrite E1. apply (cleanPath_rooted p d' Ha).
Qed.

Lemma cleanPath_rooted_input_witness :
  path.IsAbs (TrimSpace " /a/../b/ ") = true
  /\ cleanPath " /a/../b/ " "/v1/logs" = "/b".
Proof.
  assert (Ha : path.IsAbs (TrimSpace " /a/../b/ ") = true) by reflexivity.
  split; [exact Ha|].
  exact (proj1 (cleanPath_rooted_input " /a/../b/ " "/v1/logs" Ha)).
Defined.

Lemma append_empty s : s +:+ "" = s.
Proof.
  induction s as [|c s IH]; [reflexivity|].
  change (String c (s +:+ "") = String c s). rewrite IH. reflexivity.
Qed.

(** X11. An input of ASCII white space only, the empty input included,
    gives the default path. *)
Theorem cleanPath_blank_input p d :
  allSpace p = true -> cleanPath p d = d.
Proof.
  intros Hp.
  assert (E : TrimSpace p = "").
  { rewrite <- (append_empty p) at 1.
    apply (TrimSpace_around p "" ""); [exact Hp|reflexivity]. }
  unfold cleanPath. rewrite E. reflexivity.
Qed.

Lemma cleanPath_blank_input_witness :
  allSpace "   " = true /\ cleanPath "   " "/v1/logs" = "/v1/logs".
Proof.
  split; [reflexivity|].
  exact (cleanPath_blank_input "   " "/v1/logs" eq_refl).
Defined.

(** X12. ASCII white space before and after the path does not change the
    result of [cleanPath]. *)
Theorem cleanPath_ignores_ascii_space a b p d :
  allSpace a = true -> allSpace b = true ->
  cleanPath (a +:+ p +:+ b) d = cleanPath p d.
Proof.
  intros Ha Hb. unfold cleanPath.
  rewrite (TrimSpace_around a p b Ha Hb). reflexivity.
Qed.

Lemma cleanPath_ignores_ascii_space_witness :
  allSpace "  " = true /\ allSpace " " = true
  /\ cleanPath ("  " +:+ "logs/ingest" +:+ " ") "/v1/logs"
     = cleanPath "logs/ingest" "/v1/logs".
Proof.
  split; [reflexivity|]. split; [reflexivity|].
  exact (cleanPath_ignores_ascii_space "  " " " "logs/ingest" "/v1/logs"
           eq_refl eq_refl).
Defined.

(** X13. Trimming is done once and for all: the trimmed input has no white
    space at either end, Unicode white space included, and [cleanPath]
    gives the same result for the input and for the trimmed input. *)
Theorem cleanPath_trimmed_input p d :
  startsSpace (list_ascii_of_string (TrimSpace p)) = false
  /\ startsSpaceRev (rev (list_ascii_of_string (TrimSpace p))) = false
  /\ TrimSpace (TrimSpace p) = TrimSpace p
  /\ cleanPath (TrimSpace p) d = cleanPath p d.
Proof.
  destruct (trimSpaceBytes_trimmed (list_ascii_of_string p)) as [H1 H2].
  unfold TrimSpace at 1 2. rewrite bytes_of_bytes.
  split; [exact H1|]. split; [exact H2|].
  split; [apply TrimSpace_idem|].
  unfold cleanPath. rewrite TrimSpace_idem. reflexivity.
Qed.

(** ** Further properties of the endpoint variables *)

(** X14. The gRPC target an endpoint variable gives, the join of the
    URL's host and path, is empty exactly when both are empty, and is
    otherwise a path that [path.Clean] leaves as it is: in particular
    a slash that ends the URL is dropped. *)
Theorem grpc_endpoint_target u cfg :
  let target := Endpoint (Logs (withEndpointForGRPC u cfg)) in
  target = path.Join [Host u; Path u]
  /\ (target = "" <-> Host u = "" /\ Path u = "")
  /\ (target <> "" -> path.Clean target = target).
Proof.
  intros target. subst target.
  change (Endpoint (Logs (withEndpointForGRPC u cfg))) with (grpcTarget u).
  split; [reflexivity|]. apply grpcTarget_clean_aux.
Qed.

Lemma grpc_endpoint_target_witness :
  let u := mkURL "https" "collector:4317" "/" in
  let cfg := grpcDefaults (globalsOf noEnv) in
  let target := Endpoint (Logs (withEndpointForGRPC u cfg)) in
  target = "collector:4317" /\ path.Clean target = target.
Proof.
  intros u cfg target. split; [reflexivity|].
  apply (grpc_endpoint_target u cfg). discriminate.
Defined.

(** X15. The URL path the generic endpoint variable gives to the HTTP
    driver, by the cleaned path [c] of the URL: the default logs path for
    a URL without path; [c] followed by the default logs path in general;
    and, when [c] is [/] or [.], the default logs path after that slash or
    without a slash in front. *)
Theorem generic_endpoint_path u cfg :
  URLPath (Logs (ApplyHTTPOption (endpointOption u) cfg))
  = if String.eqb (Path u) "" then "/v1/logs"
    else if String.eqb (path.Clean (Path u)) "." then "v1/logs"
    else if String.eqb (path.Clean (Path u)) "/" then "/v1/logs"
    else path.Clean (Path u) +:+ "/v1/logs".
Proof.
  change (URLPath (Logs (ApplyHTTPOption (endpointOption u) cfg)))
    with (path.Join [Path u; DefaultLogsPath]).
  apply Join_base.
Qed.

(** ** The options of the HTTP driver *)

Lemma map_wrapped_fold (l : list otlplogshttp.Option) cfg :
  fold_left (fun cfg opt => ApplyHTTPOption opt cfg) (map wrapped l) cfg
  = fold_left (fun cfg o => otlplogshttp.applyHTTPOption o cfg) l cfg.
Proof.
  revert cfg. induction l as [|[o] l IH]; intros cfg; [reflexivity|].
  simpl. apply IH.
Qed.

(** X16. The wrappers around options are transparent.  [NewHTTPConfig]
    returns the same configuration for the options of the HTTP driver
    passed through its [asHTTPOptions] as for the options they wrap, and
    both builders return the same configuration for generic options
    passed through the test's [asHTTPOptions] and [asGRPCOptions] as for
    the options themselves. *)
Theorem option_wrappers_transparent g :
  (forall l : list otlplogshttp.Option,
     NewHTTPConfig g (otlplogshttp.asHTTPOptions l)
     = NewHTTPConfig g (map wrapped l))
  /\ (forall l : list GenericOption,
        NewHTTPConfig g (asHTTPOptions l)
        = NewHTTPConfig g (map HTTPOptionOf l))
  /\ (forall l : list GenericOption,
        NewGRPCConfig g (asGRPCOptions l)
        = NewGRPCConfig g (map GRPCOptionOf l)).
Proof.
  split; [|split]; intros l.
  - unfold NewHTTPConfig.
    rewrite otlplogshttp_asHTTPOptions, map_wrapped_fold. reflexivity.
  - unfold NewHTTPConfig. rewrite asHTTPOptions_fold. reflexivity.
  - unfold NewGRPCConfig. rewrite asGRPCOptions_fold. reflexivity.
Qed.

Lemma NewHTTPConfig_last (g : Globals) (l : list HTTPOption)
    (o : HTTPOption) :
  NewHTTPConfig g (l ++ [o])
  = setLogs
      (setURLPath
         (CleanPath (URLPath (Logs (ApplyHTTPOption o (preHTTP g l))))
            DefaultLogsPath))
      (ApplyHTTPOption o (preHTTP g l)).
Proof.
  rewrite NewHTTPConfig_pre. unfold preHTTP. rewrite fold_left_app.
  reflexivity.
Qed.

(** X17. The last option of the HTTP driver decides its setting, whatever
    the options before it and whatever the environment: the configuration
    [NewHTTPConfig] returns has the value the option carries, and for
    [WithURLPath] the cleaned value. *)
Theorem otlplogshttp_last_option_wins g (l : list otlplogshttp.Option) :
  let cfgOf o := NewHTTPConfig g (otlplogshttp.asHTTPOptions (l ++ [o])) in
  (forall v, Endpoint (Logs (cfgOf (otlplogshttp.WithEndpoint v))) = v)
  /\ Protocol (Logs (cfgOf otlplogshttp.WithJsonProtocol))
     = ExporterProtocolHttpJson
  /\ Protocol (Logs (cfgOf otlplogshttp.WithProtobufProtocol))
     = ExporterProtocolHttpProtobuf
  /\ (forall v, Compression (Logs (cfgOf (otlplogshttp.WithCompression v)))
                = v)
  /\ (forall v, HTTPClient (Logs (cfgOf (otlplogshttp.WithHTTPClient v))) = v)
  /\ (forall v, URLPath (Logs (cfgOf (otlplogshttp.WithURLPath v)))
                = cleanPath v DefaultLogsPath)
  /\ (forall v, TLSCfg (Logs (cfgOf (otlplogshttp.WithTLSClientConfig v)))
                = tls_Clone v)
  /\ Insecure (Logs (cfgOf otlplogshttp.WithInsecure)) = true
  /\ (forall v, Headers (Logs (cfgOf (otlplogshttp.WithHeaders v))) = v)
  /\ (forall v, Timeout (Logs (cfgOf (otlplogshttp.WithTimeout v))) = v)
  /\ (forall v, RetryConfig (cfgOf (otlplogshttp.WithRetry v)) = v).
Proof.
  intros cfgOf.
  assert (E : forall o,
             cfgOf o
             = NewHTTPConfig g
                 (otlplogshttp.asHTTPOptions l
                  ++ [NewHTTPOption (otlplogshttp.applyHTTPOption o)])).
  { intros o. unfold cfgOf, otlplogshttp.asHTTPOptions.
    rewrite map_app. reflexivity. }
  repeat split; intros; rewrite E, NewHTTPConfig_last; reflexivity.
Qed.
